(** * vanscans-garage: the model-acquisition and scene-state pipeline

    A shallow embedding of [js/config.js], [js/utils/ModelLoader.js] and
    [js/managers/VanManager.js], and the properties of the written
    specification that concern them.

    Conventions
    - JavaScript numbers are IEEE 754 binary64 values: [float] (the kernel's
      primitive floats).  Loop counters and array lengths are [nat].
    - What the code calls and the repository does not hold (the bounding
      box of the rendering library, [toFixed]) is a parameter, [Library].
    - A JavaScript [Map] keyed by strings is a [gmap string _].
    - Objects that the code shares by reference and mutates (the root
      [Object3D] of every loaded van) live in a store, [heap], and are
      named by their location.
    - An [async] function is cut at its [await]: the part that runs
      synchronously when the function is called, and the continuation that
      runs when the awaited promise settles.  Between the two, any other
      event of the loop may run. *)

From Stdlib Require Import DecimalString PrimFloat FloatOps SpecFloat.
From Stdlib Require FloatAxioms Uint63.
From stdpp Require Import gmap strings list fin_maps sorting.

#[local] Set Warnings "-inexact-float,-register-all".

Local Open Scope string_scope.

(** ** JavaScript string helpers *)

Module JS.

(** [String(n)] for a non-negative integer [n]: its decimal digits. *)
Definition String (n : nat) : string :=
  NilEmpty.string_of_uint (Nat.to_uint n).

(** [s.padStart(targetLength, padString)]: [padString] is repeated and
    cut to the missing length; a string already long enough, or an empty
    pad, leaves [s] as it is. *)
Definition padStart (targetLength : nat) (padString s : string) : string :=
  let fill := targetLength - String.length s in
  if (fill =? 0)%nat || (String.length padString =? 0)%nat then s
  else String.substring 0 fill (String.concat "" (repeat padString fill)) +:+ s.

(** A non-negative integer as a JavaScript number.  Exact below 2^53,
    which every array length is. *)
Definition Number (n : nat) : float :=
  PrimFloat.of_uint63 (Uint63Axioms.of_Z (Z.of_nat n)).

(** [Math.floor]: the largest integral number not above [f]; NaN, the
    infinities and the zeros are returned as they are.  A finite
    binary64 value is [m * 2^e] with [m] below 2^53: with [e >= 0] it is
    an integer already, otherwise its integral part is below 2^53 and
    converts exactly. *)
Definition floor (f : float) : float :=
  match Prim2SF f with
  | S754_finite s m e =>
      if (0 <=? e)%Z then f
      else
        let d := (2 ^ (- e))%Z in
        let q := (Z.pos m / d)%Z in
        let exact := (Z.pos m mod d =? 0)%Z in
        if s then
          PrimFloat.opp
            (PrimFloat.of_uint63 (Uint63Axioms.of_Z (if exact then q else q + 1)))
        else PrimFloat.of_uint63 (Uint63Axioms.of_Z q)
  | _ => f
  end.

(** Truthiness of a number: every number but 0, -0 and NaN. *)
Definition truthy (f : float) : bool :=
  negb (PrimFloat.is_zero f || PrimFloat.is_nan f).

End JS.

(** ** [config.js] *)

Record Vector3 := mkVector3 { x : float; y : float; z : float }.

(** An entry of [CONFIG.models.vans.list], or a candidate built by the
    prober.  Only the prober writes [number]. *)
Record VanConfig := mkVanConfig {
  id : string;
  name : string;
  filename : string;
  thumbnail : string;
  number : option nat;
  scale : option float;
  position : option Vector3;
  rotation : option Vector3
}.

Module CONFIG.

Definition basePath : string := "models/vans/".
Definition defaultScale : float := 1%float.
Definition defaultPosition : Vector3 := mkVector3 0 0.42 0.
Definition PI : float := 3.141592653589793%float.

Definition list : list VanConfig :=
  [ {| id := "van-001"; name := "Van 001"; filename := "van-001.glb";
       thumbnail := "thumbnails/van-001.jpg"; number := None;
       scale := Some 1%float;
       position := Some (mkVector3 0 0.42 0);
       rotation := Some (mkVector3 0 PI 0) |} ].

Definition getFilename (vanNumber : nat) : string :=
  let paddedNumber := JS.padStart 3 "0" (JS.String vanNumber) in
  "van-" +:+ paddedNumber +:+ ".glb".

Definition getVanId (vanNumber : nat) : string :=
  let paddedNumber := JS.padStart 3 "0" (JS.String vanNumber) in
  "van-" +:+ paddedNumber.

End CONFIG.

Example getVanId_1 : CONFIG.getVanId 1 = "van-001".
Proof. reflexivity. Qed.

Example getVanId_42 : CONFIG.getVanId 42 = "van-042".
Proof. reflexivity. Qed.

Example getFilename_100 : CONFIG.getFilename 100 = "van-100.glb".
Proof. reflexivity. Qed.

Example getFilename_1234 : CONFIG.getFilename 1234 = "van-1234.glb".
Proof. reflexivity. Qed.

(** ** The scene graph of the rendering library

    Of [THREE.Object3D] the fields that the pipeline reads or writes; a
    rotation is kept as its three angles.  [clone()] is a deep copy, so a
    scene graph is a tree of values; only the roots that the manager keeps
    references to are put in the store. *)

Module THREE.

(** [index] is [geometry.index.count] when the geometry is indexed,
    [attributes_position] is [geometry.attributes.position.count] when
    the geometry has a position attribute. *)
Record BufferGeometry := mkBufferGeometry {
  index : option nat;
  attributes_position : option nat
}.

(** [object.geometry]: [undefined] on an object that has none, [null],
    or a buffer geometry. *)
Inductive Geometry :=
  | Undefined
  | Null
  | Buffer (geometry : BufferGeometry).

(** The geometry that passes [if (geometry)]. *)
Definition truthy_geometry (geometry : Geometry) : option BufferGeometry :=
  match geometry with
  | Buffer geometry => Some geometry
  | Null | Undefined => None
  end.

Inductive Object3D := mkObject3D {
  name : string;
  isMesh : bool;
  geometry : Geometry;
  position : Vector3;
  rotation : Vector3;
  scale : Vector3;
  visible : bool;
  castShadow : bool;
  receiveShadow : bool;
  children : list Object3D
}.

(** [object.traverse(callback)]: the callback on the object itself, then
    the traversal of each child in order.  The callback's effect on the
    enclosing variables is the state [S] threaded through. *)
Fixpoint traverse {S : Type} (callback : Object3D -> S -> S)
    (object : Object3D) (s : S) : S :=
  fold_left (fun s child => traverse callback child s)
    (children object) (callback object s).

(** The objects in the order in which [traverse] visits them. *)
Fixpoint nodes (object : Object3D) : list Object3D :=
  object :: flat_map nodes (children object).

(** [object.clone()]: a recursive copy; as a value, the same tree. *)
Definition clone (object : Object3D) : Object3D := object.

(** [parent.add(child)] for a [child] that has no parent yet, as a fresh
    clone has none: [child] becomes the last child. *)
Definition add (parent child : Object3D) : Object3D :=
  mkObject3D (name parent) (isMesh parent) (geometry parent)
    (position parent) (rotation parent) (scale parent) (visible parent)
    (castShadow parent) (receiveShadow parent)
    (children parent ++ [child]).

(** [object.position.copy(p); object.rotation.copy(r);
    object.scale.copy(s)]. *)
Definition copy_transform (object : Object3D) (p r s : Vector3) : Object3D :=
  mkObject3D (name object) (isMesh object) (geometry object) p r s
    (visible object) (castShadow object) (receiveShadow object)
    (children object).

(** [object.visible = b]. *)
Definition set_visible (b : bool) (object : Object3D) : Object3D :=
  mkObject3D (name object) (isMesh object) (geometry object)
    (position object) (rotation object) (scale object) b
    (castShadow object) (receiveShadow object) (children object).

(** [THREE.Box3]: an axis-aligned box, by its two corners. *)
Module Box3.
Record t := mk { min : Vector3; max : Vector3 }.
End Box3.

End THREE.

(** ** Errors and results

    What a JavaScript function can throw in this pipeline, and the result
    of a call that either returns or throws. *)

Inductive Error :=
  | VanNotFound (truckId : string)
      (* Error(`Van with ID ${truckId} not found in config or detected vans`) *)
  | VanNotLoaded (truckId : string)
      (* Error(`Van ${truckId} not loaded yet`) *)
  | TypeError
      (* reading [count] of an undefined position attribute *)
  | LoaderError (cause : string).
      (* what the decoder's promise rejects with *)

Inductive Result (A : Type) :=
  | Ok (a : A)
  | Throw (e : Error).
Arguments Ok {A} a.
Arguments Throw {A} e.

(** ** Model metadata *)

(** What [getModelInfo] calls and the repository does not hold: the
    bounding box of a scene graph in world space and the size of a box,
    both of the rendering library, and the decimal rendering of a number.
    They are parameters: nothing is assumed of them, and in particular
    [setFromObject] may throw on any graph, as the library does, where
    the traversal of [getModelInfo] does not, on a mesh whose geometry is
    [null]. *)
Class Library := {
  (** [new THREE.Box3().setFromObject(object)] *)
  setFromObject : THREE.Object3D -> Result THREE.Box3.t;
  (** [box.getSize(new THREE.Vector3())] *)
  getSize : THREE.Box3.t -> Vector3;
  (** [number.toFixed(digits)] *)
  toFixed : float -> nat -> string
}.

(** The [boundingBox] of the metadata: the corners of the box and its
    size, each coordinate of the size as a decimal string. *)
Module BoundingBox.
Record Size := mkSize { x : string; y : string; z : string }.
Record t := mk { min : Vector3; max : Vector3; size : Size }.
End BoundingBox.

(** The metadata that [getModelInfo] returns. *)
Record ModelInfo := mkModelInfo {
  polygonCount : float;
  vertexCount : float;
  boundingBox : BoundingBox.t
}.

(** The specification's polygon count, in its own words: over the meshes
    of the scene graph, the triangle count of an indexed geometry
    ([index.count / 3]) or a third of the vertex count of an unindexed one
    ([position.count / 3]), summed, then floored.  The sum is taken in
    JavaScript's numbers, mesh after mesh, from 0. *)
Module MetadataSpec.
Import THREE.

(** The geometry of an object that is a mesh and has one. *)
Definition mesh_geometry (o : Object3D) : option BufferGeometry :=
  if isMesh o then truthy_geometry (geometry o) else None.

(** The geometries of the meshes of a scene graph, in traversal order. *)
Definition mesh_geometries (model : Object3D) : list BufferGeometry :=
  omap mesh_geometry (nodes model).

Definition triangles (g : BufferGeometry) : float :=
  match index g with
  | Some count => (JS.Number count / 3)%float
  | None => (JS.Number (default 0%nat (attributes_position g)) / 3)%float
  end.

Definition sum (l : list float) : float :=
  fold_left PrimFloat.add l 0%float.




(** The sum of the triangle counts, not floored yet. *)
Definition triangle_sum (model : Object3D) : float :=
  sum (triangles <$> mesh_geometries model).


Definition has_position (g : BufferGeometry) : Prop :=
  is_Some (attributes_position g).

End MetadataSpec.

(** ** [VanManager.js]: accessory attachment *)

Module Wheels.
Import THREE.

Definition wheelPositions : list string := ["FL"; "FR"; "RL"; "RR"].

(** [array.includes(s)]. *)
Definition includes (array : list string) (s : string) : bool :=
  bool_decide (s ∈ array).

(** The callback handed to [vanModel.traverse]: it pushes the matching
    objects on [foundNulls]. *)
Definition collect_null (child : Object3D) (foundNulls : list Object3D)
    : list Object3D :=
  if includes wheelPositions (name child) then foundNulls ++ [child]
  else foundNulls.

(** The body of the [forEach] over [foundNulls]. *)
Definition attach_wheel (wheelModel : Object3D)
    (vanModel nullObject : Object3D) : Object3D :=
  let wheelClone := clone wheelModel in
  let wheelClone :=
    copy_transform wheelClone (position nullObject) (rotation nullObject)
      (scale nullObject) in
  add vanModel wheelClone.

(** [attachWheelsToVan(vanModel)], with [this.wheelModel] as its first
    argument; the result is [vanModel] after the call. *)
Definition attachWheelsToVan (wheelModel : option Object3D)
    (vanModel : Object3D) : Object3D :=
  match wheelModel with
  | None => vanModel
  | Some wheelModel =>
      let foundNulls := traverse collect_null vanModel [] in
      if (length foundNulls =? 0)%nat then vanModel
      else fold_left (attach_wheel wheelModel) foundNulls vanModel
  end.

(** The mount nodes of a vehicle, as the specification names them: the
    objects of its scene graph that carry one of the four names. *)
Definition mounts (vanModel : Object3D) : list Object3D :=
  filter (fun o => name o ∈ wheelPositions) (nodes vanModel).

(** The accessory clone for a mount node. *)
Definition wheel_at (wheelModel nullObject : Object3D) : Object3D :=
  copy_transform (clone wheelModel) (position nullObject)
    (rotation nullObject) (scale nullObject).

End Wheels.

(** ** The state of a [VanManager] and of the world around it *)

(** A reference to an [Object3D] that the manager holds. *)
Definition loc := nat.

(** The parent of a root object: the scene, once [scene.add] has run. *)
Inductive Parent := TheScene.

(** A root object in the store: the tree, and its [parent] field. *)
Record Instance := mkInstance {
  object : THREE.Object3D;
  parent : option Parent
}.

(** What [ModelLoader.loadModel] resolves with. *)
Record ModelData := mkModelData {
  data_model : THREE.Object3D;
  data_animations : list string;
  fileSize : float
}.

(** A value of the [vans] map. *)
Record VanEntry := mkVanEntry {
  model : loc;
  config : VanConfig;
  animations : list string;
  info : ModelInfo
}.

(** The options that [loadModel] is called with. *)
Record LoadOptions := mkLoadOptions {
  opt_scale : float;
  opt_position : Vector3;
  opt_rotation : Vector3
}.

(** A request that has left for the network. *)
Inductive Request :=
  | HEAD (path : string)                       (* fetch(path, {method: 'HEAD'}) *)
  | GET (path : string) (options : LoadOptions). (* gltfLoader.load(path, ...) *)

Record State := mkState {
  (* the fields of the VanManager instance *)
  currentVan : option loc;
  vans : gmap string VanEntry;
  currentVanId : option string;
  availableVans : list VanConfig;
  vansDetected : bool;
  wheelModel : option THREE.Object3D;
  (* the store of root objects, the children of the scene, and the
     requests issued so far, oldest first *)
  heap : gmap loc Instance;
  scene : list loc;
  requests : list Request
}.

Definition set_currentVan (v : option loc) (s : State) : State :=
  mkState v (vans s) (currentVanId s) (availableVans s) (vansDetected s)
    (wheelModel s) (heap s) (scene s) (requests s).
Definition set_vans (v : gmap string VanEntry) (s : State) : State :=
  mkState (currentVan s) v (currentVanId s) (availableVans s) (vansDetected s)
    (wheelModel s) (heap s) (scene s) (requests s).
Definition set_currentVanId (v : option string) (s : State) : State :=
  mkState (currentVan s) (vans s) v (availableVans s) (vansDetected s)
    (wheelModel s) (heap s) (scene s) (requests s).
Definition set_availableVans (v : list VanConfig) (s : State) : State :=
  mkState (currentVan s) (vans s) (currentVanId s) v (vansDetected s)
    (wheelModel s) (heap s) (scene s) (requests s).
Definition set_vansDetected (v : bool) (s : State) : State :=
  mkState (currentVan s) (vans s) (currentVanId s) (availableVans s) v
    (wheelModel s) (heap s) (scene s) (requests s).
Definition set_wheelModel (v : option THREE.Object3D) (s : State) : State :=
  mkState (currentVan s) (vans s) (currentVanId s) (availableVans s)
    (vansDetected s) v (heap s) (scene s) (requests s).
Definition set_heap (v : gmap loc Instance) (s : State) : State :=
  mkState (currentVan s) (vans s) (currentVanId s) (availableVans s)
    (vansDetected s) (wheelModel s) v (scene s) (requests s).
Definition set_scene (v : list loc) (s : State) : State :=
  mkState (currentVan s) (vans s) (currentVanId s) (availableVans s)
    (vansDetected s) (wheelModel s) (heap s) v (requests s).
Definition set_requests (v : list Request) (s : State) : State :=
  mkState (currentVan s) (vans s) (currentVanId s) (availableVans s)
    (vansDetected s) (wheelModel s) (heap s) (scene s) v.

(** A request leaves for the network: it is added to the log. *)
Definition request (r : Request) (s : State) : State :=
  set_requests (requests s ++ [r]) s.

(** ** Computations that read and write the state, and may throw *)

Definition M (A : Type) : Type := State -> Result A * State.

Definition ret {A} (a : A) : M A := fun s => (Ok a, s).
Definition throw {A} (e : Error) : M A := fun s => (Throw e, s).
Definition bind {A B} (m : M A) (k : A -> M B) : M B :=
  fun s =>
    match m s with
    | (Ok a, s') => k a s'
    | (Throw e, s') => (Throw e, s')
    end.
Definition gets {A} (f : State -> A) : M A := fun s => (Ok (f s), s).
Definition modify (f : State -> State) : M unit := fun s => (Ok tt, f s).

(** [await promise], once the promise has settled with [outcome]: its
    value, or its rejection thrown. *)
Definition settled {A} (outcome : Result A) : M A := fun s => (outcome, s).

(** [try { body } catch (error) { handler }]. *)
Definition try_catch {A} (body : M A) (handler : Error -> M A) : M A :=
  fun s =>
    match body s with
    | (Ok a, s') => (Ok a, s')
    | (Throw e, s') => handler e s'
    end.

Declare Scope js_scope.
Delimit Scope js_scope with js.
Notation "'let*' x ':=' m 'in' k" := (bind m (fun x => k))
  (at level 10, x name, m at level 100, k at level 200,
   format "'[v' 'let*'  x  ':='  m  'in' '/' k ']'") : js_scope.
Notation "m ';;' k" := (bind m (fun _ => k))
  (at level 100, k at level 200, right associativity,
   format "'[v' m ';;' '/' k ']'") : js_scope.
Local Open Scope js_scope.

(** ** Suspended calls *)

(** The suspended calls: an [async] method that has reached its [await]. *)
Inductive Task :=
  | LoadWheelTask
      (* loadWheelModel, awaiting loadModel(wheelPath) *)
  | DetectTask
      (* detectAvailableVans, awaiting Promise.all(checkPromises) *)
  | LoadVanTask (truckId : string) (truckConfig : VanConfig)
      (* loadVan, awaiting loadModel(truckPath) *)
  | LoadModelsTask (count : nat).
      (* loadModels, awaiting Promise.all(promises) over count promises *)

(** An [async] method, run up to its first [await]: it has returned, or
    it is suspended.  A [Throw] is the rejection of its promise. *)
Inductive Step (A : Type) :=
  | Return (a : A)
  | Await (t : Task).
Arguments Return {A} a.
Arguments Await {A} t.

(** ** [Promise.all]

    The input promises settle one by one, in the order of time; a promise
    settles once, so a second settlement of the same input changes
    nothing.  The aggregate rejects with the first rejection it sees and
    fulfils, with the values in the order of the inputs, once every input
    has fulfilled. *)

Module Promise.

Inductive Settlement (A : Type) :=
  | Fulfil (i : nat) (value : A)
  | Reject (i : nat) (e : Error).
Arguments Fulfil {A} i value.
Arguments Reject {A} i e.

Definition input {A} (ev : Settlement A) : nat :=
  match ev with Fulfil i _ => i | Reject i _ => i end.

Inductive All (A : Type) :=
  | Pending (values : list (option A))
  | Fulfilled (values : list A)
  | Rejected (e : Error).
Arguments Pending {A} values.
Arguments Fulfilled {A} values.
Arguments Rejected {A} e.

(** Every slot filled: the values; otherwise nothing. *)
Definition complete {A} (values : list (option A)) : option (list A) :=
  mapM (fun v => v) values.

Definition all_start {A} (count : nat) : All A :=
  match count with
  | 0 => Fulfilled []
  | _ => Pending (replicate count None)
  end.

Definition all_step {A} (st : All A) (ev : Settlement A) : All A :=
  match st with
  | Pending values =>
      match values !! input ev with
      | Some None =>
          match ev with
          | Reject _ e => Rejected e
          | Fulfil i value =>
              let values := <[i := Some value]> values in
              match complete values with
              | Some values => Fulfilled values
              | None => Pending values
              end
          end
      | _ => st
      end
  | _ => st
  end.

(** [Promise.all] over [count] promises, after the settlements
    [schedule]. *)
Definition all {A} (count : nat) (schedule : list (Settlement A)) : All A :=
  fold_left all_step schedule (all_start count).

End Promise.

(** ** [ModelLoader.js] *)

Module ModelLoader.
Import THREE.

(** The callback handed to [model.traverse] in [getModelInfo]; the state
    is the pair of counters, or the exception that an earlier visit
    threw. *)
Definition count_mesh (child : Object3D) (acc : Result (float * float))
    : Result (float * float) :=
  match acc with
  | Throw e => Throw e
  | Ok (polygonCount, vertexCount) =>
      if isMesh child then
        match geometry child with
        | Buffer geometry =>
            let polygons :=
              match index geometry with
              | Some count => Ok (polygonCount + JS.Number count / 3)%float
              | None =>
                  match attributes_position geometry with
                  | Some count => Ok (polygonCount + JS.Number count / 3)%float
                  | None => Throw TypeError
                  end
              end in
            match polygons with
            | Throw e => Throw e
            | Ok polygonCount =>
                match attributes_position geometry with
                | Some count => Ok (polygonCount, (vertexCount + JS.Number count)%float)
                | None => Throw TypeError
                end
            end
        | Null | Undefined => acc
        end
      else acc
  end.

Section GetModelInfo.
Context {library : Library}.

(** The bounding box as the metadata give it. *)
Definition describe (boundingBox : Box3.t) : BoundingBox.t :=
  let size := getSize boundingBox in
  {| BoundingBox.min := Box3.min boundingBox;
     BoundingBox.max := Box3.max boundingBox;
     BoundingBox.size :=
       {| BoundingBox.x := toFixed (x size) 2;
          BoundingBox.y := toFixed (y size) 2;
          BoundingBox.z := toFixed (z size) 2 |} |}.

(** [getModelInfo(model)]: the traversal that counts, then the bounding
    box; an exception of either is thrown on. *)
Definition getModelInfo (model : Object3D) : Result ModelInfo :=
  match traverse count_mesh model (Ok (0%float, 0%float)) with
  | Throw e => Throw e
  | Ok (polygonCount, vertexCount) =>
      match setFromObject model with
      | Throw e => Throw e
      | Ok boundingBox =>
          Ok {| polygonCount := JS.floor polygonCount;
                vertexCount := vertexCount;
                boundingBox := describe boundingBox |}
      end
  end.

End GetModelInfo.

(** An element of the argument of [loadModels]. *)
Record ModelConfig := mkModelConfig {
  path : string;
  options : LoadOptions
}.

(** [loadModels(modelConfigs)] up to its [await]: [map] has called
    [loadModel] on every configuration, so every load has started. *)
Definition loadModels (modelConfigs : list ModelConfig)
    : M (Step (list ModelData)) :=
  modify (fun s =>
            fold_left
              (fun s config => request (GET (path config) (options config)) s)
              modelConfigs s);;
  ret (Await (LoadModelsTask (length modelConfigs))).

(** [loadModels] from its [await] on, after the loads have settled as
    [schedule] tells: nothing while [Promise.all] is pending, then the
    array it fulfilled with, or its rejection, thrown again by the
    [catch] block. *)
Definition loadModels_resume (count : nat)
    (schedule : list (Promise.Settlement ModelData))
    : option (Result (list ModelData)) :=
  match Promise.all count schedule with
  | Promise.Pending _ => None
  | Promise.Fulfilled values => Some (Ok values)
  | Promise.Rejected error => Some (Throw error)
  end.

End ModelLoader.

(** ** [VanManager.js]: cache and switchboard *)

Module VanManager.

(** [object.visible = b] on a stored object. *)
Definition set_visible_at (l : loc) (b : bool) (s : State) : State :=
  set_heap
    (alter (fun i => mkInstance (THREE.set_visible b (object i)) (parent i))
       l (heap s)) s.

(** [if (this.currentVan) { this.currentVan.visible = b; }] *)
Definition set_current_visible (b : bool) (s : State) : State :=
  match currentVan s with
  | Some l => set_visible_at l b s
  | None => s
  end.

(** [if (!this.currentVan.parent) { this.scene.addObject(this.currentVan); }] *)
Definition add_current_to_scene (s : State) : State :=
  match currentVan s with
  | Some l =>
      match heap s !! l with
      | Some i =>
          match parent i with
          | Some _ => s
          | None =>
              set_scene (scene s ++ [l])
                (set_heap (<[l := mkInstance (object i) (Some TheScene)]> (heap s)) s)
          end
      | None => s
      end
  | None => s
  end.

(** The initial state that the constructor builds, before it calls
    [loadWheelModel]. *)
Definition new : State :=
  {| currentVan := None; vans := ∅; currentVanId := None;
     availableVans := []; vansDetected := false; wheelModel := None;
     heap := ∅; scene := []; requests := [] |}.

(** *** Wheel model *)

Definition wheelPath : string := "models/vans/wheel/wheel.glb".

Definition loadWheelModel : M (Step unit) :=
  modify (request (GET wheelPath
            (mkLoadOptions 1 (mkVector3 0 0 0) (mkVector3 0 0 0))));;
  ret (Await LoadWheelTask).

Definition loadWheelModel_resume (outcome : Result ModelData) : M unit :=
  try_catch
    (let* wheelData := settled outcome in
     modify (set_wheelModel (Some (data_model wheelData))))
    (fun error => modify (set_wheelModel None)).

(** [attachWheelsToVan(vanModel)] on a stored model. *)
Definition attachWheelsToVan (vanModel : loc) (s : State) : State :=
  set_heap
    (alter (fun i =>
              mkInstance (Wheels.attachWheelsToVan (wheelModel s) (object i))
                (parent i))
       vanModel (heap s)) s.

(** *** Switching *)

Definition switchToVan (truckId : string) : M VanEntry :=
  let* vans := gets vans in
  match vans !! truckId with
  | None => throw (VanNotLoaded truckId)
  | Some truckData =>
      modify (set_current_visible false);;
      modify (set_currentVan (Some (model truckData)));;
      modify (set_currentVanId (Some truckId));;
      modify add_current_to_scene;;
      modify (set_current_visible true);;
      ret truckData
  end.

(** [a || b] on an optional number: [b] when [a] is missing or falsy. *)
Definition or_number (a : option float) (b : float) : float :=
  match a with
  | Some a => if JS.truthy a then a else b
  | None => b
  end.

(** [a || b] on an optional object. *)
Definition or_object {A} (a : option A) (b : A) : A := default b a.

(** [list.find(t => t.id === truckId)] *)
Definition find_by_id (truckId : string) (list : list VanConfig)
    : option VanConfig :=
  List.find (fun t => String.eqb (id t) truckId) list.

(** The configuration that [loadVan] resolves: the static list first,
    then the detected vans. *)
Definition find_config (truckId : string) (s : State) : option VanConfig :=
  match find_by_id truckId CONFIG.list with
  | Some truckConfig => Some truckConfig
  | None => find_by_id truckId (availableVans s)
  end.

(** [loadVan(truckId)] up to its [await]. *)
Definition loadVan (truckId : string) : M (Step (option VanEntry)) :=
  modify (set_current_visible false);;
  let* vans := gets vans in
  match vans !! truckId with
  | Some _ =>
      let* truckData := switchToVan truckId in
      ret (Return (Some truckData))
  | None =>
      let* truckConfig := gets (find_config truckId) in
      match truckConfig with
      | None => throw (VanNotFound truckId)
      | Some truckConfig =>
          let truckPath := CONFIG.basePath +:+ filename truckConfig in
          modify (request (GET truckPath
            {| opt_scale := or_number (scale truckConfig) CONFIG.defaultScale;
               opt_position :=
                 or_object (position truckConfig) CONFIG.defaultPosition;
               opt_rotation :=
                 or_object (rotation truckConfig) (mkVector3 0 CONFIG.PI 0) |}));;
          ret (Await (LoadVanTask truckId truckConfig))
      end
  end.

(** The decoded scene enters the store under a reference that nothing
    holds yet. *)
Definition new_object (o : THREE.Object3D) : M loc :=
  fun s =>
    let l := fresh (dom (heap s)) in
    (Ok l, set_heap (<[l := mkInstance o None]> (heap s)) s).

Section Metadata.
Context {library : Library}.

(** [getModelInfo(truckData.model)] on a stored model (a reference that
    [loadVan] passes is always in the store). *)
Definition getModelInfo (l : loc) : M ModelInfo :=
  fun s =>
    match heap s !! l with
    | Some i =>
        match ModelLoader.getModelInfo (object i) with
        | Ok info => (Ok info, s)
        | Throw e => (Throw e, s)
        end
    | None => (Throw TypeError, s)
    end.

(** [loadVan(truckId)] from its [await] on: [outcome] is what the
    promise of [loadModel] settled with. *)
Definition loadVan_resume (truckId : string) (truckConfig : VanConfig)
    (outcome : Result ModelData) : M (option VanEntry) :=
  try_catch
    (let* truckData := settled outcome in
     let* truckModel := new_object (data_model truckData) in
     modify (attachWheelsToVan truckModel);;
     let* info := getModelInfo truckModel in
     modify (fun s =>
               set_vans
                 (<[truckId := {| model := truckModel;
                                  config := truckConfig;
                                  animations := data_animations truckData;
                                  info := info |}]> (vans s)) s);;
     let* _ := switchToVan truckId in
     gets (fun s => vans s !! truckId))
    (fun error =>
       modify (set_current_visible true);;
       throw error).

End Metadata.

(** *** Availability prober *)

(** What a [fetch] promise settles with: a response, whose [ok] tells a
    2xx status, or a rejection. *)
Inductive FetchOutcome :=
  | Response (ok : bool)
  | NetworkError.

#[global] Instance FetchOutcome_eq_dec : EqDecision FetchOutcome.
Proof. solve_decision. Defined.

Definition checkCount : nat := 100.

Definition vanPath (i : nat) : string :=
  CONFIG.basePath +:+ CONFIG.getFilename i.

(** The object that the [then] handler builds for index [i]. *)
Definition candidate (i : nat) : VanConfig :=
  {| id := CONFIG.getVanId i;
     name := "Van " +:+ JS.padStart 3 "0" (JS.String i);
     filename := CONFIG.getFilename i;
     thumbnail :=
       "thumbnails/van-" +:+ JS.padStart 3 "0" (JS.String i) +:+ ".jpg";
     number := Some i;
     scale := Some CONFIG.defaultScale;
     position := Some CONFIG.defaultPosition;
     rotation := Some (mkVector3 0 CONFIG.PI 0) |}.

(** [fetch(...).then(response => response.ok ? {...} : null).catch(() => null)] *)
Definition check (i : nat) (outcome : FetchOutcome) : option VanConfig :=
  match outcome with
  | Response ok => if ok then Some (candidate i) else None
  | NetworkError => None
  end.

(** The comparator [(a, b) => a.number - b.number]. *)
Definition by_number (a b : VanConfig) : Z :=
  (Z.of_nat (default 0%nat (number a)) - Z.of_nat (default 0%nat (number b)))%Z.

(** [array.sort(compare)]: a stable sort. *)
Fixpoint insert (compare : VanConfig -> VanConfig -> Z) (a : VanConfig)
    (sorted : list VanConfig) : list VanConfig :=
  match sorted with
  | [] => [a]
  | b :: rest =>
      if (compare a b <=? 0)%Z then a :: b :: rest
      else b :: insert compare a rest
  end.

Definition sort (compare : VanConfig -> VanConfig -> Z)
    (array : list VanConfig) : list VanConfig :=
  foldr (insert compare) [] array.

(** [detectAvailableVans()] up to its [await]: the memoized list, or the
    loop that issues every check, one after the other, before anything
    is awaited. *)
Definition detectAvailableVans : M (Step (list VanConfig)) :=
  let* vansDetected := gets vansDetected in
  if vansDetected then
    let* availableVans := gets availableVans in
    ret (Return availableVans)
  else
    modify (fun s =>
              fold_left (fun s i => request (HEAD (vanPath i)) s)
                (seq 1 checkCount) s);;
    ret (Await DetectTask).

(** [detectAvailableVans()] from its [await] on: [net] is what each
    check's [fetch] settled with. *)
Definition detectAvailableVans_resume (net : string -> FetchOutcome)
    : M (list VanConfig) :=
  let results :=
    map (fun i => check i (net (vanPath i))) (seq 1 checkCount) in
  let detectedVans :=
    fold_left (fun detectedVans result =>
                 match result with
                 | Some result => (detectedVans ++ [result])%list
                 | None => detectedVans
                 end) results [] in
  let detectedVans := sort by_number detectedVans in
  modify (set_availableVans detectedVans);;
  modify (set_vansDetected true);;
  gets availableVans.

(** [getAvailableVans()] *)
Definition getAvailableVans : M (list VanConfig) :=
  let* vansDetected := gets vansDetected in
  let* availableVans := gets availableVans in
  if vansDetected && (0 <? length availableVans)%nat then ret availableVans
  else ret CONFIG.list.

End VanManager.

(** ** The event loop

    The manager's methods run one at a time.  An event is a call from the
    user interface, or the settlement of the promise that a suspended call
    is waiting for; any event may follow any other. *)

Module EventLoop.
Import VanManager.

Record Loop := mkLoop {
  state : State;
  tasks : list Task
}.

Inductive Event :=
  | CallLoadVan (truckId : string)
  | CallDetect
  | CallGetAvailableVans
  | Settle (k : nat) (outcome : Result ModelData)
      (* the load that task [k] awaits resolves or rejects *)
  | SettleChecks (k : nat) (net : string -> FetchOutcome).
      (* the checks that task [k] awaits have all settled *)

(** A call: its effect on the state, and the task it leaves behind when
    it is suspended. *)
Definition call {A} (m : M (Step A)) (lp : Loop) : Loop :=
  match m (state lp) with
  | (Ok (Await t), s) => mkLoop s (tasks lp ++ [t])
  | (_, s) => mkLoop s (tasks lp)
  end.

Definition resume {A} (k : nat) (m : M A) (lp : Loop) : Loop :=
  mkLoop (m (state lp)).2 (delete k (tasks lp)).

Section Step.
Context {library : Library}.

Definition step (lp : Loop) (ev : Event) : Loop :=
  match ev with
  | CallLoadVan truckId => call (loadVan truckId) lp
  | CallDetect => call detectAvailableVans lp
  | CallGetAvailableVans => mkLoop (getAvailableVans (state lp)).2 (tasks lp)
  | Settle k outcome =>
      match tasks lp !! k with
      | Some LoadWheelTask => resume k (loadWheelModel_resume outcome) lp
      | Some (LoadVanTask truckId truckConfig) =>
          resume k (loadVan_resume truckId truckConfig outcome) lp
      | _ => lp
      end
  | SettleChecks k net =>
      match tasks lp !! k with
      | Some DetectTask => resume k (detectAvailableVans_resume net) lp
      | _ => lp
      end
  end.

Definition run (lp : Loop) (events : list Event) : Loop :=
  fold_left step events lp.

End Step.

(** The application after [new VanManager(...)]: the constructor has
    called [loadWheelModel], which is suspended. *)
Definition start : Loop := call loadWheelModel (mkLoop VanManager.new []).

End EventLoop.

(** ** Visibility *)

(** The [visible] flag of a stored object. *)
Definition visible_at (s : State) (l : loc) : bool :=
  match heap s !! l with
  | Some i => THREE.visible (object i)
  | None => false
  end.

(** The [visible] flag of the scene node of an entry. *)
Definition entry_visible (s : State) (e : VanEntry) : bool :=
  visible_at s (model e).

(** The entries of the cache whose scene node is visible. *)
Definition visible_entries (s : State) : gmap string VanEntry :=
  filter (fun kv => entry_visible s kv.2 = true) (vans s).

Definition at_most_one_visible (s : State) : Prop :=
  (size (visible_entries s) ≤ 1)%nat.

(** * Properties *)

(** A conjunction of closed equations, each settled by evaluation. *)
Ltac compute_conj :=
  intros;
  repeat match goal with |- _ /\ _ => split end;
  vm_compute; reflexivity.

(** [Math.floor] on a few numbers. *)
Example floor_examples :
  JS.floor 100 = 100%float
  /\ JS.floor 2.5 = 2%float
  /\ JS.floor 0.5 = 0%float
  /\ JS.floor 1.9999999999999998 = 1%float
  /\ JS.floor (-0.5) = (-1)%float
  /\ JS.floor (-2) = (-2)%float
  /\ JS.floor 9007199254740992 = 9007199254740992%float.
Proof. repeat split. Qed.

(** ** [Math.floor] gives the floor

    The floor that [JS.floor] computes, read back as an integer, is the
    greatest integer not above its argument.  The conversion of an
    integer below 2^53 to a number is exact. *)

Section Flooring.
Import MetadataSpec.
Local Open Scope Z_scope.











End Flooring.

(** ** Asset path convention *)

Module PathSpec.

(** The identifier as the specification spells it. *)
Definition vehicle_id (index : nat) : string :=
  "vehicle-" +:+ JS.padStart 3 "0" (JS.String index).

Definition digit (d : nat) : Ascii.ascii := Ascii.ascii_of_nat (48 + d).

(** The three decimal digits of a number below 1000, leading zeros
    included. *)
Definition three_digits (n : nat) : string :=
  String (digit (n / 100))
    (String (digit (n / 10 mod 10)) (String (digit (n mod 10)) "")).

End PathSpec.

Lemma padStart_three_digits (n : nat) :
  (n < 1000)%nat ->
  JS.padStart 3 "0" (JS.String n) = PathSpec.three_digits n.
Proof.
  intros Hn.
  assert (Hall : forallb
            (fun i => String.eqb (JS.padStart 3 "0" (JS.String i))
                        (PathSpec.three_digits i))
            (seq 0 1000) = true) by (vm_compute; reflexivity).
  rewrite forallb_forall in Hall.
  apply String.eqb_eq, Hall, in_seq. lia.
Qed.

(** C8, as the specification states it, fails: the identifier that the
    code synthesizes for index 1 is not "vehicle-001". *)
Lemma getVanId_not_vehicle_prefix :
  CONFIG.getVanId 1 <> PathSpec.vehicle_id 1.
Proof. vm_compute. discriminate. Qed.

(** C8, amended: for every index, the identifier is "van-" followed by the
    index padded with zeros to three digits (its three decimal digits when
    it is below 1000), the file name is the identifier followed by ".glb",
    the path that the prober checks is the base path "models/vans/"
    followed by the file name, and the candidate that the prober builds
    carries this identifier and this file name. *)
Theorem van_path_convention (i : nat) :
  CONFIG.getVanId i = "van-" +:+ JS.padStart 3 "0" (JS.String i)
  /\ ((i < 1000)%nat -> CONFIG.getVanId i = "van-" +:+ PathSpec.three_digits i)
  /\ CONFIG.getFilename i = CONFIG.getVanId i +:+ ".glb"
  /\ VanManager.vanPath i = "models/vans/" +:+ CONFIG.getFilename i
  /\ id (VanManager.candidate i) = CONFIG.getVanId i
  /\ filename (VanManager.candidate i) = CONFIG.getFilename i.
Proof.
  split; [reflexivity |].
  split; [| repeat split; reflexivity].
  intros Hi. unfold CONFIG.getVanId. by rewrite padStart_three_digits.
Qed.

(** ** Traversal of a scene graph *)

Section Traversal.
Import THREE.

(** Induction on a scene graph: a property that holds of an object when
    it holds of its children holds of every object. *)
Lemma Object3D_children_ind (P : Object3D -> Prop) :
  (forall o, Forall P (children o) -> P o) -> forall o, P o.
Proof.
  intros step. fix IH 1. intros o. apply step.
  destruct o as [? ? ? ? ? ? ? ? ? cs]. simpl.
  induction cs as [|c cs IHcs]; constructor; [apply IH | exact IHcs].
Qed.

Context {S : Type} (callback : Object3D -> S -> S).

Lemma traverse_unfold (o : Object3D) (s : S) :
  traverse callback o s =
  fold_left (fun s child => traverse callback child s) (children o)
    (callback o s).
Proof. destruct o; reflexivity. Qed.

(** [traverse] runs the callback on the objects of the graph in the
    order of [nodes]. *)
Lemma traverse_nodes (o : Object3D) :
  forall s, traverse callback o s =
            fold_left (fun s child => callback child s) (nodes o) s.
Proof.
  induction o as [o IHo] using Object3D_children_ind. intros s.
  rewrite traverse_unfold.
  replace (nodes o) with (o :: flat_map nodes (children o))
    by (destruct o; reflexivity).
  cbn [fold_left]. generalize (callback o s). clear s.
  induction IHo as [|c cs Hc _ IHcs]; intros s; [reflexivity|].
  cbn [fold_left flat_map]. rewrite fold_left_app, <- Hc. apply IHcs.
Qed.

End Traversal.

(** ** Model metadata *)

Section Metadata.
Import THREE ModelLoader MetadataSpec.
Context {library : Library}.

Definition vertices (g : BufferGeometry) : float :=
  JS.Number (default 0%nat (attributes_position g)).

(** One visit: an object that is no mesh, or has no geometry, leaves the
    counters alone; a geometry without a position attribute throws. *)
Lemma count_mesh_step (o : Object3D) (polygons verts : float) :
  count_mesh o (Ok (polygons, verts)) =
  match mesh_geometry o with
  | None => Ok (polygons, verts)
  | Some g =>
      match attributes_position g with
      | Some _ => Ok ((polygons + triangles g)%float, (verts + vertices g)%float)
      | None => Throw TypeError
      end
  end.
Proof.
  unfold count_mesh, mesh_geometry, triangles, vertices.
  destruct (isMesh o); [|reflexivity].
  destruct (geometry o) as [| |g]; [reflexivity..|]. cbn [truthy_geometry].
  destruct (index g), (attributes_position g); reflexivity.
Qed.

(** The counters after the visit of a list of objects whose mesh
    geometries all carry a position attribute. *)
Lemma count_mesh_fold (l : list Object3D) :
  forall polygons verts,
    Forall has_position (omap mesh_geometry l) ->
    fold_left (fun acc child => count_mesh child acc) l (Ok (polygons, verts))
    = Ok (fold_left PrimFloat.add (triangles <$> omap mesh_geometry l) polygons,
          fold_left PrimFloat.add (vertices <$> omap mesh_geometry l) verts).
Proof.
  induction l as [|o l IH]; intros polygons verts Hpos; [reflexivity|].
  cbn [fold_left omap list_omap] in *. rewrite count_mesh_step.
  destruct (mesh_geometry o) as [g|]; [|by apply IH].
  apply Forall_cons in Hpos as [[n Hn] Hpos].
  rewrite Hn, IH by done. reflexivity.
Qed.

(** A mesh whose geometry has no position attribute makes
    [getModelInfo] throw. *)
Example getModelInfo_without_position :
  getModelInfo
    (mkObject3D "body" true (Buffer (mkBufferGeometry (Some 300) None))
       (mkVector3 0 0 0) (mkVector3 0 0 0) (mkVector3 1 1 1)
       true true true [])
  = Throw TypeError.
Proof. reflexivity. Qed.

(** The counters that the traversal of [getModelInfo] leaves, on a
    graph whose mesh geometries carry a position attribute. *)
Lemma getModelInfo_counted (model : Object3D) :
  Forall has_position (mesh_geometries model) ->
  getModelInfo model
  = match setFromObject model with
    | Throw error => Throw error
    | Ok box =>
        Ok {| polygonCount := JS.floor (triangle_sum model);
              vertexCount := sum (vertices <$> mesh_geometries model);
              boundingBox := describe box |}
    end.
Proof.
  intros Hpos. unfold getModelInfo.
  by rewrite traverse_nodes, count_mesh_fold by exact Hpos.
Qed.


(** A garage-like graph: a group with an indexed mesh of 300 indices, an
    empty node, and below it an unindexed mesh of 300 vertices. *)
Definition sample_model : Object3D :=
  let node name isMesh geometry children :=
    mkObject3D name isMesh geometry (mkVector3 0 0 0) (mkVector3 0 0 0)
      (mkVector3 1 1 1) true false false children in
  node "root" false Undefined
    [ node "body" true (Buffer (mkBufferGeometry (Some 300) (Some 120))) [];
      node "FL" false Undefined
        [ node "hub" true (Buffer (mkBufferGeometry None (Some 300))) [] ] ].

End Metadata.

(** A stand-in for the library, for the examples: the box of every
    graph is the empty box, as the library gives it for a graph without
    geometry, whose size is zero. *)
Definition sample_library : Library :=
  {| setFromObject := fun _ =>
       Ok (THREE.Box3.mk (mkVector3 infinity infinity infinity)
             (mkVector3 neg_infinity neg_infinity neg_infinity));
     getSize := fun _ => mkVector3 0 0 0;
     toFixed := fun _ _ => "0.00" |}.

Section MetadataSamples.
Import THREE ModelLoader MetadataSpec.
#[local] Existing Instance sample_library.


(** A single unindexed mesh of 301 vertices, a triangle and a third too
    many: the count is floored to 100. *)
Example getModelInfo_floors :
  exists info,
    getModelInfo
      (mkObject3D "body" true (Buffer (mkBufferGeometry None (Some 301)))
         (mkVector3 0 0 0) (mkVector3 0 0 0) (mkVector3 1 1 1)
         true true true [])
    = Ok info
    /\ polygonCount info = 100%float
    /\ vertexCount info = 301%float.
Proof. eexists. split; [reflexivity|]. split; reflexivity. Qed.

(** A library whose bounding box fails. *)
Definition failing_library : Library :=
  {| setFromObject := fun _ => Throw TypeError;
     getSize := fun _ => mkVector3 0 0 0;
     toFixed := fun _ _ => "" |}.



(** When the bounding box of the library throws, so does
    [getModelInfo], on a graph whose counters are in order too. *)
Example getModelInfo_library_throws :
  @getModelInfo failing_library
    (mkObject3D "body" true (Buffer (mkBufferGeometry (Some 300) (Some 200)))
       (mkVector3 0 0 0) (mkVector3 0 0 0) (mkVector3 1 1 1)
       true true true [])
  = Throw TypeError.
Proof. reflexivity. Qed.

(** A single indexed mesh of 300 indices over 200 vertices, and a single
    unindexed mesh of 300 vertices. *)
Example getModelInfo_300 :
  (exists info,
     getModelInfo
       (mkObject3D "body" true (Buffer (mkBufferGeometry (Some 300) (Some 200)))
          (mkVector3 0 0 0) (mkVector3 0 0 0) (mkVector3 1 1 1)
          true true true [])
     = Ok info
     /\ polygonCount info = 100%float /\ vertexCount info = 200%float)
  /\ (exists info,
        getModelInfo
          (mkObject3D "body" true (Buffer (mkBufferGeometry None (Some 300)))
             (mkVector3 0 0 0) (mkVector3 0 0 0) (mkVector3 1 1 1)
             true true true [])
        = Ok info
        /\ polygonCount info = 100%float /\ vertexCount info = 300%float).
Proof. split; eexists; (split; [reflexivity|]); split; reflexivity. Qed.

End MetadataSamples.

(** The sum is taken in binary64, as the code takes it: three unindexed
    meshes of 1, 4 and 1 vertices add up to 1.9999999999999998. *)
Example polygonCount_is_binary64 :
  MetadataSpec.sum
    (MetadataSpec.triangles <$>
       [THREE.mkBufferGeometry None (Some 1);
        THREE.mkBufferGeometry None (Some 4);
        THREE.mkBufferGeometry None (Some 1)])
  = 1.9999999999999998%float.
Proof. reflexivity. Qed.

(** ** Accessory attachment *)

(** The specification's mount nodes, in its own words: the nodes of the
    vehicle's scene graph that carry one of the four fixed names FL, FR,
    RL, RR, in the order in which a traversal meets them.  The names are
    written out here; nothing is taken from the array of the code. *)
Module MountSpec.
Import THREE.

Definition is_mount (o : Object3D) : bool :=
  String.eqb (name o) "FL" || String.eqb (name o) "FR"
  || String.eqb (name o) "RL" || String.eqb (name o) "RR".

Definition mount_nodes (vanModel : Object3D) : list Object3D :=
  List.filter is_mount (nodes vanModel).

End MountSpec.

Section Attachment.
Import THREE Wheels.

Lemma includes_spec (array : list string) (s : string) :
  includes array s = true <-> s ∈ array.
Proof. unfold includes. apply bool_decide_eq_true. Qed.

(** The traversal collects the mount nodes, in traversal order. *)
Lemma collect_null_fold (l found : list Object3D) :
  fold_left (fun acc child => collect_null child acc) l found
  = (found ++ filter (fun o => name o ∈ wheelPositions) l)%list.
Proof.
  revert found. induction l as [|o l IH]; intros found; cbn [fold_left].
  - by rewrite app_nil_r.
  - rewrite IH. unfold collect_null, includes.
    rewrite filter_cons. case_bool_decide; case_decide; try done.
    by rewrite <- app_assoc.
Qed.

Lemma foundNulls_mounts (vanModel : Object3D) :
  traverse collect_null vanModel [] = mounts vanModel.
Proof. by rewrite traverse_nodes, collect_null_fold. Qed.

(** Attaching to each of [found] appends one clone per element and
    touches nothing else of the root. *)
Lemma attach_wheel_fold (wheel : Object3D) (found : list Object3D) :
  forall vanModel,
    fold_left (attach_wheel wheel) found vanModel
    = mkObject3D (name vanModel) (isMesh vanModel) (geometry vanModel)
        (position vanModel) (rotation vanModel) (scale vanModel)
        (visible vanModel) (castShadow vanModel) (receiveShadow vanModel)
        (children vanModel ++ (wheel_at wheel <$> found)).
Proof.
  induction found as [|m found IH]; intros vanModel; cbn [fold_left].
  - destruct vanModel; cbn. by rewrite app_nil_r.
  - rewrite IH. unfold attach_wheel, add. cbn.
    by rewrite <- app_assoc.
Qed.

Lemma attachWheelsToVan_Some (wheel vanModel : Object3D) :
  attachWheelsToVan (Some wheel) vanModel
  = mkObject3D (name vanModel) (isMesh vanModel) (geometry vanModel)
      (position vanModel) (rotation vanModel) (scale vanModel)
      (visible vanModel) (castShadow vanModel) (receiveShadow vanModel)
      (children vanModel ++ (wheel_at wheel <$> mounts vanModel)).
Proof.
  unfold attachWheelsToVan. rewrite foundNulls_mounts.
  destruct (mounts vanModel) as [|m found] eqn:Hm.
  - destruct vanModel; cbn. by rewrite app_nil_r.
  - cbn [length Nat.eqb]. apply attach_wheel_fold.
Qed.

(** Attachment never changes the [visible] flag of the vehicle. *)
Lemma attachWheelsToVan_visible (wheelModel : option Object3D)
    (vanModel : Object3D) :
  visible (attachWheelsToVan wheelModel vanModel) = visible vanModel.
Proof.
  destruct wheelModel as [wheel|]; [|reflexivity].
  by rewrite attachWheelsToVan_Some.
Qed.

(** Without a wheel model the call on a stored van changes nothing. *)
Lemma attachWheelsToVan_unavailable (s : State) (vanModel : loc) :
  wheelModel s = None -> VanManager.attachWheelsToVan vanModel s = s.
Proof.
  intros Hnone. unfold VanManager.attachWheelsToVan. rewrite Hnone.
  rewrite alter_id; [by destruct s|]. by intros [] _.
Qed.

(** The objects that the code collects are the mount nodes of the
    specification. *)
Lemma is_mount_spec (o : Object3D) :
  MountSpec.is_mount o = true <-> name o ∈ wheelPositions.
Proof.
  unfold MountSpec.is_mount, wheelPositions.
  rewrite !orb_true_iff, !String.eqb_eq, !elem_of_cons, elem_of_nil.
  tauto.
Qed.

Lemma mounts_mount_nodes (vanModel : Object3D) :
  mounts vanModel = MountSpec.mount_nodes vanModel.
Proof.
  unfold mounts, MountSpec.mount_nodes.
  induction (nodes vanModel) as [|o l IH]; [reflexivity|].
  rewrite filter_cons. cbn [List.filter].
  pose proof (is_mount_spec o) as Ho.
  case_decide as Hin; destruct (MountSpec.is_mount o).
  - by rewrite IH.
  - apply Ho in Hin. discriminate.
  - exfalso. by apply Hin, Ho.
  - exact IH.
Qed.

(** C9: without a wheel model, attachment leaves the vehicle, and the
    whole state, as it is, and returns.  With one, the children of the
    vehicle root after attachment are its children before, followed by
    one clone of the wheel per mount node, in traversal order, where the
    mount nodes are the objects of the vehicle's graph named FL, FR, RL
    or RR and no others: with k mount nodes the child count grows by
    exactly k, with none the vehicle is left as it is, and each clone has
    the position, rotation and scale of its mount node. *)
Theorem attachWheelsToVan_adds_clones (vanModel : Object3D) :
  attachWheelsToVan None vanModel = vanModel
  /\ (forall (s : State) (l : loc),
        wheelModel s = None -> VanManager.attachWheelsToVan l s = s)
  /\ (forall o,
        o ∈ MountSpec.mount_nodes vanModel
        <-> o ∈ nodes vanModel
            /\ (name o = "FL" \/ name o = "FR"
                \/ name o = "RL" \/ name o = "RR"))
  /\ forall wheel,
       let attached := attachWheelsToVan (Some wheel) vanModel in
       children attached
       = (children vanModel
          ++ (wheel_at wheel <$> MountSpec.mount_nodes vanModel))%list
       /\ (forall k,
             length (MountSpec.mount_nodes vanModel) = k ->
             length (children attached)
             = (length (children vanModel) + k)%nat)
       /\ Forall2
            (fun wheelClone nullObject =>
               position wheelClone = position nullObject
               /\ rotation wheelClone = rotation nullObject
               /\ scale wheelClone = scale nullObject
               /\ children wheelClone = children wheel
               /\ name wheelClone = name wheel)
            (drop (length (children vanModel)) (children attached))
            (MountSpec.mount_nodes vanModel)
       /\ (MountSpec.mount_nodes vanModel = [] -> attached = vanModel).
Proof.
  split; [reflexivity|].
  split; [exact attachWheelsToVan_unavailable|].
  split.
  { intros o. unfold MountSpec.mount_nodes.
    rewrite list_elem_of_In, filter_In, <- list_elem_of_In.
    unfold MountSpec.is_mount.
    rewrite !orb_true_iff, !String.eqb_eq. tauto. }
  intros wheel attached. subst attached.
  rewrite attachWheelsToVan_Some, mounts_mount_nodes. cbn [children].
  split; [reflexivity|].
  split; [intros k <-; by rewrite length_app, length_fmap|].
  split.
  - rewrite drop_app_length. apply Forall2_fmap_l, Forall_Forall2_diag.
    apply Forall_forall. intros m _. by destruct wheel.
  - intros ->. destruct vanModel; cbn. by rewrite app_nil_r.
Qed.

(** A van with four mount nodes, one of them below another object, and
    a wheel: four clones are added behind the two children. *)
Definition sample_van : Object3D :=
  let node name x children :=
    mkObject3D name false Undefined (mkVector3 x 0 0) (mkVector3 0 x 0)
      (mkVector3 1 1 1) true false false children in
  node "van" 0%float
    [ node "FL" 1%float [];
      node "axle" 0%float [ node "RR" 4%float []; node "RL" 3%float [] ];
      node "FR" 2%float [] ].

Definition sample_wheel : Object3D :=
  mkObject3D "wheel" true (Buffer (mkBufferGeometry (Some 300) (Some 100)))
    (mkVector3 0 0 0) (mkVector3 0 0 0) (mkVector3 1 1 1) true false false [].

Example attach_four_wheels :
  length (children (attachWheelsToVan (Some sample_wheel) sample_van)) = 7%nat
  /\ (position <$> drop 3 (children (attachWheelsToVan (Some sample_wheel) sample_van)))
     = [mkVector3 1 0 0; mkVector3 4 0 0; mkVector3 3 0 0; mkVector3 2 0 0].
Proof. split; reflexivity. Qed.

(** On the sample van the theorem gives the four mount nodes FL, RR, RL
    and FR, in traversal order, and, from them, seven children after
    attachment: the three of before and one clone per mount node, at
    the mount node's position. *)
Lemma attachWheelsToVan_adds_clones_witness :
  name <$> MountSpec.mount_nodes sample_van = ["FL"; "RR"; "RL"; "FR"]
  /\ length (children sample_van) = 3%nat
  /\ length (children (attachWheelsToVan (Some sample_wheel) sample_van))
     = 7%nat
  /\ (position <$>
        drop 3 (children (attachWheelsToVan (Some sample_wheel) sample_van)))
     = [mkVector3 1 0 0; mkVector3 4 0 0; mkVector3 3 0 0; mkVector3 2 0 0].
Proof.
  destruct (attachWheelsToVan_adds_clones sample_van)
    as (_ & _ & _ & Hattached).
  destruct (Hattached sample_wheel) as (Hchildren & Hcount & _ & _).
  split; [reflexivity|]. split; [reflexivity|].
  split; [exact (Hcount 4%nat eq_refl)|].
  rewrite Hchildren. reflexivity.
Defined.

(** A van without mount nodes keeps its children, with or without a
    wheel model. *)
Example attach_no_mount :
  MountSpec.mount_nodes sample_wheel = []
  /\ attachWheelsToVan (Some sample_wheel) sample_wheel = sample_wheel
  /\ attachWheelsToVan None sample_van = sample_van.
Proof. repeat split. Qed.

End Attachment.

(** ** Availability prober *)

Section Prober.
Import VanManager.

(** The indices whose check found the file: the response was there and
    its status was 2xx. *)
Definition survivors (net : string -> FetchOutcome) : list nat :=
  filter (fun i => net (vanPath i) = Response true) (seq 1 checkCount).

(** A check that failed, read as a response that is not [ok]. *)
Definition as_not_found (outcome : FetchOutcome) : FetchOutcome :=
  match outcome with
  | NetworkError => Response false
  | Response ok => Response ok
  end.

(** Ascending by index. *)
Definition ascending (l : list VanConfig) : Prop :=
  StronglySorted
    (fun a b => exists i j, number a = Some i /\ number b = Some j /\ (i < j)%nat)
    l.

Lemma check_as_not_found (i : nat) (outcome : FetchOutcome) :
  check i (as_not_found outcome) = check i outcome.
Proof. by destruct outcome. Qed.

Lemma check_Some (i : nat) (outcome : FetchOutcome) :
  check i outcome
  = if decide (outcome = Response true) then Some (candidate i) else None.
Proof. destruct outcome as [[]|]; by case_decide. Qed.

(** The [forEach] that keeps the results that are not [null]. *)
Lemma push_results (net : string -> FetchOutcome) (l : list nat) :
  forall detectedVans,
    fold_left (fun detectedVans result =>
                 match result with
                 | Some result => (detectedVans ++ [result])%list
                 | None => detectedVans
                 end)
      (map (fun i => check i (net (vanPath i))) l) detectedVans
    = (detectedVans
         ++ (candidate <$> filter (fun i => net (vanPath i) = Response true) l))%list.
Proof.
  induction l as [|i l IH]; intros detectedVans; cbn [map fold_left].
  - by rewrite app_nil_r.
  - rewrite IH, check_Some, filter_cons. case_decide; [|done].
    by rewrite <- app_assoc.
Qed.

Lemma seq_StronglySorted (a n : nat) : StronglySorted lt (seq a n).
Proof.
  revert a. induction n as [|n IH]; intros a; cbn [seq]; constructor.
  - apply IH.
  - apply Forall_forall. intros j Hj%elem_of_seq. lia.
Qed.

Lemma filter_StronglySorted {A} (R : relation A) (P : A -> Prop)
    `{forall x, Decision (P x)} (l : list A) :
  StronglySorted R l -> StronglySorted R (filter P l).
Proof.
  induction 1 as [|x l Hl IH Hx]; [constructor|].
  rewrite filter_cons. case_decide; [|done].
  constructor; [done|].
  apply Forall_forall. intros y [_ Hy]%list_elem_of_filter.
  by eapply Forall_forall in Hx.
Qed.

Lemma candidates_ascending (l : list nat) :
  StronglySorted lt l -> ascending (candidate <$> l).
Proof.
  induction 1 as [|i l Hl IH Hi]; [constructor|].
  cbn [fmap list_fmap]. constructor; [exact IH|].
  apply Forall_fmap, (Forall_impl _ _ _ Hi). intros j Hij.
  exists i, j. by repeat split.
Qed.

(** [sort] leaves an array alone that is in ascending order already. *)
Lemma sort_ascending (l : list VanConfig) :
  ascending l -> sort by_number l = l.
Proof.
  induction 1 as [|a l Hl IH Ha]; [reflexivity|].
  cbn [sort foldr]. fold (sort by_number l). rewrite IH.
  destruct Ha as [|b l' (i & j & Hi & Hj & Hij) _]; [reflexivity|].
  cbn [insert]. unfold by_number. rewrite Hi, Hj. simpl default.
  case_match eqn:Hle; [reflexivity|].
  apply Z.leb_gt in Hle. lia.
Qed.

(** [sort] permutes its argument and orders it by the comparator. *)
Lemma insert_Permutation (a : VanConfig) (l : list VanConfig) :
  insert by_number a l ≡ₚ a :: l.
Proof.
  induction l as [|b l IH]; [reflexivity|]. cbn [insert].
  case_match; [reflexivity|]. by rewrite IH, Permutation_swap.
Qed.

Lemma sort_Permutation (l : list VanConfig) : sort by_number l ≡ₚ l.
Proof.
  induction l as [|a l IH]; [reflexivity|].
  cbn [sort foldr]. fold (sort by_number l).
  by rewrite insert_Permutation, IH.
Qed.

Lemma insert_Sorted (a : VanConfig) (l : list VanConfig) :
  Sorted (fun a b => (by_number a b <= 0)%Z) l ->
  Sorted (fun a b => (by_number a b <= 0)%Z) (insert by_number a l).
Proof.
  induction 1 as [|b l Hl IH Hb]; cbn [insert]; [repeat constructor|].
  case_match eqn:Hle.
  - apply Z.leb_le in Hle. repeat constructor; done.
  - apply Z.leb_gt in Hle. constructor; [exact IH|].
    destruct Hb as [|c l Hbc]; cbn [insert].
    + constructor. unfold by_number in *. lia.
    + case_match; constructor; [unfold by_number in *; lia | done].
Qed.

Lemma sort_Sorted (l : list VanConfig) :
  Sorted (fun a b => (by_number a b <= 0)%Z) (sort by_number l).
Proof.
  induction l as [|a l IH]; [constructor|].
  cbn [sort foldr]. by apply insert_Sorted.
Qed.

End Prober.

Section ProberProperties.
Import VanManager.

Lemma set_requests_id (s : State) : set_requests (requests s) s = s.
Proof. by destruct s. Qed.

(** A loop that only issues requests appends them to the log and leaves
    the rest of the state alone. *)
Lemma issue_all {A} (f : A -> Request) (l : list A) :
  forall s,
    fold_left (fun s a => request (f a) s) l s
    = set_requests (requests s ++ (f <$> l)) s.
Proof.
  induction l as [|a l IH]; intros s; cbn [fold_left fmap list_fmap].
  - by rewrite app_nil_r, set_requests_id.
  - rewrite IH. unfold request, set_requests. cbn. by rewrite <- app_assoc.
Qed.

Lemma detectAvailableVans_resume_eq (net : string -> FetchOutcome) (s : State) :
  detectAvailableVans_resume net s
  = (Ok (candidate <$> survivors net),
     set_vansDetected true (set_availableVans (candidate <$> survivors net) s)).
Proof.
  unfold detectAvailableVans_resume.
  rewrite push_results, app_nil_l.
  fold (survivors net).
  rewrite sort_ascending; [reflexivity|].
  apply candidates_ascending, filter_StronglySorted, seq_StronglySorted.
Qed.

(** The first call of [detectAvailableVans], run until it returns, when
    no other event comes in between: [net] settles its checks. *)
Definition detect_to_completion (net : string -> FetchOutcome)
    : M (list VanConfig) :=
  fun s =>
    match detectAvailableVans s with
    | (Ok (Return availableVans), s) => (Ok availableVans, s)
    | (Ok (Await _), s) => detectAvailableVans_resume net s
    | (Throw e, s) => (Throw e, s)
    end.

(** C6: a probe that has not run yet issues one existence check for
    every index from 1 to the ceiling, on the path of the zero-padded
    file name, all of them before it awaits any outcome.  Whatever the
    checks settle with, it returns: the candidates of the indices whose
    check found the file, in ascending order of index; a check that
    failed counts as one that did not find the file. *)
Theorem detectAvailableVans_probes (net : string -> FetchOutcome) (s : State) :
  vansDetected s = false ->
  exists s1,
    detectAvailableVans s = (Ok (Await DetectTask), s1)
    /\ requests s1
       = (requests s
            ++ ((fun i => HEAD ("models/vans/" +:+ CONFIG.getFilename i))
                  <$> seq 1 checkCount))%list
    /\ forall s2,
         (detectAvailableVans_resume net s2).1
         = Ok (candidate <$> survivors net)
         /\ ascending (candidate <$> survivors net)
         /\ (detectAvailableVans_resume (fun path => as_not_found (net path)) s2).1
            = (detectAvailableVans_resume net s2).1
         /\ requests (detectAvailableVans_resume net s2).2 = requests s2.
Proof.
  intros Hnot. unfold detectAvailableVans, bind, gets, modify, ret.
  rewrite Hnot. eexists. split; [reflexivity|].
  split; [by rewrite issue_all|].
  intros s2.
  assert (Hsame : detectAvailableVans_resume (fun path => as_not_found (net path)) s2
                  = detectAvailableVans_resume net s2).
  { unfold detectAvailableVans_resume.
    replace (map (fun i => check i (as_not_found (net (vanPath i)))) (seq 1 checkCount))
      with (map (fun i => check i (net (vanPath i))) (seq 1 checkCount)); [reflexivity|].
    apply map_ext. intros i. symmetry. apply check_as_not_found. }
  rewrite Hsame, detectAvailableVans_resume_eq.
  repeat split.
  apply candidates_ascending, filter_StronglySorted, seq_StronglySorted.
Qed.

(** A server that has vans 1 and 3, fails on 2 and answers 404 to the
    rest. *)
Definition sample_net (path : string) : FetchOutcome :=
  if String.eqb path "models/vans/van-001.glb" then Response true
  else if String.eqb path "models/vans/van-002.glb" then NetworkError
  else if String.eqb path "models/vans/van-003.glb" then Response true
  else Response false.

Lemma detectAvailableVans_probes_witness :
  exists s1,
    detectAvailableVans VanManager.new = (Ok (Await DetectTask), s1)
    /\ length (requests s1) = 100%nat
    /\ (detectAvailableVans_resume sample_net s1).1
       = Ok [candidate 1; candidate 3].
Proof.
  destruct (detectAvailableVans_probes sample_net VanManager.new eq_refl)
    as (s1 & Hcall & Hreq & Hres).
  exists s1. split; [exact Hcall|]. split.
  - rewrite Hreq. reflexivity.
  - destruct (Hres s1) as (-> & _). vm_compute. reflexivity.
Defined.

(** Once [vansDetected] is set, a call returns the memoized list and
    leaves the state alone. *)
Lemma detectAvailableVans_detected (s : State) :
  vansDetected s = true ->
  detectAvailableVans s = (Ok (Return (availableVans s)), s).
Proof.
  intros Hdet. unfold detectAvailableVans, bind, gets. by rewrite Hdet.
Qed.

Lemma detect_to_completion_detected (net : string -> FetchOutcome) (s : State) :
  vansDetected s = true ->
  detect_to_completion net s = (Ok (availableVans s), s).
Proof.
  intros Hdet. unfold detect_to_completion.
  by rewrite detectAvailableVans_detected.
Qed.

(** A completed call leaves [vansDetected] set and its result in
    [availableVans]. *)
Lemma detect_to_completion_memoizes (net : string -> FetchOutcome) (s : State) :
  exists result s1,
    detect_to_completion net s = (Ok result, s1)
    /\ vansDetected s1 = true
    /\ availableVans s1 = result.
Proof.
  destruct (vansDetected s) eqn:Hdet.
  - exists (availableVans s), s. by rewrite detect_to_completion_detected.
  - unfold detect_to_completion, detectAvailableVans, bind, gets, modify, ret.
    rewrite Hdet, detectAvailableVans_resume_eq.
    eexists _, _. split; [reflexivity|]. split; reflexivity.
Qed.

(** C4: after a first call of [detectAvailableVans] has completed, a
    second call returns at once, with the same list in the same order,
    and leaves the state as it found it: the log of requests has not
    grown, so no existence check was issued. *)
Theorem detectAvailableVans_twice (net1 net2 : string -> FetchOutcome)
    (s : State) :
  exists result s1,
    detect_to_completion net1 s = (Ok result, s1)
    /\ detectAvailableVans s1 = (Ok (Return result), s1)
    /\ detect_to_completion net2 s1 = (Ok result, s1)
    /\ requests (detect_to_completion net2 s1).2 = requests s1.
Proof.
  destruct (detect_to_completion_memoizes net1 s)
    as (result & s1 & Hfirst & Hdet & Hres).
  exists result, s1. split; [exact Hfirst|].
  rewrite detect_to_completion_detected, detectAvailableVans_detected, Hres
    by exact Hdet.
  by repeat split.
Qed.

Example detect_twice_sample :
  let s1 := (detect_to_completion sample_net VanManager.new).2 in
  length (requests s1) = 100%nat
  /\ (detect_to_completion (fun _ => Response true) s1).1
     = Ok [candidate 1; candidate 3]
  /\ length (requests (detect_to_completion (fun _ => Response true) s1).2)
     = 100%nat.
Proof. compute_conj. Qed.

End ProberProperties.

(** ** Listing the available vans *)

Section Listing.
Import VanManager.

(** The manager after a probe that found no van: every check was
    answered 404. *)
Definition probed_nothing : State :=
  (detect_to_completion (fun _ => Response false) VanManager.new).2.

(** C7, as the specification states it, fails: probing has completed,
    its memoized result is the empty list, and [getAvailableVans]
    returns the static list instead. *)
Lemma getAvailableVans_after_empty_probe :
  vansDetected probed_nothing = true
  /\ availableVans probed_nothing = []
  /\ (getAvailableVans probed_nothing).1 = Ok CONFIG.list
  /\ (getAvailableVans probed_nothing).1 <> Ok (availableVans probed_nothing).
Proof.
  assert (Hdet : vansDetected probed_nothing = true) by (vm_compute; reflexivity).
  assert (Hav : availableVans probed_nothing = []) by (vm_compute; reflexivity).
  split; [exact Hdet|]. split; [exact Hav|].
  assert (Hget : (getAvailableVans probed_nothing).1 = Ok CONFIG.list).
  { unfold getAvailableVans, bind, gets, ret. by rewrite Hdet, Hav. }
  split; [exact Hget|]. rewrite Hget, Hav. discriminate.
Qed.

(** [getAvailableVans] only reads. *)
Lemma getAvailableVans_state (s : State) : (getAvailableVans s).2 = s.
Proof.
  unfold getAvailableVans, bind, gets, ret.
  by destruct (vansDetected s && (0 <? length (availableVans s))%nat).
Qed.

(** C7, amended: [getAvailableVans] returns the prober's memoized
    result when probing has completed and found at least one van, and
    the statically declared list otherwise (probing not completed, or
    completed with nothing found); it leaves the state as it is, so it
    starts no probe and issues no existence check. *)
Theorem getAvailableVans_listing (s : State) :
  (vansDetected s = true -> availableVans s <> [] ->
     (getAvailableVans s).1 = Ok (availableVans s))
  /\ (vansDetected s = false \/ availableVans s = [] ->
        (getAvailableVans s).1 = Ok CONFIG.list)
  /\ (getAvailableVans s).2 = s
  /\ requests (getAvailableVans s).2 = requests s.
Proof.
  unfold getAvailableVans, bind, gets, ret.
  destruct (vansDetected s), (availableVans s) as [|v l];
    cbn [andb length Nat.ltb Nat.leb fst snd];
    (split; [|split; [|split]]); try reflexivity; try congruence;
    intros [|]; congruence.
Qed.

Example getAvailableVans_before_probe :
  (getAvailableVans VanManager.new).1 = Ok CONFIG.list.
Proof. reflexivity. Qed.

Example getAvailableVans_after_probe :
  (getAvailableVans (detect_to_completion sample_net VanManager.new).2).1
  = Ok [candidate 1; candidate 3].
Proof. vm_compute. reflexivity. Qed.

End Listing.

(** ** Batch loading *)

Section Batch.
Import Promise ModelLoader.

(** The error of the rejection that comes first in time. *)
Fixpoint first_rejection {A} (schedule : list (Settlement A)) : option Error :=
  match schedule with
  | [] => None
  | Reject _ e :: _ => Some e
  | Fulfil _ _ :: schedule => first_rejection schedule
  end.

Lemma first_rejection_elem_of {A} (schedule : list (Settlement A)) (e : Error) :
  first_rejection schedule = Some e -> exists i, Reject i e ∈ schedule.
Proof.
  induction schedule as [|[j v|j e'] schedule IH]; cbn; [done| |].
  - intros [i Hi]%IH. exists i. by right.
  - intros [= ->]. exists j. by left.
Qed.

Lemma first_rejection_is_Some {A} (schedule : list (Settlement A)) i e :
  Reject i e ∈ schedule -> is_Some (first_rejection schedule).
Proof.
  induction schedule as [|[j v|j e'] schedule IH]; cbn.
  - by intros ?%elem_of_nil.
  - intros [?|?]%elem_of_cons; [done|by apply IH].
  - by eexists.
Qed.

Lemma complete_None {A} (values : list (option A)) (j : nat) :
  values !! j = Some None -> complete values = None.
Proof.
  intros Hj. unfold complete.
  destruct (mapM (fun v => v) values) as [vs|] eqn:Hm; [|done].
  apply mapM_Some in Hm.
  destruct (Forall2_lookup_l _ _ _ _ _ Hm Hj) as (v & _ & ?). done.
Qed.

Lemma all_step_Rejected {A} (schedule : list (Settlement A)) (e : Error) :
  fold_left all_step schedule (Rejected e) = Rejected e.
Proof. induction schedule as [|ev schedule IH]; [done|exact IH]. Qed.

(** While every input that is still to settle is pending, the aggregate
    rejects with the first rejection. *)
Lemma all_rejects {A} (schedule : list (Settlement A)) (e : Error) :
  forall values,
    NoDup (input <$> schedule) ->
    Forall (fun ev => values !! input ev = Some None) schedule ->
    first_rejection schedule = Some e ->
    fold_left all_step schedule (Pending values) = Rejected e.
Proof.
  induction schedule as [|[k v|k e'] schedule IH];
    intros values Hdup Hpending Hfirst; [done| |].
  - apply NoDup_cons in Hdup as [Hk Hdup].
    apply Forall_cons in Hpending as [Hv Hpending].
    cbn in Hv, Hfirst. cbn [fold_left all_step input]. rewrite Hv.
    assert (Hrest : Forall (fun ev => <[k:=Some v]> values !! input ev = Some None)
                      schedule).
    { apply Forall_forall. intros ev Hev.
      rewrite list_lookup_insert_ne.
      - by eapply Forall_forall in Hpending.
      - intros ->. apply Hk, list_elem_of_fmap. by exists ev. }
    destruct (first_rejection_elem_of _ _ Hfirst) as [j Hj].
    eapply Forall_forall in Hrest as Hlookup; [|exact Hj].
    rewrite (complete_None _ _ Hlookup). by apply IH.
  - apply Forall_cons in Hpending as [Hv _].
    cbn in Hv, Hfirst. injection Hfirst as ->.
    cbn [fold_left all_step input]. rewrite Hv. apply all_step_Rejected.
Qed.

(** C10: [loadModels] starts the load of every configuration before it
    awaits any of them.  When one of the loads rejects, [loadModels]
    throws, whatever the other loads do and in whatever order they
    settle: the error is that of the rejection that came first, which is
    the error of the failed load when no other load failed; it returns
    no array. *)
Theorem loadModels_all_or_nothing (modelConfigs : list ModelConfig)
    (schedule : list (Settlement ModelData)) (i : nat) (e : Error) (s : State) :
  NoDup (input <$> schedule) ->
  Forall (fun ev => (input ev < length modelConfigs)%nat) schedule ->
  Reject i e ∈ schedule ->
  (exists s1,
      loadModels modelConfigs s
      = (Ok (Await (LoadModelsTask (length modelConfigs))), s1)
      /\ requests s1
         = (requests s
              ++ ((fun config => GET (path config) (options config))
                    <$> modelConfigs))%list)
  /\ exists error,
       loadModels_resume (length modelConfigs) schedule = Some (Throw error)
       /\ first_rejection schedule = Some error
       /\ ((forall j e', Reject j e' ∈ schedule -> e' = e) -> error = e)
       /\ (forall values,
             loadModels_resume (length modelConfigs) schedule <> Some (Ok values)).
Proof.
  intros Hdup Hrange Hi. split.
  { unfold loadModels, bind, modify, ret. eexists. split; [reflexivity|].
    by rewrite issue_all. }
  destruct (first_rejection_is_Some _ _ _ Hi) as [error Hfirst].
  exists error.
  assert (Hall : all (length modelConfigs) schedule = Rejected error).
  { unfold all, all_start.
    destruct (length modelConfigs) as [|n] eqn:Hn.
    - eapply Forall_forall in Hrange; [|exact Hi]. lia.
    - apply all_rejects; [exact Hdup| |exact Hfirst].
      eapply Forall_impl; [exact Hrange|]. intros ev Hev. cbn beta in Hev.
      by apply lookup_replicate_2. }
  unfold loadModels_resume. rewrite Hall.
  split; [reflexivity|]. split; [exact Hfirst|]. split; [|done].
  intros Honly. destruct (first_rejection_elem_of _ _ Hfirst) as [j Hj].
  by apply (Honly j).
Qed.

Definition sample_data (name : string) : ModelData :=
  mkModelData
    (THREE.mkObject3D name false THREE.Undefined (mkVector3 0 0 0) (mkVector3 0 0 0)
       (mkVector3 1 1 1) true false false [])
    [] 0.

Definition sample_configs : list ModelConfig :=
  let options := mkLoadOptions 1 (mkVector3 0 0 0) (mkVector3 0 0 0) in
  [ mkModelConfig "a.glb" options; mkModelConfig "b.glb" options;
    mkModelConfig "c.glb" options ].

(** Three loads: the third resolves first, then the first rejects, then
    the second resolves. *)
Definition sample_schedule : list (Settlement ModelData) :=
  [ Fulfil 2 (sample_data "c"); Reject 0 (LoaderError "404");
    Fulfil 1 (sample_data "b") ].

Lemma loadModels_all_or_nothing_witness :
  loadModels_resume 3 sample_schedule = Some (Throw (LoaderError "404")).
Proof.
  destruct (loadModels_all_or_nothing sample_configs sample_schedule 0
              (LoaderError "404") VanManager.new)
    as (_ & error & Hres & Hfirst & _).
  - apply (bool_decide_unpack _). vm_compute. exact I.
  - repeat constructor.
  - right. left.
  - cbn in Hfirst. injection Hfirst as <-. exact Hres.
Defined.

(** When every load resolves, the array holds the values in the order of
    the configurations, whatever the order of settlement; before that,
    [loadModels] is still waiting. *)
Example loadModels_all_resolved :
  loadModels_resume 3
    [ Fulfil 2 (sample_data "c"); Fulfil 0 (sample_data "a");
      Fulfil 1 (sample_data "b") ]
  = Some (Ok [sample_data "a"; sample_data "b"; sample_data "c"])
  /\ loadModels_resume 3 [ Fulfil 2 (sample_data "c"); Fulfil 0 (sample_data "a") ]
     = None.
Proof. split; reflexivity. Qed.

End Batch.

(** ** The switchboard *)

Section Switchboard.
Import VanManager.
Context {library : Library}.

(** *** What the operations do to the state *)

Lemma visible_at_set_visible_at (s : State) (l l' : loc) (b : bool) :
  visible_at (set_visible_at l b s) l'
  = if decide (l = l') then
      match heap s !! l with Some _ => b | None => false end
    else visible_at s l'.
Proof.
  unfold visible_at, set_visible_at. cbn [heap set_heap].
  rewrite lookup_alter. case_decide as Hl; [subst l'|reflexivity].
  by destruct (heap s !! l).
Qed.

Lemma heap_set_visible_at_is_Some (s : State) (l l' : loc) (b : bool) :
  is_Some (heap (set_visible_at l b s) !! l') <-> is_Some (heap s !! l').
Proof.
  unfold set_visible_at. cbn [heap set_heap]. rewrite lookup_alter.
  case_decide as Hl; [subst l'|reflexivity]. by rewrite fmap_is_Some.
Qed.

(** A cached van is switched to: the current van is hidden, the van
    becomes the current one, enters the scene if it is not there, and is
    shown. *)
Definition switched (truckId : string) (truckModel : loc) (s : State) : State :=
  set_current_visible true
    (add_current_to_scene
       (set_currentVanId (Some truckId)
          (set_currentVan (Some truckModel) (set_current_visible false s)))).

Lemma switchToVan_cached (truckId : string) (truckData : VanEntry) (s : State) :
  vans s !! truckId = Some truckData ->
  switchToVan truckId s = (Ok truckData, switched truckId (model truckData) s).
Proof.
  intros Hvan. unfold switchToVan, bind, gets, modify, ret. by rewrite Hvan.
Qed.

Lemma switchToVan_not_loaded (truckId : string) (s : State) :
  vans s !! truckId = None ->
  switchToVan truckId s = (Throw (VanNotLoaded truckId), s).
Proof.
  intros Hvan. unfold switchToVan, bind, gets, throw. by rewrite Hvan.
Qed.

(** The request that [loadVan] sends for a configuration. *)
Definition load_request (truckConfig : VanConfig) : Request :=
  GET (CONFIG.basePath +:+ filename truckConfig)
    {| opt_scale := or_number (scale truckConfig) CONFIG.defaultScale;
       opt_position := or_object (position truckConfig) CONFIG.defaultPosition;
       opt_rotation :=
         or_object (rotation truckConfig) (mkVector3 0 CONFIG.PI 0) |}.

Lemma loadVan_cached (truckId : string) (truckData : VanEntry) (s : State) :
  vans s !! truckId = Some truckData ->
  loadVan truckId s
  = (Ok (Return (Some truckData)),
     switched truckId (model truckData) (set_current_visible false s)).
Proof.
  intros Hvan. unfold loadVan, bind, gets, modify, ret.
  assert (Hvan' : vans (set_current_visible false s) !! truckId = Some truckData).
  { unfold set_current_visible. by destruct (currentVan s). }
  rewrite Hvan'. by rewrite (switchToVan_cached _ _ _ Hvan').
Qed.

Lemma find_config_set_current_visible (truckId : string) (b : bool) (s : State) :
  find_config truckId (set_current_visible b s) = find_config truckId s.
Proof. unfold set_current_visible. by destruct (currentVan s). Qed.

Lemma vans_set_current_visible (b : bool) (s : State) :
  vans (set_current_visible b s) = vans s.
Proof. unfold set_current_visible. by destruct (currentVan s). Qed.

(** An identifier that is neither cached nor configured: [loadVan]
    throws, after it has hidden the current van. *)
Lemma loadVan_not_found (truckId : string) (s : State) :
  vans s !! truckId = None ->
  find_config truckId s = None ->
  loadVan truckId s
  = (Throw (VanNotFound truckId), set_current_visible false s).
Proof.
  intros Hvan Hcfg. unfold loadVan, bind, gets, modify, throw.
  by rewrite vans_set_current_visible, Hvan, find_config_set_current_visible, Hcfg.
Qed.

(** An identifier that is configured and not cached: [loadVan] hides the
    current van, sends the request and waits. *)
Lemma loadVan_uncached (truckId : string) (truckConfig : VanConfig) (s : State) :
  vans s !! truckId = None ->
  find_config truckId s = Some truckConfig ->
  loadVan truckId s
  = (Ok (Await (LoadVanTask truckId truckConfig)),
     request (load_request truckConfig) (set_current_visible false s)).
Proof.
  intros Hvan Hcfg. unfold loadVan, bind, gets, modify, ret.
  by rewrite vans_set_current_visible, Hvan, find_config_set_current_visible, Hcfg.
Qed.

(** A load that rejects: the current van is shown and the rejection is
    thrown on. *)
Lemma loadVan_resume_rejected (truckId : string) (truckConfig : VanConfig)
    (e : Error) (s : State) :
  loadVan_resume truckId truckConfig (Throw e) s
  = (Throw e, set_current_visible true s).
Proof. reflexivity. Qed.

End Switchboard.

Section Loading.
Import VanManager.
Context {library : Library}.

(** The state once the decoded scene is in the store and the wheels are
    attached to it. *)
Definition decoded (truckData : ModelData) (s : State) : State :=
  let truckModel := fresh (dom (heap s)) in
  attachWheelsToVan truckModel
    (set_heap (<[truckModel := mkInstance (data_model truckData) None]> (heap s)) s).

(** The object that [getModelInfo] measures. *)
Definition with_wheels (truckData : ModelData) (s : State) : THREE.Object3D :=
  Wheels.attachWheelsToVan (wheelModel s) (data_model truckData).

Lemma decoded_lookup (truckData : ModelData) (s : State) :
  heap (decoded truckData s) !! fresh (dom (heap s))
  = Some (mkInstance (with_wheels truckData s) None).
Proof.
  unfold decoded, attachWheelsToVan. cbn [heap set_heap wheelModel].
  by rewrite lookup_alter_eq, lookup_insert_eq.
Qed.

Lemma vans_switched (truckId : string) (l : loc) (s : State) :
  vans (switched truckId l s) = vans s.
Proof.
  unfold switched. rewrite vans_set_current_visible.
  unfold add_current_to_scene. cbn [currentVan set_currentVanId set_currentVan].
  cbn [heap set_currentVanId set_currentVan].
  rewrite <- (vans_set_current_visible false s).
  by repeat case_match.
Qed.

(** A load that resolves, when the metadata can be computed: the entry
    is stored and switched to. *)
Lemma loadVan_resume_resolved (truckId : string) (truckConfig : VanConfig)
    (truckData : ModelData) (info : ModelInfo) (s : State) :
  ModelLoader.getModelInfo (with_wheels truckData s) = Ok info ->
  let truckModel := fresh (dom (heap s)) in
  let entry :=
    {| model := truckModel; config := truckConfig;
       animations := data_animations truckData; info := info |} in
  loadVan_resume truckId truckConfig (Ok truckData) s
  = (Ok (Some entry),
     switched truckId truckModel
       (set_vans (<[truckId := entry]> (vans (decoded truckData s)))
          (decoded truckData s))).
Proof.
  intros Hinfo truckModel entry.
  unfold loadVan_resume, try_catch, bind, settled, new_object, modify, getModelInfo.
  change (attachWheelsToVan (fresh (dom (heap s)))
            (set_heap
               (<[fresh (dom (heap s)) := mkInstance (data_model truckData) None]>
                  (heap s)) s))
    with (decoded truckData s).
  rewrite decoded_lookup. cbn [object]. rewrite Hinfo.
  fold truckModel. fold entry.
  erewrite switchToVan_cached by (cbn [vans set_vans]; apply lookup_insert_eq).
  cbn [model]. unfold gets.
  by rewrite vans_switched; cbn [vans set_vans]; rewrite lookup_insert_eq.
Qed.

(** A load that resolves with a scene whose metadata cannot be computed:
    nothing is stored, the current van is shown and the exception is
    thrown on. *)
Lemma loadVan_resume_no_info (truckId : string) (truckConfig : VanConfig)
    (truckData : ModelData) (e : Error) (s : State) :
  ModelLoader.getModelInfo (with_wheels truckData s) = Throw e ->
  loadVan_resume truckId truckConfig (Ok truckData) s
  = (Throw e, set_current_visible true (decoded truckData s)).
Proof.
  intros Hinfo.
  unfold loadVan_resume, try_catch, bind, settled, new_object, modify, getModelInfo.
  change (attachWheelsToVan (fresh (dom (heap s)))
            (set_heap
               (<[fresh (dom (heap s)) := mkInstance (data_model truckData) None]>
                  (heap s)) s))
    with (decoded truckData s).
  rewrite decoded_lookup. cbn [object]. by rewrite Hinfo.
Qed.

End Loading.

(** ** At most one visible van *)

Section Invariant.
Import VanManager.
Context {library : Library}.

(** The cache is well formed: two entries never share a scene node, and
    the scene node of every entry is in the store. *)
Record cache_ok (s : State) : Prop := {
  cache_inj :
    forall id1 id2 e1 e2,
      vans s !! id1 = Some e1 -> vans s !! id2 = Some e2 ->
      model e1 = model e2 -> id1 = id2;
  cache_alloc :
    forall id e, vans s !! id = Some e -> is_Some (heap s !! model e)
}.

(** Every entry is hidden, those apart whose scene node is in [keep]. *)
Definition others_hidden (keep : list loc) (s : State) : Prop :=
  forall id e,
    vans s !! id = Some e -> model e ∉ keep -> visible_at s (model e) = false.

(** The invariant of the switchboard: no entry is visible but the one
    whose scene node is the current van. *)
Definition Inv (s : State) : Prop :=
  cache_ok s /\ others_hidden (option_list (currentVan s)) s.

Lemma others_hidden_weaken (keep keep' : list loc) (s : State) :
  keep ⊆ keep' -> others_hidden keep s -> others_hidden keep' s.
Proof.
  intros Hsub Hh id e Hid Hne. apply (Hh id e Hid).
  intros Hin. by apply Hne, Hsub.
Qed.

Lemma Inv_at_most_one_visible (s : State) : Inv s -> at_most_one_visible s.
Proof.
  intros [[Hinj _] Hhid]. unfold at_most_one_visible.
  assert (Hone : forall id1 id2 e1 e2,
             visible_entries s !! id1 = Some e1 ->
             visible_entries s !! id2 = Some e2 -> id1 = id2).
  { unfold visible_entries. intros id1 id2 e1 e2.
    intros [H1 V1]%map_lookup_filter_Some [H2 V2]%map_lookup_filter_Some.
    cbn in V1, V2. unfold entry_visible in *.
    assert (Hcur : forall id e, vans s !! id = Some e ->
               visible_at s (model e) = true -> currentVan s = Some (model e)).
    { intros id e Hid Hv. destruct (decide (currentVan s = Some (model e))) as [|Hne];
        [done|].
      rewrite (Hhid id e Hid) in Hv; [done|].
      destruct (currentVan s) as [c|]; cbn [option_list].
      - intros Heq%list_elem_of_singleton. congruence.
      - apply not_elem_of_nil. }
    apply (Hinj id1 id2 e1 e2 H1 H2).
    pose proof (Hcur _ _ H1 V1) as C1. pose proof (Hcur _ _ H2 V2) as C2.
    congruence. }
  induction (visible_entries s) as [|id e m Hm _] using map_ind.
  - rewrite map_size_empty. lia.
  - rewrite map_size_insert_None by done.
    destruct (decide (m = ∅)) as [->|Hne]; [rewrite map_size_empty; lia|].
    apply map_choose in Hne as (id' & e' & Hid').
    assert (id = id').
    { apply (Hone id id' e e'); [apply lookup_insert_eq|].
      rewrite lookup_insert_ne; [done|]. intros ->. congruence. }
    subst. congruence.
Qed.

(** *** Steps that leave the cache and all visibility flags alone *)

Definition same_cache (s s' : State) : Prop :=
  vans s' = vans s
  /\ currentVan s' = currentVan s
  /\ forall l, is_Some (heap s !! l) ->
       is_Some (heap s' !! l) /\ visible_at s' l = visible_at s l.

Lemma same_cache_refl (s : State) : same_cache s s.
Proof. by repeat split. Qed.

Lemma same_cache_trans (s1 s2 s3 : State) :
  same_cache s1 s2 -> same_cache s2 s3 -> same_cache s1 s3.
Proof.
  intros (Hv & Hc & Hh) (Hv' & Hc' & Hh').
  split; [congruence|]. split; [congruence|].
  intros l Hl. destruct (Hh l Hl) as [Hl2 Hvis].
  destruct (Hh' l Hl2) as [Hl3 Hvis']. split; [done|congruence].
Qed.

Lemma Inv_same_cache (s s' : State) : Inv s -> same_cache s s' -> Inv s'.
Proof.
  intros [[Hinj Halloc] Hhid] (Hv & Hc & Hh). split; [split|].
  - rewrite Hv. exact Hinj.
  - rewrite Hv. intros id e Hid. by apply Hh, (Halloc id).
  - rewrite Hc. intros id e Hid Hne. rewrite Hv in Hid.
    destruct (Hh (model e) (Halloc _ _ Hid)) as [_ ->]. by apply (Hhid id).
Qed.

Lemma same_cache_fields (s s' : State) :
  vans s' = vans s -> currentVan s' = currentVan s -> heap s' = heap s ->
  same_cache s s'.
Proof.
  intros Hv Hc Hh. split; [done|]. split; [done|].
  intros l Hl. unfold visible_at. by rewrite Hh.
Qed.

Lemma same_cache_add_current_to_scene (s : State) :
  same_cache s (add_current_to_scene s).
Proof.
  unfold add_current_to_scene.
  destruct (currentVan s) as [l|] eqn:Hc; [|apply same_cache_refl].
  destruct (heap s !! l) as [i|] eqn:Hl; [|apply same_cache_refl].
  destruct (parent i); [apply same_cache_refl|].
  split; [done|]. split; [done|].
  intros l' Hl'. unfold visible_at. cbn [heap set_heap set_scene].
  rewrite lookup_insert. case_decide; [subst l'|done].
  rewrite Hl. by split.
Qed.

Lemma same_cache_attachWheelsToVan (l : loc) (s : State) :
  same_cache s (attachWheelsToVan l s).
Proof.
  split; [done|]. split; [done|].
  intros l' Hl'. unfold visible_at, attachWheelsToVan. cbn [heap set_heap].
  rewrite lookup_alter. case_decide; [subst l'|done].
  destruct (heap s !! l) as [i|]; [|by destruct Hl'].
  cbn. by rewrite attachWheelsToVan_visible.
Qed.

Lemma same_cache_decoded (truckData : ModelData) (s : State) :
  same_cache s (decoded truckData s).
Proof.
  eapply same_cache_trans; [|apply same_cache_attachWheelsToVan].
  split; [done|]. split; [done|].
  intros l Hl. unfold visible_at. cbn [heap set_heap].
  rewrite lookup_insert_ne; [done|].
  intros <-. apply (is_fresh (dom (heap s))). by apply elem_of_dom.
Qed.

(** *** Hiding, showing and switching *)

Lemma Inv_set_current_visible (b : bool) (s : State) :
  Inv s -> Inv (set_current_visible b s).
Proof.
  intros [[Hinj Halloc] Hhid]. unfold set_current_visible.
  destruct (currentVan s) as [l|] eqn:Hc; [|by rewrite <- Hc in Hhid].
  split; [split|].
  - exact Hinj.
  - intros id e Hid. apply heap_set_visible_at_is_Some. by apply (Halloc id).
  - cbn [currentVan set_visible_at set_heap option_list].
    intros id e Hid Hne. rewrite Hc in Hne. rewrite visible_at_set_visible_at.
    case_decide as Hl; [|by apply (Hhid id)].
    exfalso. apply Hne. rewrite Hl. by left.
Qed.

Lemma Inv_switched (truckId : string) (target : loc) (s : State) :
  cache_ok s ->
  others_hidden (target :: option_list (currentVan s)) s ->
  Inv (switched truckId target s).
Proof.
  intros [Hinj Halloc] Hhid. unfold switched.
  apply Inv_set_current_visible.
  eapply Inv_same_cache; [|apply same_cache_add_current_to_scene].
  split; [split|].
  - cbn [vans set_currentVan set_currentVanId].
    rewrite vans_set_current_visible. exact Hinj.
  - cbn [vans heap set_currentVan set_currentVanId].
    rewrite vans_set_current_visible.
    intros id e Hid. specialize (Halloc id e Hid).
    unfold set_current_visible. destruct (currentVan s); [|done].
    by apply heap_set_visible_at_is_Some.
  - cbn [currentVan set_currentVan set_currentVanId option_list].
    intros id e Hid Hne. cbn [vans set_currentVan set_currentVanId] in Hid.
    rewrite vans_set_current_visible in Hid.
    change (visible_at (set_current_visible false s) (model e) = false).
    unfold set_current_visible.
    destruct (currentVan s) as [c|] eqn:Hc.
    + rewrite visible_at_set_visible_at. case_decide; [by case_match|].
      apply (Hhid id e Hid). cbn [option_list].
      intros [Heq|[Heq|[]%elem_of_nil]%elem_of_cons]%elem_of_cons.
      * apply Hne. rewrite Heq. by left.
      * congruence.
    + apply (Hhid id e Hid). cbn [option_list].
      intros [Heq|[]%elem_of_nil]%elem_of_cons.
      apply Hne. rewrite Heq. by left.
Qed.

End Invariant.

Section Preservation.
Import VanManager EventLoop.
Context {library : Library}.

Lemma Inv_new : Inv VanManager.new.
Proof.
  split; [split|]; intros ? *; cbn [vans VanManager.new];
    by rewrite lookup_empty.
Qed.

Lemma Inv_loadVan (truckId : string) (s : State) :
  Inv s -> Inv (loadVan truckId s).2.
Proof.
  intros Hinv.
  pose proof (Inv_set_current_visible false s Hinv) as Hhidden.
  destruct (vans s !! truckId) as [truckData|] eqn:Hvan.
  - rewrite (loadVan_cached _ _ _ Hvan). cbn [snd].
    destruct Hhidden as [Hok Hhid]. apply Inv_switched; [exact Hok|].
    eapply others_hidden_weaken; [|exact Hhid]. intros l Hl. by right.
  - destruct (find_config truckId s) as [truckConfig|] eqn:Hcfg.
    + rewrite (loadVan_uncached _ _ _ Hvan Hcfg). cbn [snd].
      eapply Inv_same_cache; [exact Hhidden|]. by apply same_cache_fields.
    + by rewrite (loadVan_not_found _ _ Hvan Hcfg).
Qed.

Lemma Inv_loadVan_resume (truckId : string) (truckConfig : VanConfig)
    (outcome : Result ModelData) (s : State) :
  Inv s -> Inv (loadVan_resume truckId truckConfig outcome s).2.
Proof.
  intros Hinv. destruct outcome as [truckData|e].
  2:{ rewrite loadVan_resume_rejected. by apply Inv_set_current_visible. }
  pose proof (Inv_same_cache _ _ Hinv (same_cache_decoded truckData s))
    as Hdecoded.
  destruct (ModelLoader.getModelInfo (with_wheels truckData s)) as [info|e]
    eqn:Hinfo.
  2:{ rewrite (loadVan_resume_no_info _ _ _ _ _ Hinfo).
      by apply Inv_set_current_visible. }
  rewrite (loadVan_resume_resolved _ _ _ _ _ Hinfo). cbn [snd].
  destruct Hinv as [[Hinj Halloc] _].
  destruct Hdecoded as [[Hinj' Halloc'] Hhid'].
  assert (Hfresh : forall id e, vans s !! id = Some e ->
                     model e <> fresh (dom (heap s))).
  { intros id e Hid Heq. apply (is_fresh (dom (heap s))).
    rewrite <- Heq. apply elem_of_dom. by apply (Halloc id). }
  assert (Hvans : vans (decoded truckData s) = vans s) by reflexivity.
  apply Inv_switched; [split|].
  - cbn [vans set_vans]. rewrite Hvans. intros id1 id2 e1 e2 H1 H2 Heq.
    rewrite lookup_insert in H1, H2.
    repeat case_decide; simplify_eq; cbn [model] in *; try done.
    + exfalso. by eapply Hfresh.
    + exfalso. by eapply Hfresh.
    + by eapply Hinj.
  - cbn [vans heap set_vans]. rewrite Hvans. intros id e Hid.
    rewrite lookup_insert in Hid. case_decide; simplify_eq.
    + cbn [model]. rewrite decoded_lookup. by eexists.
    + by apply (Halloc' id).
  - cbn [currentVan set_vans]. intros id e Hid Hne.
    cbn [vans set_vans] in Hid. rewrite Hvans, lookup_insert in Hid.
    case_decide; simplify_eq.
    + exfalso. apply Hne. cbn [model]. by left.
    + change (visible_at (decoded truckData s) (model e) = false).
      apply (Hhid' id e); [done|]. intros Hin. apply Hne. by right.
Qed.

Lemma Inv_loadWheelModel_resume (outcome : Result ModelData) (s : State) :
  Inv s -> Inv (loadWheelModel_resume outcome s).2.
Proof.
  intros Hinv. eapply Inv_same_cache; [exact Hinv|].
  by destruct outcome; apply same_cache_fields.
Qed.

Lemma Inv_detectAvailableVans (s : State) :
  Inv s -> Inv (detectAvailableVans s).2.
Proof.
  intros Hinv. destruct (vansDetected s) eqn:Hdet.
  - by rewrite detectAvailableVans_detected.
  - unfold detectAvailableVans, bind, gets, modify, ret. rewrite Hdet.
    cbn [snd]. rewrite issue_all.
    eapply Inv_same_cache; [exact Hinv|]. by apply same_cache_fields.
Qed.

Lemma Inv_detectAvailableVans_resume (net : string -> FetchOutcome) (s : State) :
  Inv s -> Inv (detectAvailableVans_resume net s).2.
Proof.
  intros Hinv. rewrite detectAvailableVans_resume_eq.
  eapply Inv_same_cache; [exact Hinv|]. by apply same_cache_fields.
Qed.

Lemma Inv_step (lp : Loop) (ev : Event) :
  Inv (state lp) -> Inv (state (step lp ev)).
Proof.
  intros Hinv. destruct ev as [truckId| | |k outcome|k net]; cbn [step].
  - unfold call. pose proof (Inv_loadVan truckId _ Hinv) as H.
    destruct (loadVan truckId (state lp)) as [[[?|?]|?] ?]; exact H.
  - unfold call. pose proof (Inv_detectAvailableVans _ Hinv) as H.
    destruct (detectAvailableVans (state lp)) as [[[?|?]|?] ?]; exact H.
  - cbn [state]. by rewrite getAvailableVans_state.
  - destruct (tasks lp !! k) as [[| |truckId truckConfig|]|]; try exact Hinv.
    + by apply Inv_loadWheelModel_resume.
    + by apply Inv_loadVan_resume.
  - destruct (tasks lp !! k) as [[| | |]|]; try exact Hinv.
    by apply Inv_detectAvailableVans_resume.
Qed.

Lemma Inv_run (events : list Event) :
  forall lp, Inv (state lp) -> Inv (state (run lp events)).
Proof.
  induction events as [|ev events IH]; intros lp Hinv; [exact Hinv|].
  cbn [run fold_left]. apply IH. by apply Inv_step.
Qed.

Lemma Inv_start : Inv (state start).
Proof.
  eapply Inv_same_cache; [exact Inv_new|]. by apply same_cache_fields.
Qed.

End Preservation.

(** ** The switchboard's properties *)

Section SwitchboardProperties.
Import VanManager EventLoop.
Context {library : Library}.

(** C1: whatever calls of [loadVan] (and of the prober) the user
    interface makes, and in whatever order the loads they wait for
    resolve or reject, also when a call comes before the load of an
    earlier call has settled, at most one entry of the cache has a visible
    scene node after every event. *)
Theorem at_most_one_visible_always (events : list Event) (n : nat) :
  at_most_one_visible (state (run start (take n events))).
Proof. apply Inv_at_most_one_visible, Inv_run, Inv_start. Qed.

(** Hiding the current van and showing it again leaves a van that was
    visible as it was. *)
Lemma show_after_hide (s : State) (l : loc) (i : Instance) :
  currentVan s = Some l ->
  heap s !! l = Some i ->
  THREE.visible (object i) = true ->
  set_current_visible true (set_current_visible false s) = s.
Proof.
  intros Hc Hl Hv. unfold set_current_visible. rewrite Hc.
  cbn [currentVan set_visible_at set_heap]. rewrite Hc.
  unfold set_visible_at. cbn [heap set_heap].
  rewrite alter_alter_eq.
  rewrite (alter_id _ (heap s) l); [by destruct s|].
  intros i' Hi'. assert (i' = i) as -> by congruence.
  destruct i as [[] ?]. cbn in Hv |- *. by rewrite Hv.
Qed.

(** C3, amended: an identifier that is configured but not cached is
    requested while a van is shown.  [loadVan] hides the van, sends one
    load request and waits.  When the load rejects, the call throws the
    rejection of the load and sends no second request, and what it shows
    before it throws is the van that is current at that time.  With no
    event between the call and the rejection this is the van that was
    shown before: the state in which the call throws is the state before
    the call with the one request added to the log.  Whatever state the
    events in between have led to, the call throws the rejection, leaves
    the log as it is, shows the van that is then the current one, and
    leaves the visibility of every other object as it is. *)
Theorem loadVan_failure_restores (truckId : string) (truckConfig : VanConfig)
    (s : State) (l : loc) (i : Instance) (e : Error) :
  vans s !! truckId = None ->
  find_config truckId s = Some truckConfig ->
  currentVan s = Some l ->
  heap s !! l = Some i ->
  THREE.visible (object i) = true ->
  exists s1,
    loadVan truckId s = (Ok (Await (LoadVanTask truckId truckConfig)), s1)
    /\ visible_at s1 l = false
    /\ requests s1 = (requests s ++ [load_request truckConfig])%list
    /\ loadVan_resume truckId truckConfig (Throw e) s1
       = (Throw e, request (load_request truckConfig) s)
    /\ visible_at (loadVan_resume truckId truckConfig (Throw e) s1).2 l = true
    /\ forall s2,
         (loadVan_resume truckId truckConfig (Throw e) s2).1 = Throw e
         /\ requests (loadVan_resume truckId truckConfig (Throw e) s2).2
            = requests s2
         /\ (forall l2,
               currentVan s2 = Some l2 -> is_Some (heap s2 !! l2) ->
               visible_at (loadVan_resume truckId truckConfig (Throw e) s2).2 l2
               = true)
         /\ (forall l',
               currentVan s2 <> Some l' ->
               visible_at (loadVan_resume truckId truckConfig (Throw e) s2).2 l'
               = visible_at s2 l').
Proof.
  intros Hvan Hcfg Hc Hl Hv.
  rewrite (loadVan_uncached _ _ _ Hvan Hcfg). eexists. split; [reflexivity|].
  assert (Hhidden : visible_at (set_current_visible false s) l = false).
  { unfold set_current_visible. rewrite Hc, visible_at_set_visible_at.
    rewrite decide_True by done. by rewrite Hl. }
  split; [exact Hhidden|].
  split; [unfold set_current_visible; by rewrite Hc|].
  assert (Hback : loadVan_resume truckId truckConfig (Throw e)
                    (request (load_request truckConfig)
                       (set_current_visible false s))
                  = (Throw e, request (load_request truckConfig) s)).
  { rewrite loadVan_resume_rejected. f_equal.
    rewrite <- (show_after_hide s l i Hc Hl Hv) at 2.
    unfold set_current_visible, request. cbn [currentVan set_requests].
    rewrite Hc. by cbn [currentVan set_visible_at set_heap]; rewrite Hc. }
  split; [exact Hback|].
  split; [rewrite Hback; unfold visible_at; cbn; by rewrite Hl, Hv|].
  intros s2. rewrite loadVan_resume_rejected. cbn [fst snd].
  split; [reflexivity|].
  split; [unfold set_current_visible; by destruct (currentVan s2)|].
  split.
  - intros l2 Hc2 [i2 Hl2]. unfold set_current_visible. rewrite Hc2.
    rewrite visible_at_set_visible_at, decide_True by done. by rewrite Hl2.
  - intros l' Hc2. unfold set_current_visible.
    destruct (currentVan s2) as [l2|]; [|reflexivity].
    rewrite visible_at_set_visible_at, decide_False; [reflexivity|].
    intros ->. by apply Hc2.
Qed.

End SwitchboardProperties.

Section SwitchboardSamples.
Import VanManager EventLoop.
#[local] Existing Instance sample_library.

(** Two loads in flight at once: van 1 is requested, then van 3 before
    van 1 has loaded; van 3 resolves first, van 1 after it.  Van 1, the
    last to resolve, is the one shown. *)
Definition racing : list Event :=
  [ CallDetect; SettleChecks 1 sample_net;
    CallLoadVan "van-001"; CallLoadVan "van-003";
    Settle 2 (Ok (sample_data "van-003"));
    Settle 1 (Ok (sample_data "van-001")) ].

Example racing_loads :
  dom (vans (state (run start racing))) = {["van-001"; "van-003"]}
  /\ dom (visible_entries (state (run start racing))) = {["van-001"]}
  /\ currentVanId (state (run start racing)) = Some "van-001".
Proof. compute_conj. Qed.

(** The manager that shows van 1: van 1 was requested and its load
    resolved. *)
Definition showing_van_001 : State :=
  state (run start
           [ CallLoadVan "van-001"; Settle 1 (Ok (sample_data "van-001")) ]).

(** C2 fails on the code: van 1 is shown and an identifier that no list
    knows is requested.  [loadVan] throws the not-found error, but it has
    hidden van 1 before, and nothing shows it again: no van is visible
    after the call. *)
Theorem loadVan_not_found_hides_current :
  currentVan showing_van_001 = Some 0%nat
  /\ dom (visible_entries showing_van_001) = {["van-001"]}
  /\ vans showing_van_001 !! "van-999" = None
  /\ find_config "van-999" showing_van_001 = None
  /\ (loadVan "van-999" showing_van_001).1 = Throw (VanNotFound "van-999")
  /\ visible_at showing_van_001 0 = true
  /\ visible_at (loadVan "van-999" showing_van_001).2 0 = false
  /\ visible_entries (loadVan "van-999" showing_van_001).2 = ∅.
Proof. compute_conj. Qed.

(** Every file of the folder is there. *)
Definition all_present (path : string) : FetchOutcome := Response true.

(** Van 1 is shown and the prober has found every van. *)
Definition showing_van_001_of_all : Loop :=
  run start
    [ CallDetect; SettleChecks 1 all_present;
      CallLoadVan "van-001"; Settle 1 (Ok (sample_data "van-001")) ].

(** Van 2 is requested, then van 3 before the load of van 2 has settled,
    and the load of van 3 resolves: van 3 is shown, the call for van 2
    still waits. *)
Definition overtaken : Loop :=
  run showing_van_001_of_all
    [ CallLoadVan "van-002"; CallLoadVan "van-003";
      Settle 2 (Ok (sample_data "van-003")) ].

(** C3, as the specification states it, fails: van 1 is the visible
    entry when van 2, which is configured and not cached, is requested;
    the call hides van 1 and waits.  Van 3 is requested and loaded in the
    meantime.  When the load of van 2 then fails, the call throws the
    error of the load, but the van it has shown before is van 3, the
    current one: van 1, the entry that was visible before the call, is
    still hidden when the error reaches the caller. *)
Lemma loadVan_failure_leaves_previous_hidden :
  dom (visible_entries (state showing_van_001_of_all)) = {["van-001"]}
  /\ model <$> vans (state showing_van_001_of_all) !! "van-001" = Some 0%nat
  /\ vans (state showing_van_001_of_all) !! "van-002" = None
  /\ (loadVan "van-002" (state showing_van_001_of_all)).1
     = Ok (Await (LoadVanTask "van-002" (candidate 2)))
  /\ visible_at (loadVan "van-002" (state showing_van_001_of_all)).2 0 = false
  /\ tasks overtaken !! 1%nat = Some (LoadVanTask "van-002" (candidate 2))
  /\ (loadVan_resume "van-002" (candidate 2) (Throw (LoaderError "404"))
        (state overtaken)).1
     = Throw (LoaderError "404")
  /\ visible_at
       (loadVan_resume "van-002" (candidate 2) (Throw (LoaderError "404"))
          (state overtaken)).2 0
     = false
  /\ dom (visible_entries
            (loadVan_resume "van-002" (candidate 2) (Throw (LoaderError "404"))
               (state overtaken)).2)
     = {["van-003"]}
  /\ visible_at (state (run overtaken [Settle 1 (Throw (LoaderError "404"))])) 0
     = false.
Proof. compute_conj. Qed.

(** Van 1 is shown, the prober has found vans 1 and 3, van 3 is
    requested and its load fails. *)
Definition showing_van_001_probed : State :=
  state (run start
           [ CallDetect; SettleChecks 1 sample_net;
             CallLoadVan "van-001"; Settle 1 (Ok (sample_data "van-001")) ]).

Lemma loadVan_failure_restores_witness :
  exists s1,
    loadVan "van-003" showing_van_001_probed
    = (Ok (Await (LoadVanTask "van-003" (candidate 3))), s1)
    /\ visible_at s1 0 = false
    /\ loadVan_resume "van-003" (candidate 3) (Throw (LoaderError "404")) s1
       = (Throw (LoaderError "404"),
          request (load_request (candidate 3)) showing_van_001_probed)
    /\ visible_at
         (loadVan_resume "van-003" (candidate 3) (Throw (LoaderError "404")) s1).2
         0 = true.
Proof.
  assert (Hl : exists i, heap showing_van_001_probed !! 0%nat = Some i
                         /\ THREE.visible (object i) = true).
  { eexists. split; vm_compute; reflexivity. }
  destruct Hl as (i & Hl & Hv).
  destruct (loadVan_failure_restores "van-003" (candidate 3)
              showing_van_001_probed 0%nat i (LoaderError "404"))
    as (s1 & Hcall & Hhidden & _ & Hback & Hshown & _);
    [vm_compute; reflexivity | vm_compute; reflexivity
    | vm_compute; reflexivity | exact Hl | exact Hv |].
  exists s1. by repeat split.
Defined.

End SwitchboardSamples.

(** * The rest of the pipeline

    The functions of [ModelLoader.js], [VanManager.js] and their callers
    that the properties above do not reach. *)

(** ** [ModelLoader.loadModel] *)

Module Loader.
Import THREE.

(** The [options] argument of [loadModel]: every field may be missing. *)
Record Options := mkOptions {
  scale : option float;
  position : option Vector3;
  rotation : option Vector3
}.

(** The options that [loadVan] and [loadModels] pass have every field. *)
Definition of_load_options (o : LoadOptions) : Options :=
  mkOptions (Some (opt_scale o)) (Some (opt_position o)) (Some (opt_rotation o)).

(** [v || 0] on a number. *)
Definition or_zero (v : float) : float := if JS.truthy v then v else 0%float.

Definition or_zero3 (v : Vector3) : Vector3 :=
  mkVector3 (or_zero (x v)) (or_zero (y v)) (or_zero (z v)).

(** [if (options.scale) model.scale.set(scale, scale, scale)] *)
Definition apply_scale (options : Options) (model : Object3D) : Object3D :=
  match scale options with
  | Some scale =>
      if JS.truthy scale then
        copy_transform model (THREE.position model) (THREE.rotation model)
          (mkVector3 scale scale scale)
      else model
  | None => model
  end.

(** [if (options.position) model.position.set(x || 0, y || 0, z || 0)] *)
Definition apply_position (options : Options) (model : Object3D) : Object3D :=
  match position options with
  | Some position =>
      copy_transform model (or_zero3 position) (THREE.rotation model)
        (THREE.scale model)
  | None => model
  end.

(** [if (options.rotation) model.rotation.set(x || 0, y || 0, z || 0)] *)
Definition apply_rotation (options : Options) (model : Object3D) : Object3D :=
  match rotation options with
  | Some rotation =>
      copy_transform model (THREE.position model) (or_zero3 rotation)
        (THREE.scale model)
  | None => model
  end.

(** The callback of [model.traverse] in [loadModel], on the visited
    object: [if (child.isMesh) { child.castShadow = true;
    child.receiveShadow = true; }]. *)
Definition enable_shadow (child : Object3D) : Object3D :=
  if isMesh child then
    mkObject3D (name child) (isMesh child) (geometry child)
      (THREE.position child) (THREE.rotation child) (THREE.scale child)
      (visible child) true true (children child)
  else child.

(** [model.traverse] with that callback: the callback writes fields of the
    visited object only, so the traversal rebuilds the graph node by node. *)
Fixpoint enable_shadows (object : Object3D) : Object3D :=
  let object' := enable_shadow object in
  mkObject3D (name object') (isMesh object') (geometry object')
    (THREE.position object') (THREE.rotation object') (THREE.scale object')
    (visible object') (castShadow object') (receiveShadow object')
    (map enable_shadows (children object)).

(** What the decoder hands to the success callback: [gltf.scene] and
    [gltf.animations]. *)
Record GLTF := mkGLTF {
  gltf_scene : Object3D;
  gltf_animations : list string
}.

(** The success callback of [gltfLoader.load], up to [resolve]. *)
Definition onLoad (options : Options) (fileSize : float) (gltf : GLTF)
    : ModelData :=
  let model := gltf_scene gltf in
  let model := apply_scale options model in
  let model := apply_position options model in
  let model := apply_rotation options model in
  let model := enable_shadows model in
  mkModelData model (gltf_animations gltf) fileSize.

(** The argument of the progress callback. *)
Record ProgressEvent := mkProgressEvent {
  lengthComputable : bool;
  loaded : float;
  total : float
}.

(** The variables that the progress callback writes: [fileSize], and the
    calls of [this.onProgress] made so far. *)
Record Progress := mkProgress {
  size : float;
  reported : list (float * string)
}.

(** The progress callback; [onProgress] tells whether the loader was built
    with a callback. *)
Definition on_progress (onProgress : bool) (path : string)
    (st : Progress) (xhr : ProgressEvent) : Progress :=
  if lengthComputable xhr then
    let percentComplete := (loaded xhr / total xhr * 100)%float in
    mkProgress (total xhr)
      (if onProgress then (reported st ++ [(percentComplete, path)])%list
       else reported st)
  else st.

(** [loadModel(path, options)] once the decoder is done: the progress
    events it has sent, then its success or its error. *)
Definition loadModel (onProgress : bool) (path : string) (options : Options)
    (events : list ProgressEvent) (outcome : Result GLTF)
    : Result ModelData * list (float * string) :=
  let st := fold_left (on_progress onProgress path) events (mkProgress 0 []) in
  match outcome with
  | Ok gltf => (Ok (onLoad options (size st) gltf), reported st)
  | Throw error => (Throw error, reported st)
  end.

End Loader.

(** ** Metadata: errors and the second counter *)

Section MetadataMore.
Import THREE ModelLoader MetadataSpec.
Context {library : Library}.






(** A mesh without a position attribute deep in the graph, behind meshes
    that have one. *)
Example getModelInfo_throws_deep :
  let node name isMesh geometry children :=
    mkObject3D name isMesh geometry (mkVector3 0 0 0) (mkVector3 0 0 0)
      (mkVector3 1 1 1) true false false children in
  getModelInfo
    (node "root" false Undefined
       [ node "body" true (Buffer (mkBufferGeometry (Some 300) (Some 120))) [];
         node "group" false Undefined
           [ node "glass" true (Buffer (mkBufferGeometry (Some 30) None)) [] ] ])
  = Throw TypeError.
Proof. reflexivity. Qed.

(** X2: on a graph whose mesh geometries carry a position attribute,
    [getModelInfo] throws only what the bounding box of the library
    throws, and when it returns, [vertexCount] is the sum of
    [position.count] over the meshes, indexed or not (in JavaScript's
    numbers, in traversal order); objects that are not meshes, or have no
    geometry, count for nothing, so a graph without meshes has
    [polygonCount = 0] and [vertexCount = 0]. *)
Theorem getModelInfo_vertexCount (model : Object3D) :
  Forall has_position (mesh_geometries model) ->
  (forall error,
     setFromObject model = Throw error -> getModelInfo model = Throw error)
  /\ forall box,
       setFromObject model = Ok box ->
       exists info,
         getModelInfo model = Ok info
         /\ vertexCount info
            = sum ((fun g => JS.Number (default 0%nat (attributes_position g)))
                     <$> mesh_geometries model)
         /\ (mesh_geometries model = [] ->
             polygonCount info = 0%float /\ vertexCount info = 0%float).
Proof.
  intros Hpos. rewrite (getModelInfo_counted _ Hpos).
  split; [by intros error ->|]. intros box ->.
  eexists. split; [reflexivity|]. split; [reflexivity|].
  intros Hnone. cbn [polygonCount vertexCount]. unfold triangle_sum.
  rewrite Hnone. by split.
Qed.

End MetadataMore.

Section MetadataMoreSamples.
Import THREE ModelLoader MetadataSpec.
#[local] Existing Instance sample_library.

Lemma getModelInfo_vertexCount_witness :
  exists info,
    getModelInfo sample_model = Ok info /\ vertexCount info = 420%float.
Proof.
  destruct (getModelInfo_vertexCount sample_model) as [_ Hreturns].
  - repeat constructor; eexists; reflexivity.
  - destruct (Hreturns _ eq_refl) as (info & Hinfo & Hcount & _).
    exists info. split; [exact Hinfo|]. rewrite Hcount. reflexivity.
Defined.

(** A library that, as the rendering library does, reads the bounding
    box of every geometry that is not [undefined] and so fails on an
    object whose geometry is [null]. *)
Definition null_reading_library : Library :=
  {| setFromObject := fun object =>
       if forallb
            (fun o => match geometry o with Null => false | _ => true end)
            (nodes object)
       then @setFromObject sample_library object
       else Throw TypeError;
     getSize := @getSize sample_library;
     toFixed := @toFixed sample_library |}.

(** A mesh whose geometry is [null]: the traversal of [getModelInfo]
    passes it by, and with a bounding box that returns the metadata
    count nothing; with a bounding box that reads the geometry, as the
    one of the rendering library, [getModelInfo] throws. *)
Example getModelInfo_null_geometry :
  let mesh :=
    mkObject3D "body" true Null (mkVector3 0 0 0) (mkVector3 0 0 0)
      (mkVector3 1 1 1) true true true [] in
  mesh_geometries mesh = []
  /\ (exists info,
        getModelInfo mesh = Ok info
        /\ polygonCount info = 0%float /\ vertexCount info = 0%float)
  /\ @getModelInfo null_reading_library mesh = Throw TypeError.
Proof.
  cbv zeta. split; [reflexivity|]. split; [|reflexivity].
  eexists. split; [reflexivity|]. split; reflexivity.
Qed.

End MetadataMoreSamples.

(** The value of a result that is not an exception. *)
Definition result_value {A} (r : Result A) : option A :=
  match r with Ok a => Some a | Throw _ => None end.

(** ** What [loadModel] does to the decoded scene *)

Section LoaderProperties.
Import THREE Loader.
Context {library : Library}.

(** What the shadow pass keeps of an object: everything but the two shadow
    flags of a mesh, and the children, which it visits in turn. *)
Definition shadowed (before after : Object3D) : Prop :=
  name after = name before
  /\ isMesh after = isMesh before
  /\ geometry after = geometry before
  /\ THREE.position after = THREE.position before
  /\ THREE.rotation after = THREE.rotation before
  /\ THREE.scale after = THREE.scale before
  /\ visible after = visible before
  /\ length (children after) = length (children before)
  /\ (isMesh before = true ->
      castShadow after = true /\ receiveShadow after = true)
  /\ (isMesh before = false ->
      castShadow after = castShadow before
      /\ receiveShadow after = receiveShadow before).

Lemma enable_shadows_unfold (o : Object3D) :
  enable_shadows o
  = mkObject3D (name o) (isMesh o) (geometry o) (THREE.position o)
      (THREE.rotation o) (THREE.scale o) (visible o)
      (if isMesh o then true else castShadow o)
      (if isMesh o then true else receiveShadow o)
      (map enable_shadows (children o)).
Proof. destruct o as [? [] ? ? ? ? ? ? ? ?]; reflexivity. Qed.

Lemma enable_shadows_shadowed (o : Object3D) : shadowed o (enable_shadows o).
Proof.
  rewrite enable_shadows_unfold. unfold shadowed. cbn.
  rewrite length_map. destruct (isMesh o); repeat split; congruence.
Qed.

Lemma nodes_unfold (o : Object3D) :
  nodes o = o :: flat_map nodes (children o).
Proof. by destruct o. Qed.

(** The shadow pass visits every object of the graph. *)
Lemma nodes_enable_shadows (o : Object3D) :
  nodes (enable_shadows o) = enable_shadows <$> nodes o.
Proof.
  induction o as [o IH] using Object3D_children_ind.
  rewrite enable_shadows_unfold, (nodes_unfold o), nodes_unfold.
  cbn [children fmap list_fmap]. rewrite <- enable_shadows_unfold. f_equal.
  induction IH as [|c cs Hc _ IHcs]; [reflexivity|].
  cbn [map flat_map]. by rewrite fmap_app, Hc, IHcs.
Qed.

(** The three transformations write the transform of the root and nothing
    else. *)
Definition transformed (options : Options) (model : Object3D) : Object3D :=
  apply_rotation options (apply_position options (apply_scale options model)).

Lemma transformed_root (options : Options) (model : Object3D) :
  name (transformed options model) = name model
  /\ isMesh (transformed options model) = isMesh model
  /\ geometry (transformed options model) = geometry model
  /\ visible (transformed options model) = visible model
  /\ castShadow (transformed options model) = castShadow model
  /\ receiveShadow (transformed options model) = receiveShadow model
  /\ children (transformed options model) = children model.
Proof.
  unfold transformed, apply_rotation, apply_position, apply_scale.
  destruct (Loader.rotation options), (Loader.position options),
    (Loader.scale options) as [s|]; try destruct (JS.truthy s);
    by repeat split.
Qed.

Lemma transformed_transform (options : Options) (model : Object3D) :
  THREE.scale (transformed options model)
  = match Loader.scale options with
    | Some s => if JS.truthy s then mkVector3 s s s else THREE.scale model
    | None => THREE.scale model
    end
  /\ THREE.position (transformed options model)
     = from_option or_zero3 (THREE.position model) (Loader.position options)
  /\ THREE.rotation (transformed options model)
     = from_option or_zero3 (THREE.rotation model) (Loader.rotation options).
Proof.
  unfold transformed, apply_rotation, apply_position, apply_scale.
  destruct (Loader.rotation options), (Loader.position options),
    (Loader.scale options) as [s|]; try destruct (JS.truthy s);
    by repeat split.
Qed.

Lemma nodes_transformed (options : Options) (model : Object3D) :
  nodes (transformed options model)
  = transformed options model :: flat_map nodes (children model).
Proof.
  rewrite nodes_unfold.
  by destruct (transformed_root options model) as (_ & _ & _ & _ & _ & _ & ->).
Qed.

(** The objects of the resolved model: the root with its transform
    written, then the objects below it, each after the shadow pass. *)
Lemma onLoad_nodes (options : Options) (fileSize : float) (gltf : GLTF) :
  nodes (data_model (onLoad options fileSize gltf))
  = enable_shadows
      <$> (transformed options (gltf_scene gltf)
             :: flat_map nodes (children (gltf_scene gltf))).
Proof.
  unfold onLoad. cbn [data_model].
  fold (transformed options (gltf_scene gltf)).
  by rewrite nodes_enable_shadows, nodes_transformed.
Qed.

(** X3: in the model that [loadModel] resolves with, every mesh, at any
    depth, casts and receives shadows; the objects are those of the
    decoded scene, in the same order, with their names, geometries,
    [visible] flags and numbers of children, and an object that is not a
    mesh keeps its shadow flags.  Only the root has its transform written:
    a scale that is missing, 0 or NaN leaves the decoded scale, a missing
    position or rotation leaves the decoded one, and a component that is 0
    or NaN is read as 0; every other object keeps its transform. *)
Theorem onLoad_model (options : Options) (fileSize : float) (gltf : GLTF) :
  let model := data_model (onLoad options fileSize gltf) in
  Forall (fun o => isMesh o = true ->
                   castShadow o = true /\ receiveShadow o = true)
    (nodes model)
  /\ Forall2
       (fun before after =>
          name after = name before /\ isMesh after = isMesh before
          /\ geometry after = geometry before
          /\ visible after = visible before
          /\ length (children after) = length (children before)
          /\ (isMesh before = false ->
              castShadow after = castShadow before
              /\ receiveShadow after = receiveShadow before))
       (nodes (gltf_scene gltf)) (nodes model)
  /\ Forall2
       (fun before after =>
          THREE.position after = THREE.position before
          /\ THREE.rotation after = THREE.rotation before
          /\ THREE.scale after = THREE.scale before)
       (tail (nodes (gltf_scene gltf))) (tail (nodes model))
  /\ THREE.scale model
     = match Loader.scale options with
       | Some s =>
           if JS.truthy s then mkVector3 s s s
           else THREE.scale (gltf_scene gltf)
       | None => THREE.scale (gltf_scene gltf)
       end
  /\ THREE.position model
     = from_option or_zero3 (THREE.position (gltf_scene gltf))
         (Loader.position options)
  /\ THREE.rotation model
     = from_option or_zero3 (THREE.rotation (gltf_scene gltf))
         (Loader.rotation options)
  /\ data_animations (onLoad options fileSize gltf) = gltf_animations gltf.
Proof.
  intros model. subst model. unfold onLoad. cbn [data_model data_animations].
  fold (transformed options (gltf_scene gltf)).
  set (scene := gltf_scene gltf).
  destruct (transformed_root options scene)
    as (Hname & Hmesh & Hgeo & Hvis & Hcast & Hrecv & Hch).
  destruct (transformed_transform options scene) as (Hs & Hp & Hr).
  rewrite nodes_enable_shadows, nodes_transformed, (nodes_unfold scene).
  split; [|split; [|split; [|split; [|split; [|split]]]]].
  - apply Forall_fmap, Forall_forall. intros o _.
    destruct (enable_shadows_shadowed o) as (_ & Hm & _ & _ & _ & _ & _ & _ & Ht & _).
    cbn. rewrite Hm. exact Ht.
  - cbn [fmap list_fmap]. constructor.
    + destruct (enable_shadows_shadowed (transformed options scene))
        as (H1 & H2 & H3 & _ & _ & _ & H7 & H8 & _ & H10).
      split; [congruence|]. split; [congruence|]. split; [congruence|].
      split; [congruence|]. split; [congruence|].
      intros Hm. rewrite <- Hmesh in Hm. destruct (H10 Hm). split; congruence.
    + apply Forall2_fmap_r, Forall_Forall2_diag, Forall_forall. intros o _.
      destruct (enable_shadows_shadowed o)
        as (H1 & H2 & H3 & _ & _ & _ & H7 & H8 & _ & H10).
      exact (conj H1 (conj H2 (conj H3 (conj H7 (conj H8 H10))))).
  - cbn [fmap list_fmap tail].
    apply Forall2_fmap_r, Forall_Forall2_diag, Forall_forall. intros o _.
    destruct (enable_shadows_shadowed o) as (_ & _ & _ & H4 & H5 & H6 & _).
    exact (conj H4 (conj H5 H6)).
  - by destruct (enable_shadows_shadowed (transformed options scene))
      as (_ & _ & _ & _ & _ & -> & _).
  - by destruct (enable_shadows_shadowed (transformed options scene))
      as (_ & _ & _ & -> & _).
  - by destruct (enable_shadows_shadowed (transformed options scene))
      as (_ & _ & _ & _ & -> & _).
  - reflexivity.
Qed.

Lemma count_mesh_ext (l1 : list Object3D) :
  forall l2 acc,
    MetadataSpec.mesh_geometry <$> l1 = MetadataSpec.mesh_geometry <$> l2 ->
    fold_left (fun acc child => ModelLoader.count_mesh child acc) l1 acc
    = fold_left (fun acc child => ModelLoader.count_mesh child acc) l2 acc.
Proof.
  induction l1 as [|o1 l1 IH]; intros [|o2 l2] acc Heq; try done.
  cbn [fmap list_fmap] in Heq. injection Heq as Ho Hl.
  cbn [fold_left].
  replace (ModelLoader.count_mesh o2 acc) with (ModelLoader.count_mesh o1 acc);
    [by apply IH|].
  destruct acc as [[polygons verts]|e]; [|reflexivity].
  by rewrite !count_mesh_step, Ho.
Qed.

Lemma mesh_geometry_enable_shadows (o : Object3D) :
  MetadataSpec.mesh_geometry (enable_shadows o) = MetadataSpec.mesh_geometry o.
Proof.
  unfold MetadataSpec.mesh_geometry.
  by destruct (enable_shadows_shadowed o) as (_ & -> & -> & _).
Qed.

Lemma mesh_geometry_transformed (options : Options) (o : Object3D) :
  MetadataSpec.mesh_geometry (transformed options o)
  = MetadataSpec.mesh_geometry o.
Proof.
  unfold MetadataSpec.mesh_geometry.
  by destruct (transformed_root options o) as (_ & -> & -> & _).
Qed.

Lemma name_enable_shadows (o : Object3D) : name (enable_shadows o) = name o.
Proof. by destruct (enable_shadows_shadowed o) as (-> & _). Qed.

(** Objects with the same names have the same mount points, by name. *)
Lemma mounts_names (l1 : list Object3D) :
  forall l2,
    name <$> l1 = name <$> l2 ->
    name <$> filter (fun o => name o ∈ Wheels.wheelPositions) l1
    = name <$> filter (fun o => name o ∈ Wheels.wheelPositions) l2.
Proof.
  induction l1 as [|o1 l1 IH]; intros [|o2 l2] Heq; try done.
  cbn [fmap list_fmap] in Heq. injection Heq as Ho Hl.
  rewrite !filter_cons, <- Ho.
  case_decide; cbn [fmap list_fmap]; rewrite ?Ho; by erewrite IH.
Qed.

(** Objects with the same mesh geometries contribute the same geometries
    to the metadata. *)
Lemma mesh_geometries_ext (l1 : list Object3D) :
  forall l2,
    MetadataSpec.mesh_geometry <$> l1 = MetadataSpec.mesh_geometry <$> l2 ->
    omap MetadataSpec.mesh_geometry l1 = omap MetadataSpec.mesh_geometry l2.
Proof.
  induction l1 as [|o1 l1 IH]; intros [|o2 l2] Heq; try done.
  cbn [fmap list_fmap] in Heq. injection Heq as Ho Hl.
  cbn [omap list_omap]. rewrite Ho. by rewrite (IH l2 Hl).
Qed.

(** X4: the scale, position, rotation and shadow flags that [loadModel]
    writes leave the counted part of the metadata alone, whatever the
    options: the model it resolves with has the mesh geometries of the
    decoded scene, in traversal order, so its [polygonCount] and
    [vertexCount] are those of the decoded scene, and a missing position
    attribute throws on the one as on the other.  Only the bounding box
    can differ: the library computes it from the graph handed to it, and
    where it answers the same for the two graphs so does [getModelInfo],
    error included.  The model also has the mount points of the decoded
    scene, name by name, so that attachment adds the same number of
    wheels to it. *)
Theorem onLoad_keeps_metadata (options : Options) (fileSize : float)
    (gltf : GLTF) :
  let model := data_model (onLoad options fileSize gltf) in
  MetadataSpec.mesh_geometries model
  = MetadataSpec.mesh_geometries (gltf_scene gltf)
  /\ (forall info info',
        ModelLoader.getModelInfo model = Ok info ->
        ModelLoader.getModelInfo (gltf_scene gltf) = Ok info' ->
        polygonCount info = polygonCount info'
        /\ vertexCount info = vertexCount info')
  /\ (setFromObject model = setFromObject (gltf_scene gltf) ->
      ModelLoader.getModelInfo model
      = ModelLoader.getModelInfo (gltf_scene gltf))
  /\ name <$> Wheels.mounts model = name <$> Wheels.mounts (gltf_scene gltf)
  /\ forall wheelModel,
       length (children (Wheels.attachWheelsToVan wheelModel model))
       = length (children (Wheels.attachWheelsToVan wheelModel (gltf_scene gltf))).
Proof.
  intros model.
  assert (Hgeometries :
      MetadataSpec.mesh_geometry <$> nodes model
      = MetadataSpec.mesh_geometry <$> nodes (gltf_scene gltf)).
  { subst model. rewrite onLoad_nodes, (nodes_unfold (gltf_scene gltf)).
    rewrite <- list_fmap_compose. cbn [fmap list_fmap]. f_equal.
    - unfold compose.
      by rewrite mesh_geometry_enable_shadows, mesh_geometry_transformed.
    - apply list_fmap_ext. intros i o _. apply mesh_geometry_enable_shadows. }
  assert (Hcount :
      traverse ModelLoader.count_mesh model (Ok (0%float, 0%float))
      = traverse ModelLoader.count_mesh (gltf_scene gltf)
          (Ok (0%float, 0%float))).
  { rewrite !traverse_nodes. by apply count_mesh_ext. }
  assert (Hnames : name <$> nodes model = name <$> nodes (gltf_scene gltf)).
  { subst model. rewrite onLoad_nodes, (nodes_unfold (gltf_scene gltf)).
    rewrite <- list_fmap_compose. cbn [fmap list_fmap]. f_equal.
    - unfold compose. rewrite name_enable_shadows.
      by destruct (transformed_root options (gltf_scene gltf)) as (-> & _).
    - apply list_fmap_ext. intros i o _. apply name_enable_shadows. }
  assert (Hmounts : name <$> Wheels.mounts model
                    = name <$> Wheels.mounts (gltf_scene gltf))
    by (by apply mounts_names).
  split; [|split; [|split; [|split; [exact Hmounts|]]]].
  - unfold MetadataSpec.mesh_geometries. by apply mesh_geometries_ext.
  - unfold ModelLoader.getModelInfo. rewrite Hcount. intros info info'.
    destruct (traverse ModelLoader.count_mesh (gltf_scene gltf) _)
      as [[polygons verts]|e]; [|done].
    destruct (setFromObject model); [|done].
    destruct (setFromObject (gltf_scene gltf)); [|done].
    intros [= <-] [= <-]. by cbn.
  - intros Hbox. unfold ModelLoader.getModelInfo. by rewrite Hcount, Hbox.
  - intros [wheel|]; [|cbn [Wheels.attachWheelsToVan]].
    + rewrite !attachWheelsToVan_Some. cbn [children].
      rewrite !length_app, !length_fmap.
      apply (f_equal length) in Hmounts. rewrite !length_fmap in Hmounts.
      rewrite Hmounts. f_equal.
      assert (Hlen : length (nodes model) = length (nodes (gltf_scene gltf)))
        by (apply (f_equal length) in Hnames; by rewrite !length_fmap in Hnames).
      subst model. unfold onLoad. cbn [data_model].
      fold (transformed options (gltf_scene gltf)).
      destruct (enable_shadows_shadowed (transformed options (gltf_scene gltf)))
        as (_ & _ & _ & _ & _ & _ & _ & -> & _).
      by destruct (transformed_root options (gltf_scene gltf))
        as (_ & _ & _ & _ & _ & _ & ->).
    + subst model. unfold onLoad. cbn [data_model].
      fold (transformed options (gltf_scene gltf)).
      destruct (enable_shadows_shadowed (transformed options (gltf_scene gltf)))
        as (_ & _ & _ & _ & _ & _ & _ & -> & _).
      by destruct (transformed_root options (gltf_scene gltf))
        as (_ & _ & _ & _ & _ & _ & ->).
Qed.

(** *** Progress and file size *)

Definition computable (events : list ProgressEvent) : list ProgressEvent :=
  filter (fun xhr => lengthComputable xhr = true) events.

Definition percent (path : string) (xhr : ProgressEvent) : float * string :=
  ((loaded xhr / total xhr * 100)%float, path).

Lemma on_progress_fold (onProgress : bool) (path : string)
    (events : list ProgressEvent) :
  forall st,
    fold_left (on_progress onProgress path) events st
    = mkProgress (default (size st) (last (total <$> computable events)))
        (reported st
           ++ (if onProgress then percent path <$> computable events else []))%list.
Proof.
  induction events as [|xhr events IH]; intros st; cbn [fold_left].
  - destruct st, onProgress; cbn; by rewrite app_nil_r.
  - rewrite IH. unfold on_progress, computable. rewrite filter_cons.
    destruct (lengthComputable xhr); [|by rewrite decide_False].
    rewrite decide_True by done. cbn [fmap list_fmap size reported].
    rewrite last_cons. fold (computable events).
    destruct (last (total <$> computable events)), onProgress; cbn;
      by rewrite <- ?app_assoc.
Qed.

(** X5: the [fileSize] that [loadModel] resolves with is the [total] of
    the last progress event whose length was computable, and 0 when there
    was none; [onProgress] is called once for each such event, in order,
    with [loaded / total * 100] and the path, never for an event whose
    length is not computable, and not at all by a loader built without a
    callback.  A load that fails rejects with the decoder's error, whatever
    progress it made. *)
Theorem loadModel_progress (onProgress : bool) (path : string)
    (options : Options) (events : list ProgressEvent) (outcome : Result GLTF) :
  (loadModel onProgress path options events outcome).2
  = (if onProgress then percent path <$> computable events else [])
  /\ (forall gltf, outcome = Ok gltf ->
      exists data,
        (loadModel onProgress path options events outcome).1 = Ok data
        /\ fileSize data = default 0%float (last (total <$> computable events))
        /\ data = onLoad options (fileSize data) gltf)
  /\ (forall error, outcome = Throw error ->
      (loadModel onProgress path options events outcome).1 = Throw error).
Proof.
  unfold loadModel. rewrite on_progress_fold. cbn [size reported app].
  destruct outcome as [gltf|error]; cbn [fst snd].
  - split; [reflexivity|]. split; [|done].
    intros ? [= <-]. eexists. by repeat split.
  - split; [reflexivity|]. split; [done|]. by intros ? [= <-].
Qed.

(** A transfer that reports its length only from the second event on. *)
Example loadModel_progress_sample :
  let events :=
    [ mkProgressEvent false 10 0; mkProgressEvent true 50 200;
      mkProgressEvent false 120 0; mkProgressEvent true 200 200 ] in
  let gltf := mkGLTF sample_wheel [] in
  (loadModel true "a.glb" (mkOptions None None None) events (Ok gltf)).2
  = [(25%float, "a.glb"); (100%float, "a.glb")]
  /\ (fileSize <$> result_value
        (loadModel true "a.glb" (mkOptions None None None) events (Ok gltf)).1)
     = Some 200%float
  /\ (fileSize <$> result_value
        (loadModel true "a.glb" (mkOptions None None None)
           [mkProgressEvent false 10 0] (Ok gltf)).1)
     = Some 0%float.
Proof. repeat split. Qed.

End LoaderProperties.

(** ** Batch loading: the loads that resolve *)

Section BatchMore.
Import Promise ModelLoader.

(** The loads [order] resolve, one after the other, load [i] with
    [value i]. *)
Definition fulfilments {A} (value : nat -> A) (order : list nat)
    : list (Settlement A) :=
  (fun i => Fulfil i (value i)) <$> order.

(** The slots of [Promise.all] after these settlements. *)
Definition filled {A} (value : nat -> A) (order : list nat)
    (values : list (option A)) : list (option A) :=
  fold_left (fun values i => <[i := Some (value i)]> values) order values.

Lemma all_step_Fulfilled {A} (schedule : list (Settlement A)) (r : list A) :
  fold_left all_step schedule (Fulfilled r) = Fulfilled r.
Proof. induction schedule as [|ev schedule IH]; [done|exact IH]. Qed.

Lemma all_fulfilments {A} (value : nat -> A) (order : list nat) :
  forall values,
    NoDup order ->
    Forall (fun i => values !! i = Some None) order ->
    complete values = None ->
    fold_left all_step (fulfilments value order) (Pending values)
    = match complete (filled value order values) with
      | Some r => Fulfilled r
      | None => Pending (filled value order values)
      end.
Proof.
  induction order as [|i order IH]; intros values Hdup Hpending Hnone.
  - cbn [fulfilments fmap list_fmap fold_left filled]. by rewrite Hnone.
  - apply NoDup_cons in Hdup as [Hi Hdup].
    apply Forall_cons in Hpending as [Hv Hpending].
    cbn [fulfilments fmap list_fmap fold_left all_step input filled].
    rewrite Hv.
    assert (Hrest : Forall (fun j => <[i:=Some (value i)]> values !! j = Some None)
                      order).
    { apply Forall_forall. intros j Hj.
      rewrite list_lookup_insert_ne; [by eapply Forall_forall in Hpending|].
      by intros ->. }
    destruct (complete (<[i:=Some (value i)]> values)) as [r|] eqn:Hc.
    + destruct order as [|j order].
      * cbn [fmap list_fmap fold_left]. by rewrite Hc.
      * apply Forall_cons in Hrest as [Hj _].
        by rewrite (complete_None _ _ Hj) in Hc.
    + by apply IH.
Qed.

Lemma filled_length {A} (value : nat -> A) (order : list nat) :
  forall values, length (filled value order values) = length values.
Proof.
  induction order as [|i order IH]; intros values; [reflexivity|].
  cbn [filled fold_left]. fold (filled value order (<[i:=Some (value i)]> values)).
  by rewrite IH, length_insert.
Qed.

Lemma filled_lookup {A} (value : nat -> A) (order : list nat) :
  forall values j,
    (j < length values)%nat ->
    filled value order values !! j
    = if decide (j ∈ order) then Some (Some (value j)) else values !! j.
Proof.
  induction order as [|i order IH]; intros values j Hj.
  - rewrite decide_False; [reflexivity|]. apply not_elem_of_nil.
  - cbn [filled fold_left].
    fold (filled value order (<[i:=Some (value i)]> values)).
    rewrite IH by (by rewrite length_insert).
    destruct (decide (j ∈ order)) as [Hin|Hnin].
    + rewrite decide_True; [reflexivity|]. by right.
    + destruct (decide (i = j)) as [->|Hne].
      * rewrite list_lookup_insert_eq by done.
        rewrite decide_True; [reflexivity|]. by left.
      * rewrite list_lookup_insert_ne by done.
        rewrite decide_False; [reflexivity|].
        intros [?|?]%elem_of_cons; congruence.
Qed.

Lemma complete_Some {A} (l : list A) : complete (Some <$> l) = Some l.
Proof.
  unfold complete. apply mapM_Some. apply Forall2_fmap_l.
  by apply Forall_Forall2_diag, Forall_forall.
Qed.

(** X6: when every load of a batch resolves, [loadModels] returns the
    array of the results in the order of the configurations, whatever the
    order in which the loads settled; an empty batch returns the empty
    array at once. *)
Theorem loadModels_all_resolve (count : nat) (value : nat -> ModelData)
    (order : list nat) :
  order ≡ₚ seq 0 count ->
  loadModels_resume count (fulfilments value order)
  = Some (Ok (value <$> seq 0 count)).
Proof.
  intros Hperm. unfold loadModels_resume, all, all_start.
  destruct count as [|n].
  { apply Permutation_nil_r in Hperm as ->. reflexivity. }
  assert (Hin : forall j, j ∈ order <-> (j < S n)%nat).
  { intros j. rewrite Hperm, elem_of_seq. lia. }
  rewrite all_fulfilments.
  - assert (Hfilled : filled value order (replicate (S n) None)
                      = Some <$> (value <$> seq 0 (S n))).
    { apply list_eq. intros j.
      destruct (decide (j < S n)%nat) as [Hj|Hj].
      - rewrite filled_lookup by (by rewrite length_replicate).
        rewrite decide_True by (by apply Hin).
        rewrite !list_lookup_fmap, lookup_seq_lt by done. reflexivity.
      - rewrite !lookup_ge_None_2; [done| |].
        + rewrite !length_fmap, length_seq. lia.
        + rewrite filled_length, length_replicate. lia. }
    by rewrite Hfilled, complete_Some.
  - rewrite Hperm. apply NoDup_seq.
  - apply Forall_forall. intros j Hj%Hin. by apply lookup_replicate_2.
  - apply (complete_None _ 0). apply lookup_replicate_2. lia.
Qed.

Lemma loadModels_all_resolve_witness :
  loadModels_resume 3
    [ Fulfil 2 (sample_data "c"); Fulfil 0 (sample_data "a");
      Fulfil 1 (sample_data "b") ]
  = Some (Ok [sample_data "a"; sample_data "b"; sample_data "c"]).
Proof.
  apply (loadModels_all_resolve 3
           (fun i => sample_data
                       (match i with 0 => "a" | 1 => "b" | _ => "c" end)%nat)
           [2; 0; 1]%nat).
  apply (bool_decide_unpack _). vm_compute. exact I.
Defined.

(** X7: as long as a load of the batch has not settled and none has
    rejected, [loadModels] has not returned: it never returns the results
    of a part of the batch. *)
Theorem loadModels_waits (count : nat) (value : nat -> ModelData)
    (order : list nat) :
  NoDup order ->
  Forall (fun i => (i < count)%nat) order ->
  (length order < count)%nat ->
  loadModels_resume count (fulfilments value order) = None.
Proof.
  intros Hdup Hrange Hless. unfold loadModels_resume, all, all_start.
  destruct count as [|n]; [lia|].
  rewrite all_fulfilments.
  - assert (Hmissing : exists j, (j < S n)%nat /\ j ∉ order).
    { destruct (decide (Forall (fun j => j ∈ order) (seq 0 (S n)))) as [Hall|Hex].
      - exfalso.
        assert (seq 0 (S n) ⊆+ order) as Hsub.
        { apply NoDup_submseteq; [apply NoDup_seq|].
          intros j Hj. by eapply Forall_forall in Hall. }
        apply submseteq_length in Hsub. rewrite length_seq in Hsub. lia.
      - apply not_Forall_Exists in Hex; [|apply _].
        apply Exists_exists in Hex as (j & Hj%elem_of_seq & Hnin).
        exists j. split; [lia|done]. }
    destruct Hmissing as (j & Hj & Hnin).
    rewrite (complete_None _ j); [reflexivity|].
    rewrite filled_lookup by (by rewrite length_replicate).
    rewrite decide_False by done. by apply lookup_replicate_2.
  - exact Hdup.
  - eapply Forall_impl; [exact Hrange|]. intros j Hj.
    by apply lookup_replicate_2.
  - apply (complete_None _ 0). apply lookup_replicate_2. lia.
Qed.

Lemma loadModels_waits_witness :
  loadModels_resume 3 [ Fulfil 2 (sample_data "c"); Fulfil 0 (sample_data "a") ]
  = None.
Proof.
  apply (loadModels_waits 3
           (fun i => sample_data
                       (match i with 0 => "a" | 1 => "b" | _ => "c" end)%nat)
           [2; 0]%nat).
  - apply (bool_decide_unpack _). vm_compute. exact I.
  - repeat constructor.
  - cbn. lia.
Defined.

End BatchMore.

(** ** [VanManager.js]: the other methods *)

Module Api.
Import VanManager.

(** [getCurrentVanInfo()]: [null] without a current identifier (the empty
    string is falsy too), else [this.vans.get(this.currentVanId)], which
    is undefined when the cache has no such entry. *)
Definition getCurrentVanInfo : M (option VanEntry) :=
  let* currentVanId := gets currentVanId in
  match currentVanId with
  | None => ret None
  | Some currentVanId =>
      if String.eqb currentVanId "" then ret None
      else gets (fun s => vans s !! currentVanId)
  end.

(** The suspended calls of these methods, beside those of [Task]. *)
Inductive ApiTask :=
  | BaseTask (t : Task)
  | LoadVanByNumberTask (vanNumber : nat)
      (* loadVanByNumber, awaiting loadModel(vanPath) *)
  | ListTask.
      (* getAvailableVansAsync, awaiting detectAvailableVans() *)

(** An [async] method up to its first [await], as [Step], with the tasks
    of these methods. *)
Inductive ApiStep (A : Type) :=
  | Done (a : A)
  | Waiting (t : ApiTask).
Arguments Done {A} a.
Arguments Waiting {A} t.

Section Methods.
Context {library : Library}.

Definition of_step {A} (st : Step A) : ApiStep A :=
  match st with
  | Return a => Done a
  | Await t => Waiting (BaseTask t)
  end.

(** The configuration that [loadVanByNumber] stores: no number, no
    transform. *)
Definition numbered_config (vanNumber : nat) : VanConfig :=
  {| id := CONFIG.getVanId vanNumber;
     name := "Van " +:+ JS.padStart 3 "0" (JS.String vanNumber);
     filename := CONFIG.getFilename vanNumber;
     thumbnail :=
       "thumbnails/van-" +:+ JS.padStart 3 "0" (JS.String vanNumber) +:+ ".jpg";
     number := None; scale := None; position := None; rotation := None |}.

(** The request that [loadVanByNumber] sends. *)
Definition numbered_request (vanNumber : nat) : Request :=
  GET (CONFIG.basePath +:+ CONFIG.getFilename vanNumber)
    {| opt_scale := CONFIG.defaultScale;
       opt_position := CONFIG.defaultPosition;
       opt_rotation := mkVector3 0 CONFIG.PI 0 |}.

(** [loadVanByNumber(vanNumber)] up to its [await]. *)
Definition loadVanByNumber (vanNumber : nat) : M (ApiStep (option VanEntry)) :=
  let vanId := CONFIG.getVanId vanNumber in
  let* vans := gets vans in
  match vans !! vanId with
  | Some _ =>
      let* truckData := switchToVan vanId in
      ret (Done (Some truckData))
  | None =>
      modify (request (numbered_request vanNumber));;
      ret (Waiting (LoadVanByNumberTask vanNumber))
  end.

(** [loadVanByNumber(vanNumber)] from its [await] on; the [catch] block
    logs and throws the error on. *)
Definition loadVanByNumber_resume (vanNumber : nat)
    (outcome : Result ModelData) : M (option VanEntry) :=
  let vanId := CONFIG.getVanId vanNumber in
  try_catch
    (let* vanData := settled outcome in
     let* vanModel := new_object (data_model vanData) in
     modify (attachWheelsToVan vanModel);;
     let* info := getModelInfo vanModel in
     modify (fun s =>
               set_vans
                 (<[vanId := {| model := vanModel;
                                config := numbered_config vanNumber;
                                animations := data_animations vanData;
                                info := info |}]> (vans s)) s);;
     let* _ := switchToVan vanId in
     gets (fun s => vans s !! vanId))
    (fun error => throw error).

(** [dispose()]: [this.vans.clear()]. *)
Definition dispose : M unit := modify (set_vans ∅).

(** A JavaScript [Map] from identifiers to configurations, in insertion
    order: [set] on a key that is there replaces the value where it is. *)
Fixpoint map_set (key : string) (value : VanConfig)
    (entries : list (string * VanConfig)) : list (string * VanConfig) :=
  match entries with
  | [] => [(key, value)]
  | (k, v) :: entries =>
      if String.eqb k key then (key, value) :: entries
      else (k, v) :: map_set key value entries
  end.

(** The merge of [getAvailableVansAsync]: the configured vans first, then
    the detected ones, [Array.from(allVans.values())]. *)
Definition merge (configVans availableVans : list VanConfig) : list VanConfig :=
  let allVans := fold_left (fun allVans van => map_set (id van) van allVans)
                   configVans [] in
  let allVans := fold_left (fun allVans van => map_set (id van) van allVans)
                   availableVans allVans in
  snd <$> allVans.

(** [getAvailableVansAsync()] up to its [await]. *)
Definition getAvailableVansAsync : M (ApiStep (list VanConfig)) :=
  let* vansDetected := gets vansDetected in
  if vansDetected then
    let* availableVans := gets availableVans in
    ret (Done (merge CONFIG.list availableVans))
  else
    let* _ := detectAvailableVans in
    ret (Waiting ListTask).

(** [getAvailableVansAsync()] from its [await] on: the probe it started
    completes, then the lists are merged. *)
Definition getAvailableVansAsync_resume (net : string -> FetchOutcome)
    : M (list VanConfig) :=
  let* _ := detectAvailableVans_resume net in
  let* availableVans := gets availableVans in
  ret (merge CONFIG.list availableVans).

(** The calls that [preloadAllVans()] makes: [loadVan] on every
    configured van, each with its own [catch]; what it awaits,
    [Promise.allSettled], never rejects. *)
Definition preloadAllVans : list string := id <$> CONFIG.list.

(** *** The event loop with every method of the manager *)

Record Loop := mkLoop {
  state : State;
  tasks : list ApiTask
}.

Inductive Event :=
  | CallLoadVan (truckId : string)
  | CallLoadVanByNumber (vanNumber : nat)
  | CallSwitchToVan (truckId : string)
  | CallDetect
  | CallGetAvailableVans
  | CallGetAvailableVansAsync
  | CallGetCurrentVanInfo
  | CallPreloadAllVans
  | CallDispose
  | Settle (k : nat) (outcome : Result ModelData)
  | SettleChecks (k : nat) (net : string -> FetchOutcome).

Definition call {A} (m : M (ApiStep A)) (lp : Loop) : Loop :=
  match m (state lp) with
  | (Ok (Waiting t), s) => mkLoop s (tasks lp ++ [t])
  | (_, s) => mkLoop s (tasks lp)
  end.

(** A call of a method that has no [await]. *)
Definition run_sync {A} (m : M A) (lp : Loop) : Loop :=
  mkLoop (m (state lp)).2 (tasks lp).

Definition resume {A} (k : nat) (m : M A) (lp : Loop) : Loop :=
  mkLoop (m (state lp)).2 (delete k (tasks lp)).

(** [loadVan], with its tasks among those of the loop. *)
Definition loadVan_api (truckId : string) : M (ApiStep (option VanEntry)) :=
  fun s => match loadVan truckId s with
           | (Ok st, s) => (Ok (of_step st), s)
           | (Throw e, s) => (Throw e, s)
           end.

Definition detect_api : M (ApiStep (list VanConfig)) :=
  fun s => match detectAvailableVans s with
           | (Ok st, s) => (Ok (of_step st), s)
           | (Throw e, s) => (Throw e, s)
           end.

Definition step (lp : Loop) (ev : Event) : Loop :=
  match ev with
  | CallLoadVan truckId => call (loadVan_api truckId) lp
  | CallLoadVanByNumber vanNumber => call (loadVanByNumber vanNumber) lp
  | CallSwitchToVan truckId => run_sync (switchToVan truckId) lp
  | CallDetect => call detect_api lp
  | CallGetAvailableVans => run_sync getAvailableVans lp
  | CallGetAvailableVansAsync => call getAvailableVansAsync lp
  | CallGetCurrentVanInfo => run_sync getCurrentVanInfo lp
  | CallPreloadAllVans =>
      fold_left (fun lp truckId => call (loadVan_api truckId) lp)
        preloadAllVans lp
  | CallDispose => run_sync dispose lp
  | Settle k outcome =>
      match tasks lp !! k with
      | Some (BaseTask LoadWheelTask) =>
          resume k (loadWheelModel_resume outcome) lp
      | Some (BaseTask (LoadVanTask truckId truckConfig)) =>
          resume k (loadVan_resume truckId truckConfig outcome) lp
      | Some (LoadVanByNumberTask vanNumber) =>
          resume k (loadVanByNumber_resume vanNumber outcome) lp
      | _ => lp
      end
  | SettleChecks k net =>
      match tasks lp !! k with
      | Some (BaseTask DetectTask) =>
          resume k (detectAvailableVans_resume net) lp
      | Some ListTask => resume k (getAvailableVansAsync_resume net) lp
      | _ => lp
      end
  end.

Definition run (lp : Loop) (events : list Event) : Loop :=
  fold_left step events lp.

(** After [new VanManager(...)]: [loadWheelModel] is suspended. *)
Definition start : Loop :=
  mkLoop (EventLoop.state EventLoop.start) [BaseTask LoadWheelTask].

End Methods.

End Api.

(** ** What the other methods do to the state *)

Section ApiEquations.
Import VanManager Api.
Context {library : Library}.

(** A freshly decoded scene is stored under [truckId] and switched to. *)
Definition stored (truckId : string) (truckConfig : VanConfig)
    (truckData : ModelData) (info : ModelInfo) (s : State) : State :=
  let entry :=
    {| model := fresh (dom (heap s)); config := truckConfig;
       animations := data_animations truckData; info := info |} in
  switched truckId (fresh (dom (heap s)))
    (set_vans (<[truckId := entry]> (vans (decoded truckData s)))
       (decoded truckData s)).

Lemma loadVan_resume_stored (truckId : string) (truckConfig : VanConfig)
    (truckData : ModelData) (info : ModelInfo) (s : State) :
  ModelLoader.getModelInfo (with_wheels truckData s) = Ok info ->
  (loadVan_resume truckId truckConfig (Ok truckData) s).2
  = stored truckId truckConfig truckData info s.
Proof. intros Hinfo. by rewrite (loadVan_resume_resolved _ _ _ _ _ Hinfo). Qed.

Lemma loadVanByNumber_cached (vanNumber : nat) (truckData : VanEntry) (s : State) :
  vans s !! CONFIG.getVanId vanNumber = Some truckData ->
  loadVanByNumber vanNumber s
  = (Ok (Done (Some truckData)),
     switched (CONFIG.getVanId vanNumber) (model truckData) s).
Proof.
  intros Hvan. unfold loadVanByNumber, bind, gets, ret.
  by rewrite Hvan, (switchToVan_cached _ _ _ Hvan).
Qed.

Lemma loadVanByNumber_uncached (vanNumber : nat) (s : State) :
  vans s !! CONFIG.getVanId vanNumber = None ->
  loadVanByNumber vanNumber s
  = (Ok (Waiting (LoadVanByNumberTask vanNumber)),
     request (numbered_request vanNumber) s).
Proof.
  intros Hvan. unfold loadVanByNumber, bind, gets, modify, ret.
  by rewrite Hvan.
Qed.

Lemma loadVanByNumber_resume_rejected (vanNumber : nat) (e : Error) (s : State) :
  loadVanByNumber_resume vanNumber (Throw e) s = (Throw e, s).
Proof. reflexivity. Qed.

Lemma loadVanByNumber_resume_resolved (vanNumber : nat)
    (vanData : ModelData) (info : ModelInfo) (s : State) :
  ModelLoader.getModelInfo (with_wheels vanData s) = Ok info ->
  loadVanByNumber_resume vanNumber (Ok vanData) s
  = (Ok (Some {| model := fresh (dom (heap s));
                 config := numbered_config vanNumber;
                 animations := data_animations vanData; info := info |}),
     stored (CONFIG.getVanId vanNumber) (numbered_config vanNumber)
       vanData info s).
Proof.
  intros Hinfo.
  unfold loadVanByNumber_resume, try_catch, bind, settled, new_object, modify,
    VanManager.getModelInfo.
  change (attachWheelsToVan (fresh (dom (heap s)))
            (set_heap
               (<[fresh (dom (heap s)) := mkInstance (data_model vanData) None]>
                  (heap s)) s))
    with (decoded vanData s).
  rewrite decoded_lookup. cbn [object]. rewrite Hinfo.
  erewrite switchToVan_cached by (cbn [vans set_vans]; apply lookup_insert_eq).
  cbn [model]. unfold gets, stored.
  by rewrite vans_switched; cbn [vans set_vans]; rewrite lookup_insert_eq.
Qed.

Lemma loadVanByNumber_resume_no_info (vanNumber : nat)
    (vanData : ModelData) (e : Error) (s : State) :
  ModelLoader.getModelInfo (with_wheels vanData s) = Throw e ->
  loadVanByNumber_resume vanNumber (Ok vanData) s
  = (Throw e, decoded vanData s).
Proof.
  intros Hinfo.
  unfold loadVanByNumber_resume, try_catch, bind, settled, new_object, modify,
    VanManager.getModelInfo.
  change (attachWheelsToVan (fresh (dom (heap s)))
            (set_heap
               (<[fresh (dom (heap s)) := mkInstance (data_model vanData) None]>
                  (heap s)) s))
    with (decoded vanData s).
  rewrite decoded_lookup. cbn [object]. by rewrite Hinfo.
Qed.

Lemma getCurrentVanInfo_state (s : State) : (getCurrentVanInfo s).2 = s.
Proof.
  unfold getCurrentVanInfo, bind, gets, ret.
  destruct (currentVanId s) as [i|]; [|reflexivity].
  by destruct (String.eqb i "").
Qed.

(** The steps of which every method is made. *)
Inductive transition : State -> State -> Prop :=
  | t_visible (b : bool) (s : State) :
      transition s (set_current_visible b s)
  | t_switch (truckId : string) (truckData : VanEntry) (s : State) :
      vans s !! truckId = Some truckData ->
      transition s (switched truckId (model truckData) s)
  | t_decode (truckData : ModelData) (s : State) :
      transition s (decoded truckData s)
  | t_store (truckId : string) (truckConfig : VanConfig)
      (truckData : ModelData) (info : ModelInfo) (s : State) :
      truckId <> "" ->
      transition s (stored truckId truckConfig truckData info s)
  | t_other (s s' : State) :
      vans s' = vans s -> currentVan s' = currentVan s ->
      currentVanId s' = currentVanId s -> heap s' = heap s ->
      scene s' = scene s ->
      (availableVans s' = availableVans s
       \/ exists net, availableVans s' = candidate <$> survivors net) ->
      transition s s'.

(** Several steps in a row. *)
Inductive transitions : State -> State -> Prop :=
  | ts_refl (s : State) : transitions s s
  | ts_step (s1 s2 s3 : State) :
      transition s1 s2 -> transitions s2 s3 -> transitions s1 s3.

Lemma transitions_one (s s' : State) : transition s s' -> transitions s s'.
Proof. intros H. eapply ts_step; [exact H|apply ts_refl]. Qed.

Lemma transitions_trans (s1 s2 s3 : State) :
  transitions s1 s2 -> transitions s2 s3 -> transitions s1 s3.
Proof.
  induction 1 as [|s1 s2 s2' H12 _ IH]; [done|].
  intros H. eapply ts_step; [exact H12|by apply IH].
Qed.

End ApiEquations.

Section ApiTransitions.
Import VanManager Api.
Context {library : Library}.

(** The fields that hiding, showing and switching leave alone. *)
Definition manager_fields (s : State) :=
  (vans s, availableVans s, vansDetected s, wheelModel s, requests s).

Lemma set_visible_at_fields (l : loc) (b : bool) (s : State) :
  manager_fields (set_visible_at l b s) = manager_fields s
  /\ currentVan (set_visible_at l b s) = currentVan s
  /\ currentVanId (set_visible_at l b s) = currentVanId s
  /\ scene (set_visible_at l b s) = scene s.
Proof. by repeat split. Qed.

Lemma set_current_visible_fields (b : bool) (s : State) :
  manager_fields (set_current_visible b s) = manager_fields s
  /\ currentVan (set_current_visible b s) = currentVan s
  /\ currentVanId (set_current_visible b s) = currentVanId s
  /\ scene (set_current_visible b s) = scene s.
Proof.
  unfold set_current_visible.
  destruct (currentVan s) eqn:Hc; [|by rewrite Hc].
  rewrite <- Hc. apply set_visible_at_fields.
Qed.

Lemma add_current_to_scene_fields (s : State) :
  manager_fields (add_current_to_scene s) = manager_fields s
  /\ currentVan (add_current_to_scene s) = currentVan s
  /\ currentVanId (add_current_to_scene s) = currentVanId s.
Proof.
  unfold add_current_to_scene.
  destruct (currentVan s) as [l|] eqn:Hc; [|by repeat split].
  destruct (heap s !! l) as [i|]; [|by rewrite Hc].
  destruct (parent i); [by rewrite Hc|].
  by cbn; rewrite Hc.
Qed.

Lemma switched_fields (truckId : string) (target : loc) (s : State) :
  manager_fields (switched truckId target s) = manager_fields s
  /\ currentVan (switched truckId target s) = Some target
  /\ currentVanId (switched truckId target s) = Some truckId.
Proof.
  unfold switched.
  set (s1 := set_current_visible false s).
  set (s2 := set_currentVanId (Some truckId) (set_currentVan (Some target) s1)).
  destruct (set_current_visible_fields true (add_current_to_scene s2))
    as (-> & -> & -> & _).
  destruct (add_current_to_scene_fields s2) as (-> & -> & ->).
  destruct (set_current_visible_fields false s) as (Hf & _).
  by repeat split.
Qed.

Lemma decoded_fields (truckData : ModelData) (s : State) :
  manager_fields (decoded truckData s) = manager_fields s
  /\ currentVan (decoded truckData s) = currentVan s
  /\ currentVanId (decoded truckData s) = currentVanId s
  /\ scene (decoded truckData s) = scene s.
Proof. by repeat split. Qed.

Lemma getVanId_nonempty (vanNumber : nat) : CONFIG.getVanId vanNumber <> "".
Proof. unfold CONFIG.getVanId. cbn [String.append]. discriminate. Qed.

(** [find] returns an element with the identifier it was asked for. *)
Lemma find_by_id_Some (truckId : string) (list : list VanConfig)
    (truckConfig : VanConfig) :
  find_by_id truckId list = Some truckConfig ->
  id truckConfig = truckId /\ truckConfig ∈ list.
Proof.
  unfold find_by_id. intros [Hin Heq]%find_some.
  split; [by apply String.eqb_eq|by apply list_elem_of_In].
Qed.

Lemma find_config_Some (truckId : string) (s : State) (truckConfig : VanConfig) :
  find_config truckId s = Some truckConfig ->
  id truckConfig = truckId
  /\ (truckConfig ∈ CONFIG.list \/ truckConfig ∈ availableVans s).
Proof.
  unfold find_config.
  destruct (find_by_id truckId CONFIG.list) as [c|] eqn:Hc.
  - intros [= <-]. apply find_by_id_Some in Hc as [? ?]. auto.
  - intros [? ?]%find_by_id_Some. auto.
Qed.

(** *** Every method is a few steps *)

Lemma transitions_request (r : Request) (s : State) :
  transitions s (request r s).
Proof. apply transitions_one. apply t_other; try reflexivity. by left. Qed.

Lemma transitions_switchToVan (truckId : string) (s : State) :
  transitions s (switchToVan truckId s).2.
Proof.
  destruct (vans s !! truckId) as [truckData|] eqn:Hvan.
  - rewrite (switchToVan_cached _ _ _ Hvan). apply transitions_one.
    by apply t_switch.
  - rewrite (switchToVan_not_loaded _ _ Hvan). apply ts_refl.
Qed.

Lemma transitions_loadVan (truckId : string) (s : State) :
  transitions s (loadVan truckId s).2.
Proof.
  eapply ts_step; [apply (t_visible false)|].
  destruct (vans s !! truckId) as [truckData|] eqn:Hvan.
  - rewrite (loadVan_cached _ _ _ Hvan). apply transitions_one.
    apply t_switch. by rewrite vans_set_current_visible.
  - destruct (find_config truckId s) as [truckConfig|] eqn:Hcfg.
    + rewrite (loadVan_uncached _ _ _ Hvan Hcfg). apply transitions_request.
    + rewrite (loadVan_not_found _ _ Hvan Hcfg). apply ts_refl.
Qed.

Lemma transitions_loadVan_resume (truckId : string) (truckConfig : VanConfig)
    (outcome : Result ModelData) (s : State) :
  truckId <> "" ->
  transitions s (loadVan_resume truckId truckConfig outcome s).2.
Proof.
  intros Hid. destruct outcome as [truckData|e].
  2:{ rewrite loadVan_resume_rejected. apply transitions_one, t_visible. }
  destruct (ModelLoader.getModelInfo (with_wheels truckData s)) as [info|e]
    eqn:Hinfo.
  - rewrite (loadVan_resume_stored _ _ _ _ _ Hinfo).
    by apply transitions_one, t_store.
  - rewrite (loadVan_resume_no_info _ _ _ _ _ Hinfo).
    eapply ts_step; [apply t_decode|]. apply transitions_one, t_visible.
Qed.

Lemma transitions_loadVanByNumber (vanNumber : nat) (s : State) :
  transitions s (loadVanByNumber vanNumber s).2.
Proof.
  destruct (vans s !! CONFIG.getVanId vanNumber) as [truckData|] eqn:Hvan.
  - rewrite (loadVanByNumber_cached _ _ _ Hvan). apply transitions_one.
    by apply t_switch.
  - rewrite (loadVanByNumber_uncached _ _ Hvan). apply transitions_request.
Qed.

Lemma transitions_loadVanByNumber_resume (vanNumber : nat)
    (outcome : Result ModelData) (s : State) :
  transitions s (loadVanByNumber_resume vanNumber outcome s).2.
Proof.
  destruct outcome as [vanData|e]; [|apply ts_refl].
  destruct (ModelLoader.getModelInfo (with_wheels vanData s)) as [info|e]
    eqn:Hinfo.
  - rewrite (loadVanByNumber_resume_resolved _ _ _ _ Hinfo).
    apply transitions_one, t_store, getVanId_nonempty.
  - rewrite (loadVanByNumber_resume_no_info _ _ _ _ Hinfo).
    apply transitions_one, t_decode.
Qed.

Lemma candidates_nonempty (l : list nat) :
  Forall (fun c => id c <> "") (candidate <$> l).
Proof. apply Forall_fmap, Forall_forall. intros i _. apply getVanId_nonempty. Qed.

Lemma transitions_detect (s : State) :
  transitions s (detectAvailableVans s).2.
Proof.
  destruct (vansDetected s) eqn:Hdet.
  - rewrite detectAvailableVans_detected by done. apply ts_refl.
  - unfold detectAvailableVans, bind, gets, modify, ret. rewrite Hdet.
    cbn [snd]. rewrite issue_all. apply transitions_one.
    apply t_other; try reflexivity. by left.
Qed.

Lemma transitions_detect_resume (net : string -> FetchOutcome) (s : State) :
  transitions s (detectAvailableVans_resume net s).2.
Proof.
  rewrite detectAvailableVans_resume_eq. apply transitions_one.
  apply t_other; try reflexivity. right. by exists net.
Qed.

Lemma getAvailableVansAsync_state (s : State) :
  (getAvailableVansAsync s).2 = (detectAvailableVans s).2.
Proof.
  unfold getAvailableVansAsync, bind, gets, ret.
  destruct (vansDetected s) eqn:Hdet.
  - by rewrite detectAvailableVans_detected.
  - by destruct (detectAvailableVans s) as [[?|?] ?].
Qed.

Lemma getAvailableVansAsync_resume_state (net : string -> FetchOutcome)
    (s : State) :
  (getAvailableVansAsync_resume net s).2 = (detectAvailableVans_resume net s).2.
Proof.
  unfold getAvailableVansAsync_resume, bind, gets, ret.
  by rewrite detectAvailableVans_resume_eq.
Qed.

Lemma transitions_loadWheelModel_resume (outcome : Result ModelData) (s : State) :
  transitions s (loadWheelModel_resume outcome s).2.
Proof.
  apply transitions_one.
  destruct outcome; apply t_other; try reflexivity; by left.
Qed.

End ApiTransitions.

(** ** Invariants of the manager *)

Section ApiInvariants.
Import VanManager Api.
Context {library : Library}.

(** The scene: no object is in it twice, the objects in it are those
    whose [parent] is set, and none of them is visible but the current
    van. *)
Record SceneInv (s : State) : Prop := {
  scene_nodup : NoDup (scene s);
  scene_parent :
    forall l, l ∈ scene s
              <-> exists i, heap s !! l = Some i /\ parent i = Some TheScene;
  scene_visible :
    forall l, l ∈ scene s -> visible_at s l = true -> currentVan s = Some l
}.

(** The current identifier and the current van go together. *)
Definition Coherent (s : State) : Prop :=
  (currentVan s = None <-> currentVanId s = None)
  /\ forall truckId e,
       currentVanId s = Some truckId -> vans s !! truckId = Some e ->
       currentVan s = Some (model e).

(** No identifier in the cache or among the detected vans is empty, nor
    is the current one. *)
Definition Names (s : State) : Prop :=
  (forall truckId e, vans s !! truckId = Some e -> truckId <> "")
  /\ Forall (fun c => id c <> "") (availableVans s)
  /\ currentVanId s <> Some "".

(** The entry whose scene node is the current van is stored under the
    current identifier. *)
Definition Owner (s : State) : Prop :=
  forall truckId e,
    vans s !! truckId = Some e -> currentVan s = Some (model e) ->
    currentVanId s = Some truckId.

(** The scene node of every entry is in the scene. *)
Definition Attached (s : State) : Prop :=
  forall truckId e, vans s !! truckId = Some e -> model e ∈ scene s.

Definition Sound (s : State) : Prop :=
  Inv s /\ SceneInv s /\ Coherent s /\ Names s /\ Owner s /\ Attached s.

(** *** The cache invariant *)

Lemma Inv_stored (truckId : string) (truckConfig : VanConfig)
    (truckData : ModelData) (info : ModelInfo) (s : State) :
  Inv s -> Inv (stored truckId truckConfig truckData info s).
Proof.
  intros Hinv.
  pose proof (Inv_same_cache _ _ Hinv (same_cache_decoded truckData s))
    as [[Hinj' Halloc'] Hhid'].
  destruct Hinv as [[Hinj Halloc] _].
  assert (Hfresh : forall i e, vans s !! i = Some e ->
                     model e <> fresh (dom (heap s))).
  { intros i e Hi Heq. apply (is_fresh (dom (heap s))).
    rewrite <- Heq. apply elem_of_dom. by apply (Halloc i). }
  assert (Hvans : vans (decoded truckData s) = vans s) by reflexivity.
  unfold stored. apply Inv_switched; [split|].
  - cbn [vans set_vans]. rewrite Hvans. intros id1 id2 e1 e2 H1 H2 Heq.
    rewrite lookup_insert in H1, H2.
    repeat case_decide; simplify_eq; cbn [model] in *; try done.
    + exfalso. by eapply Hfresh.
    + exfalso. by eapply Hfresh.
    + by eapply Hinj.
  - cbn [vans heap set_vans]. rewrite Hvans. intros i e Hi.
    rewrite lookup_insert in Hi. case_decide; simplify_eq.
    + cbn [model]. rewrite decoded_lookup. by eexists.
    + by apply (Halloc' i).
  - cbn [currentVan set_vans]. intros i e Hi Hne.
    cbn [vans set_vans] in Hi. rewrite Hvans, lookup_insert in Hi.
    case_decide; simplify_eq.
    + exfalso. apply Hne. cbn [model]. by left.
    + change (visible_at (decoded truckData s) (model e) = false).
      apply (Hhid' i e); [done|]. intros Hin. apply Hne. by right.
Qed.

Lemma Inv_transition (s s' : State) : transition s s' -> Inv s -> Inv s'.
Proof.
  intros [b s0|truckId truckData s0 Hvan|truckData s0
         |truckId truckConfig truckData info s0 Hid
         |s0 s0' Hv Hc Hi Hh Hs Ha] Hinv.
  - by apply Inv_set_current_visible.
  - destruct Hinv as [Hok Hhid]. apply Inv_switched; [exact Hok|].
    eapply others_hidden_weaken; [|exact Hhid]. intros l Hl. by right.
  - eapply Inv_same_cache; [exact Hinv|apply same_cache_decoded].
  - by apply Inv_stored.
  - eapply Inv_same_cache; [exact Hinv|]. by apply same_cache_fields.
Qed.

(** *** The scene *)

Lemma SceneInv_frame (s s' : State) :
  scene s' = scene s -> currentVan s' = currentVan s ->
  (forall l i, heap s !! l = Some i ->
     exists i', heap s' !! l = Some i' /\ parent i' = parent i
                /\ THREE.visible (object i') = THREE.visible (object i)) ->
  (forall l i', heap s' !! l = Some i' -> heap s !! l = None ->
     parent i' = None) ->
  SceneInv s -> SceneInv s'.
Proof.
  intros Hs Hc Hold Hnew [Hdup Hpar Hvis]. split.
  - by rewrite Hs.
  - intros l. rewrite Hs, Hpar. split.
    + intros (i & Hi & Hp). destruct (Hold l i Hi) as (i' & Hi' & Hp' & _).
      exists i'. split; [done|congruence].
    + intros (i' & Hi' & Hp').
      destruct (heap s !! l) as [i|] eqn:Hi.
      * destruct (Hold l i Hi) as (i'' & Hi'' & Hp'' & _).
        exists i. split; [done|congruence].
      * rewrite (Hnew l i' Hi' Hi) in Hp'. done.
  - intros l Hl Hv. rewrite Hs in Hl. rewrite Hc. apply Hvis; [done|].
    apply Hpar in Hl as (i & Hi & _).
    destruct (Hold l i Hi) as (i' & Hi' & _ & Hvi).
    unfold visible_at in *. rewrite Hi' in Hv. by rewrite Hi, <- Hvi.
Qed.

Lemma SceneInv_same_heap (s s' : State) :
  scene s' = scene s -> currentVan s' = currentVan s -> heap s' = heap s ->
  SceneInv s -> SceneInv s'.
Proof.
  intros Hs Hc Hh. apply SceneInv_frame; [done|done| |].
  - intros l i Hi. exists i. by rewrite Hh.
  - intros l i' Hi' Hi. congruence.
Qed.

Lemma SceneInv_decoded (truckData : ModelData) (s : State) :
  SceneInv s -> SceneInv (decoded truckData s).
Proof.
  apply SceneInv_frame; [done|done| |].
  - intros l i Hi. exists i. split; [|done].
    unfold decoded, attachWheelsToVan. cbn [heap set_heap].
    assert (l <> fresh (dom (heap s))) as Hne.
    { intros ->. apply (is_fresh (dom (heap s))). by apply elem_of_dom. }
    by rewrite lookup_alter_ne, lookup_insert_ne.
  - intros l i' Hi' Hi.
    destruct (decide (l = fresh (dom (heap s)))) as [->|Hne].
    + rewrite decoded_lookup in Hi'. by injection Hi' as <-.
    + unfold decoded, attachWheelsToVan in Hi'. cbn [heap set_heap] in Hi'.
      rewrite lookup_alter_ne, lookup_insert_ne in Hi' by done. congruence.
Qed.

Lemma set_visible_at_lookup (l l' : loc) (b : bool) (s : State) (i : Instance) :
  heap s !! l' = Some i ->
  exists i', heap (set_visible_at l b s) !! l' = Some i'
             /\ parent i' = parent i
             /\ THREE.visible (object i')
                = if decide (l = l') then b else THREE.visible (object i).
Proof.
  intros Hi. unfold set_visible_at. cbn [heap set_heap].
  rewrite lookup_alter. case_decide as Hl.
  - subst l'. rewrite Hi. eexists. by repeat split.
  - exists i. by repeat split.
Qed.

Lemma set_visible_at_lookup_inv (l l' : loc) (b : bool) (s : State) (i' : Instance) :
  heap (set_visible_at l b s) !! l' = Some i' ->
  exists i, heap s !! l' = Some i /\ parent i = parent i'.
Proof.
  unfold set_visible_at. cbn [heap set_heap]. rewrite lookup_alter.
  case_decide as Hl.
  - subst l'. destruct (heap s !! l) as [i|]; [|done].
    intros [= <-]. by exists i.
  - intros Hi. by exists i'.
Qed.

Lemma SceneInv_set_current_visible (b : bool) (s : State) :
  SceneInv s -> SceneInv (set_current_visible b s).
Proof.
  intros [Hdup Hpar Hvis]. unfold set_current_visible.
  destruct (currentVan s) as [c|] eqn:Hc; [|by split; rewrite ?Hc].
  split.
  - exact Hdup.
  - intros l. cbn [scene set_visible_at set_heap]. rewrite Hpar. split.
    + intros (i & Hi & Hp).
      destruct (set_visible_at_lookup c l b s i Hi) as (i' & Hi' & Hp' & _).
      exists i'. split; [done|congruence].
    + intros (i' & Hi' & Hp').
      destruct (set_visible_at_lookup_inv c l b s i' Hi') as (i & Hi & Hpi).
      exists i. split; [done|congruence].
  - cbn [scene currentVan set_visible_at set_heap]. intros l Hl Hv.
    rewrite Hc. destruct (decide (c = l)) as [->|Hne]; [done|].
    rewrite visible_at_set_visible_at, decide_False in Hv by done.
    by apply Hvis.
Qed.

(** After the current van is hidden, nothing in the scene is visible. *)
Lemma scene_hidden (s : State) :
  SceneInv s ->
  forall l, l ∈ scene s -> visible_at (set_current_visible false s) l = false.
Proof.
  intros [Hdup Hpar Hvis] l Hl.
  destruct (visible_at (set_current_visible false s) l) eqn:Hv; [|done].
  unfold set_current_visible in Hv.
  destruct (currentVan s) as [c|] eqn:Hc.
  - rewrite visible_at_set_visible_at in Hv. case_decide as Hcl.
    + by destruct (heap s !! c).
    + specialize (Hvis l Hl Hv). congruence.
  - specialize (Hvis l Hl Hv). congruence.
Qed.

Lemma SceneInv_switched (truckId : string) (target : loc) (s : State) :
  SceneInv s -> SceneInv (switched truckId target s).
Proof.
  intros Hinv. unfold switched. apply SceneInv_set_current_visible.
  pose proof (scene_hidden s Hinv) as Hhidden.
  apply (SceneInv_set_current_visible false) in Hinv.
  destruct (set_current_visible_fields false s) as (_ & _ & _ & Hscene).
  rewrite <- Hscene in Hhidden.
  set (s1 := set_current_visible false s) in *.
  destruct Hinv as [Hdup Hpar Hvis].
  unfold add_current_to_scene.
  cbn [currentVan heap set_currentVan set_currentVanId].
  destruct (heap s1 !! target) as [i|] eqn:Hi.
  2:{ split; [exact Hdup|exact Hpar|].
      intros l Hl Hv. cbn [scene set_currentVan set_currentVanId] in Hl.
      change (visible_at s1 l = true) in Hv. by rewrite Hhidden in Hv. }
  destruct (parent i) as [p|] eqn:Hp.
  { split; [exact Hdup|exact Hpar|].
    intros l Hl Hv. cbn [scene set_currentVan set_currentVanId] in Hl.
    change (visible_at s1 l = true) in Hv. by rewrite Hhidden in Hv. }
  assert (Hnot : target ∉ scene s1).
  { intros (i' & Hi' & Hp')%Hpar. congruence. }
  split.
  - cbn [scene set_scene set_heap set_currentVan set_currentVanId].
    apply NoDup_app. split; [exact Hdup|]. split.
    + intros l Hl ->%list_elem_of_singleton. done.
    + apply NoDup_singleton.
  - intros l. cbn [scene heap set_scene set_heap set_currentVan set_currentVanId].
    rewrite elem_of_app, list_elem_of_singleton, Hpar, lookup_insert.
    case_decide as Hl.
    + subst l. split; [intros _; by eexists|by right].
    + split.
      * intros [?|?]; [done|congruence].
      * by left.
  - intros l Hl Hv.
    cbn [scene currentVan set_scene set_heap set_currentVan set_currentVanId]
      in Hl |- *.
    apply elem_of_app in Hl as [Hl|Hl%list_elem_of_singleton]; [|by subst].
    exfalso. unfold visible_at in Hv.
    cbn [heap set_scene set_heap set_currentVan set_currentVanId] in Hv.
    rewrite lookup_insert_ne in Hv by (intros ->; done).
    specialize (Hhidden l Hl). unfold visible_at in Hhidden. congruence.
Qed.

Lemma SceneInv_transition (s s' : State) :
  transition s s' -> SceneInv s -> SceneInv s'.
Proof.
  intros [b s0|truckId truckData s0 Hvan|truckData s0
         |truckId truckConfig truckData info s0 Hid
         |s0 s0' Hv Hc Hi Hh Hs Ha] Hinv.
  - by apply SceneInv_set_current_visible.
  - by apply SceneInv_switched.
  - by apply SceneInv_decoded.
  - unfold stored. apply SceneInv_switched.
    eapply SceneInv_same_heap; [| | |apply SceneInv_decoded, Hinv]; done.
  - by eapply SceneInv_same_heap; [| | |exact Hinv].
Qed.

(** *** The current van and the names *)

Lemma manager_fields_eq (s s' : State) :
  manager_fields s' = manager_fields s ->
  vans s' = vans s /\ availableVans s' = availableVans s
  /\ vansDetected s' = vansDetected s /\ requests s' = requests s.
Proof. unfold manager_fields. intros [= ? ? ? ? ?]. by repeat split. Qed.

Lemma stored_fields (truckId : string) (truckConfig : VanConfig)
    (truckData : ModelData) (info : ModelInfo) (s : State) :
  vans (stored truckId truckConfig truckData info s)
  = <[truckId := {| model := fresh (dom (heap s)); config := truckConfig;
                    animations := data_animations truckData; info := info |}]>
      (vans s)
  /\ availableVans (stored truckId truckConfig truckData info s)
     = availableVans s
  /\ requests (stored truckId truckConfig truckData info s) = requests s
  /\ currentVan (stored truckId truckConfig truckData info s)
     = Some (fresh (dom (heap s)))
  /\ currentVanId (stored truckId truckConfig truckData info s)
     = Some truckId.
Proof.
  unfold stored.
  match goal with
  | |- context [switched ?i ?l ?s0] =>
      destruct (switched_fields i l s0) as (Hf & -> & ->);
      apply manager_fields_eq in Hf as (-> & -> & _ & ->)
  end.
  by repeat split.
Qed.

Lemma Coherent_transition (s s' : State) :
  transition s s' -> Coherent s -> Coherent s'.
Proof.
  intros [b s0|truckId truckData s0 Hvan|truckData s0
         |truckId truckConfig truckData info s0 Hid
         |s0 s0' Hv Hc Hi Hh Hs Ha] [Hnone Hsome].
  - destruct (set_current_visible_fields b s0) as (Hf & Hc & Hi & _).
    apply manager_fields_eq in Hf as (Hv & _).
    split; rewrite ?Hc, ?Hi, ?Hv; [done|]. intros ? ?. eauto.
  - destruct (switched_fields truckId (model truckData) s0) as (Hf & Hc & Hi).
    apply manager_fields_eq in Hf as (Hv & _).
    split; rewrite ?Hc, ?Hi; [done|].
    intros i e [= <-]. rewrite Hv, Hvan. by intros [= <-].
  - exact (conj Hnone Hsome).
  - destruct (stored_fields truckId truckConfig truckData info s0)
      as (Hv & _ & _ & Hc & Hi).
    split; rewrite ?Hc, ?Hi; [done|].
    intros i e [= <-]. rewrite Hv, lookup_insert_eq. by intros [= <-].
  - split; rewrite ?Hc, ?Hi; [done|]. intros ? ?. rewrite Hv. eauto.
Qed.

Lemma Names_transition (s s' : State) :
  transition s s' -> Names s -> Names s'.
Proof.
  intros [b s0|truckId truckData s0 Hvan|truckData s0
         |truckId truckConfig truckData info s0 Hid
         |s0 s0' Hv Hc Hi Hh Hs Ha] (Hkeys & Havail & Hcur).
  - destruct (set_current_visible_fields b s0) as (Hf & _ & Hi & _).
    apply manager_fields_eq in Hf as (Hv & Ha & _).
    unfold Names. by rewrite Hv, Ha, Hi.
  - destruct (switched_fields truckId (model truckData) s0) as (Hf & _ & Hi).
    apply manager_fields_eq in Hf as (Hv & Ha & _).
    unfold Names. rewrite Hv, Ha, Hi. split; [done|]. split; [done|].
    intros [= ->]. by eapply Hkeys.
  - exact (conj Hkeys (conj Havail Hcur)).
  - destruct (stored_fields truckId truckConfig truckData info s0)
      as (Hv & Ha & _ & _ & Hi).
    unfold Names. rewrite Hv, Ha, Hi. split; [|split; [done|congruence]].
    intros i e. rewrite lookup_insert. case_decide; [by subst|]. apply Hkeys.
  - unfold Names. rewrite Hv, Hi. split; [done|]. split; [|done].
    destruct Ha as [->|[net ->]]; [done|apply candidates_nonempty].
Qed.

Lemma Owner_transition (s s' : State) :
  transition s s' -> cache_ok s -> Owner s -> Owner s'.
Proof.
  intros [b s0|truckId truckData s0 Hvan|truckData s0
         |truckId truckConfig truckData info s0 Hid
         |s0 s0' Hv Hc Hi Hh Hs Ha] [Hinj Halloc] Hown; unfold Owner.
  - destruct (set_current_visible_fields b s0) as (Hf & -> & -> & _).
    apply manager_fields_eq in Hf as (-> & _). exact Hown.
  - destruct (switched_fields truckId (model truckData) s0) as (Hf & -> & ->).
    apply manager_fields_eq in Hf as (-> & _).
    intros i e Hi [= Heq]. f_equal. symmetry. by eapply Hinj.
  - exact Hown.
  - destruct (stored_fields truckId truckConfig truckData info s0)
      as (-> & _ & _ & -> & ->).
    intros i e. rewrite lookup_insert. case_decide as Hi; [by subst|].
    intros He [= Heq]. exfalso. apply (is_fresh (dom (heap s0))).
    rewrite Heq. apply elem_of_dom. by eapply Halloc.
  - rewrite Hv, Hc, Hi. exact Hown.
Qed.

Lemma scene_add_current_to_scene (s : State) :
  scene s ⊆ scene (add_current_to_scene s).
Proof.
  unfold add_current_to_scene.
  destruct (currentVan s) as [l|]; [|done].
  destruct (heap s !! l) as [i|]; [|done].
  destruct (parent i); [done|].
  cbn [scene set_scene set_heap]. intros l' Hl'. apply elem_of_app. by left.
Qed.

Lemma scene_switched (truckId : string) (target : loc) (s : State) :
  scene s ⊆ scene (switched truckId target s).
Proof.
  unfold switched.
  match goal with
  | |- context [set_current_visible true ?s0] =>
      destruct (set_current_visible_fields true s0) as (_ & _ & _ & ->)
  end.
  etransitivity; [|apply scene_add_current_to_scene].
  cbn [scene set_currentVan set_currentVanId].
  by destruct (set_current_visible_fields false s) as (_ & _ & _ & ->).
Qed.

(** The van that is switched to is in the scene afterwards. *)
Lemma switched_in_scene (truckId : string) (target : loc) (s : State) :
  SceneInv s -> is_Some (heap s !! target) ->
  target ∈ scene (switched truckId target s).
Proof.
  intros Hinv [i Hi].
  pose proof (SceneInv_switched truckId target s Hinv) as [_ Hpar _].
  apply Hpar. unfold switched.
  set (s1 := set_current_visible false s).
  assert (exists i1, heap s1 !! target = Some i1) as [i1 Hi1].
  { unfold s1, set_current_visible. destruct (currentVan s) as [c|].
    - destruct (set_visible_at_lookup c target false s i Hi) as (i' & Hi' & _).
      by exists i'.
    - by exists i. }
  set (s2 := set_currentVanId (Some truckId) (set_currentVan (Some target) s1)).
  assert (exists i3, heap (add_current_to_scene s2) !! target = Some i3
                     /\ parent i3 = Some TheScene) as (i3 & Hi3 & Hp3).
  { unfold add_current_to_scene.
    change (currentVan s2) with (Some target). cbv beta iota.
    change (heap s2) with (heap s1). rewrite Hi1.
    destruct (parent i1) as [[]|] eqn:Hp1.
    - by exists i1.
    - eexists. cbn [heap set_scene set_heap]. by rewrite lookup_insert_eq. }
  unfold set_current_visible.
  destruct (add_current_to_scene_fields s2) as (_ & -> & _).
  change (currentVan s2) with (Some target).
  destruct (set_visible_at_lookup target target true _ i3 Hi3)
    as (i4 & Hi4 & Hp4 & _).
  exists i4. split; [done|congruence].
Qed.

(** The van that is switched to is visible afterwards. *)
Lemma switched_visible (truckId : string) (target : loc) (s : State) :
  is_Some (heap s !! target) ->
  visible_at (switched truckId target s) target = true.
Proof.
  intros [i Hi]. unfold switched.
  set (s1 := set_current_visible false s).
  assert (exists i1, heap s1 !! target = Some i1) as [i1 Hi1].
  { unfold s1, set_current_visible. destruct (currentVan s) as [c|].
    - destruct (set_visible_at_lookup c target false s i Hi) as (i' & Hi' & _).
      by exists i'.
    - by exists i. }
  set (s2 := set_currentVanId (Some truckId) (set_currentVan (Some target) s1)).
  assert (is_Some (heap (add_current_to_scene s2) !! target)) as [i3 Hi3].
  { unfold add_current_to_scene.
    change (currentVan s2) with (Some target). cbv beta iota.
    change (heap s2) with (heap s1). rewrite Hi1.
    destruct (parent i1) as [[]|] eqn:Hp1.
    - by exists i1.
    - eexists. cbn [heap set_scene set_heap]. by rewrite lookup_insert_eq. }
  unfold set_current_visible.
  destruct (add_current_to_scene_fields s2) as (_ & -> & _).
  change (currentVan s2) with (Some target). cbv beta iota.
  rewrite visible_at_set_visible_at, decide_True by done. by rewrite Hi3.
Qed.

Lemma Attached_transition (s s' : State) :
  transition s s' -> SceneInv s -> Attached s -> Attached s'.
Proof.
  intros [b s0|truckId truckData s0 Hvan|truckData s0
         |truckId truckConfig truckData info s0 Hid
         |s0 s0' Hv Hc Hi Hh Hs Ha] Hscene Hatt; unfold Attached.
  - destruct (set_current_visible_fields b s0) as (Hf & _ & _ & ->).
    apply manager_fields_eq in Hf as (-> & _). exact Hatt.
  - rewrite vans_switched. intros i e Hi.
    by eapply scene_switched, Hatt.
  - exact Hatt.
  - destruct (stored_fields truckId truckConfig truckData info s0)
      as (-> & _).
    intros i e. rewrite lookup_insert. case_decide as Hi.
    + intros [= <-]. cbn [model]. unfold stored. apply switched_in_scene.
      * eapply SceneInv_same_heap; [| | |apply SceneInv_decoded, Hscene]; done.
      * cbn [heap set_vans]. rewrite decoded_lookup. by eexists.
    + intros He. unfold stored. eapply scene_switched.
      cbn [scene set_vans]. by eapply Hatt.
  - rewrite Hv, Hs. exact Hatt.
Qed.

Lemma Sound_transition (s s' : State) :
  transition s s' -> Sound s -> Sound s'.
Proof.
  intros Ht (Hinv & Hscene & Hcoh & Hnames & Hown & Hatt).
  split; [by eapply Inv_transition|].
  split; [by eapply SceneInv_transition|].
  split; [by eapply Coherent_transition|].
  split; [by eapply Names_transition|].
  split; [eapply Owner_transition; [done|apply Hinv|done]|].
  by eapply Attached_transition.
Qed.

(** [dispose] empties the cache and touches nothing else. *)
Lemma Sound_dispose (s : State) : Sound s -> Sound (set_vans ∅ s).
Proof.
  intros (Hinv & Hscene & [Hnone Hsome] & (Hkeys & Havail & Hcur) & Hown & Hatt).
  split; [|split; [|split; [|split; [|split]]]].
  - split; [split|]; intros ? *; cbn [vans set_vans]; by rewrite lookup_empty.
  - by eapply SceneInv_same_heap; [| | |exact Hscene].
  - split; [exact Hnone|]. intros i e _. cbn [vans set_vans].
    by rewrite lookup_empty.
  - split; [|done]. intros i e. cbn [vans set_vans]. by rewrite lookup_empty.
  - intros i e. cbn [vans set_vans]. by rewrite lookup_empty.
  - intros i e. cbn [vans set_vans]. by rewrite lookup_empty.
Qed.

Lemma Sound_transitions (s s' : State) :
  transitions s s' -> Sound s -> Sound s'.
Proof.
  induction 1 as [|s1 s2 s3 H12 _ IH]; [done|].
  intros H. by apply IH, (Sound_transition s1).
Qed.

Lemma Sound_new : Sound VanManager.new.
Proof.
  split; [apply Inv_new|]. split; [|split; [|split; [split; [|split]|split]]].
  - split.
    + apply NoDup_nil_2.
    + intros l. split; [by intros ?%elem_of_nil|].
      intros (i & Hi & _). cbn [heap VanManager.new] in Hi.
      by rewrite lookup_empty in Hi.
    + by intros l ?%elem_of_nil.
  - by split.
  - intros i e. cbn [vans VanManager.new]. by rewrite lookup_empty.
  - apply Forall_nil_2.
  - done.
  - intros i e. cbn [vans VanManager.new]. by rewrite lookup_empty.
  - intros i e. cbn [vans VanManager.new]. by rewrite lookup_empty.
Qed.

(** *** The loop *)

(** A suspended [loadVan] holds the identifier of a configuration that
    was found, which is not the empty string. *)
Definition task_ok (t : ApiTask) : Prop :=
  match t with
  | BaseTask (LoadVanTask truckId _) => truckId <> ""
  | _ => True
  end.

Definition LoopInv (lp : Loop) : Prop :=
  Sound (state lp) /\ Forall task_ok (tasks lp).

Lemma CONFIG_list_nonempty_ids : Forall (fun c => id c <> "") CONFIG.list.
Proof. by repeat constructor. Qed.

Lemma find_config_nonempty (truckId : string) (s : State)
    (truckConfig : VanConfig) :
  Names s -> find_config truckId s = Some truckConfig -> truckId <> "".
Proof.
  intros (_ & Havail & _) [<- [Hin|Hin]]%find_config_Some.
  - by apply (proj1 (Forall_forall _ _) CONFIG_list_nonempty_ids).
  - by apply (proj1 (Forall_forall _ _) Havail).
Qed.

Lemma LoopInv_call_loadVan (truckId : string) (lp : Loop) :
  LoopInv lp -> LoopInv (call (loadVan_api truckId) lp).
Proof.
  intros [Hsound Htasks].
  pose proof (Sound_transitions _ _ (transitions_loadVan truckId (state lp))
                Hsound) as Hsound'.
  unfold call, loadVan_api.
  destruct (vans (state lp) !! truckId) as [truckData|] eqn:Hvan.
  { rewrite (loadVan_cached _ _ _ Hvan) in Hsound' |- *. by split. }
  destruct (find_config truckId (state lp)) as [truckConfig|] eqn:Hcfg.
  - rewrite (loadVan_uncached _ _ _ Hvan Hcfg) in Hsound' |- *.
    split; [done|]. cbn [tasks of_step]. apply Forall_app. split; [done|].
    apply Forall_singleton. cbn.
    destruct Hsound as (_ & _ & _ & Hnames & _).
    by eapply find_config_nonempty.
  - rewrite (loadVan_not_found _ _ Hvan Hcfg) in Hsound' |- *. by split.
Qed.

Lemma Forall_delete_task (k : nat) (l : list ApiTask) :
  Forall task_ok l -> Forall task_ok (delete k l).
Proof.
  apply Forall_delete.
Qed.

Lemma LoopInv_resume {A} (k : nat) (m : M A) (lp : Loop) :
  transitions (state lp) (m (state lp)).2 ->
  LoopInv lp -> LoopInv (resume k m lp).
Proof.
  intros Ht [Hsound Htasks]. split.
  - by eapply Sound_transitions.
  - by apply Forall_delete_task.
Qed.

Lemma LoopInv_call_other {A} (m : M (ApiStep A)) (lp : Loop) :
  transitions (state lp) (m (state lp)).2 ->
  (forall t s', m (state lp) = (Ok (Waiting t), s') -> task_ok t) ->
  LoopInv lp -> LoopInv (call m lp).
Proof.
  intros Ht Hok [Hsound Htasks].
  pose proof (Sound_transitions _ _ Ht Hsound) as Hsound'.
  unfold call. destruct (m (state lp)) as [[[a|t]|e] s'] eqn:Hm; try by split.
  split; [done|]. cbn [tasks]. apply Forall_app. split; [done|].
  apply Forall_singleton. by eapply Hok.
Qed.

Lemma detectAvailableVans_task (s s' : State) (t : Task) :
  detectAvailableVans s = (Ok (Await t), s') -> t = DetectTask.
Proof.
  unfold detectAvailableVans, bind, gets, modify, ret.
  destruct (vansDetected s); [discriminate|]. by intros [= <- _].
Qed.

Lemma LoopInv_step (lp : Loop) (ev : Event) : LoopInv lp -> LoopInv (step lp ev).
Proof.
  intros Hlp. destruct ev as [truckId|vanNumber|truckId| | | | | | |k outcome|k net];
    cbn [step].
  - by apply LoopInv_call_loadVan.
  - apply LoopInv_call_other; [apply transitions_loadVanByNumber| |done].
    intros t s' Heq.
    destruct (vans (state lp) !! CONFIG.getVanId vanNumber) eqn:Hvan.
    + rewrite (loadVanByNumber_cached _ _ _ Hvan) in Heq. by simplify_eq.
    + rewrite (loadVanByNumber_uncached _ _ Hvan) in Heq. by simplify_eq.
  - destruct Hlp as [Hsound Htasks]. split; [|done].
    eapply Sound_transitions; [apply transitions_switchToVan|done].
  - apply LoopInv_call_other; [|
      |done].
    + unfold detect_api.
      pose proof (transitions_detect (state lp)) as Ht.
      by destruct (detectAvailableVans (state lp)) as [[?|?] ?].
    + intros t s'. unfold detect_api.
      destruct (detectAvailableVans (state lp)) as [[[?|t']|?] ?] eqn:Hd;
        try discriminate.
      apply detectAvailableVans_task in Hd as ->. by intros [= <- _].
  - destruct Hlp as [Hsound Htasks]. split; [|done].
    unfold run_sync. cbn [state]. by rewrite getAvailableVans_state.
  - apply LoopInv_call_other; [| |done].
    + rewrite getAvailableVansAsync_state. apply transitions_detect.
    + intros t s'. unfold getAvailableVansAsync, bind, gets, ret.
      destruct (vansDetected (state lp)); [by intros; simplify_eq|].
      destruct (detectAvailableVans (state lp)) as [[?|?] ?];
        intros; by simplify_eq.
  - destruct Hlp as [Hsound Htasks]. split; [|done].
    unfold run_sync. cbn [state]. by rewrite getCurrentVanInfo_state.
  - revert lp Hlp. induction preloadAllVans as [|i l IH]; intros lp Hlp; [done|].
    cbn [fold_left]. by apply IH, LoopInv_call_loadVan.
  - destruct Hlp as [Hsound Htasks]. split; [|done].
    by apply Sound_dispose.
  - destruct (tasks lp !! k) as [[[| |truckId truckConfig|]|vanNumber|]|] eqn:Hk;
      try done.
    + apply LoopInv_resume; [apply transitions_loadWheelModel_resume|done].
    + apply LoopInv_resume; [|done]. apply transitions_loadVan_resume.
      destruct Hlp as [_ Htasks].
      by apply (proj1 (Forall_lookup _ _) Htasks k _ Hk).
    + apply LoopInv_resume; [apply transitions_loadVanByNumber_resume|done].
  - destruct (tasks lp !! k) as [[[| |truckId truckConfig|]|vanNumber|]|] eqn:Hk;
      try done.
    + apply LoopInv_resume; [apply transitions_detect_resume|done].
    + apply LoopInv_resume; [|done].
      rewrite getAvailableVansAsync_resume_state. apply transitions_detect_resume.
Qed.

Lemma LoopInv_start : LoopInv start.
Proof.
  split; [|by repeat constructor].
  change (state start) with (loadWheelModel VanManager.new).2.
  eapply Sound_transitions; [|apply Sound_new].
  apply transitions_request.
Qed.

Lemma LoopInv_run (events : list Event) : LoopInv (run start events).
Proof.
  unfold run. generalize LoopInv_start. generalize start.
  induction events as [|ev events IH]; intros lp Hlp; [done|].
  cbn [fold_left]. by apply IH, LoopInv_step.
Qed.

End ApiInvariants.

(** ** Every step of the loop is a few steps of the manager *)

Section ApiSteps.
Import VanManager Api.
Context {library : Library}.

Lemma state_call {A} (m : M (ApiStep A)) (lp : Loop) :
  state (call m lp) = (m (state lp)).2.
Proof. unfold call. by destruct (m (state lp)) as [[[?|?]|?] ?]. Qed.

Lemma loadVan_api_state (truckId : string) (s : State) :
  (loadVan_api truckId s).2 = (loadVan truckId s).2.
Proof. unfold loadVan_api. by destruct (loadVan truckId s) as [[?|?] ?]. Qed.

Lemma detect_api_state (s : State) :
  (detect_api s).2 = (detectAvailableVans s).2.
Proof. unfold detect_api. by destruct (detectAvailableVans s) as [[?|?] ?]. Qed.

Lemma step_transitions (lp : Loop) (ev : Event) :
  Forall task_ok (tasks lp) -> ev <> CallDispose ->
  transitions (state lp) (state (step lp ev)).
Proof.
  intros Htasks Hev.
  destruct ev as [truckId|vanNumber|truckId| | | | | | |k outcome|k net];
    cbn [step]; rewrite ?state_call; try done.
  - rewrite loadVan_api_state. apply transitions_loadVan.
  - apply transitions_loadVanByNumber.
  - apply transitions_switchToVan.
  - rewrite detect_api_state. apply transitions_detect.
  - unfold run_sync. cbn [state]. rewrite getAvailableVans_state. apply ts_refl.
  - rewrite getAvailableVansAsync_state. apply transitions_detect.
  - unfold run_sync. cbn [state]. rewrite getCurrentVanInfo_state. apply ts_refl.
  - clear Htasks. revert lp.
    induction preloadAllVans as [|i l IH]; intros lp; [apply ts_refl|].
    cbn [fold_left]. eapply transitions_trans; [|apply IH].
    rewrite state_call, loadVan_api_state. apply transitions_loadVan.
  - destruct (tasks lp !! k) as [[[| |truckId truckConfig|]|vanNumber|]|] eqn:Hk;
      try apply ts_refl; unfold resume; cbn [state].
    + apply transitions_loadWheelModel_resume.
    + apply transitions_loadVan_resume.
      by apply (proj1 (Forall_lookup _ _) Htasks k _ Hk).
    + apply transitions_loadVanByNumber_resume.
  - destruct (tasks lp !! k) as [[[| |truckId truckConfig|]|vanNumber|]|] eqn:Hk;
      try apply ts_refl; unfold resume; cbn [state].
    + apply transitions_detect_resume.
    + rewrite getAvailableVansAsync_resume_state. apply transitions_detect_resume.
Qed.

(** Unless [dispose] is called, the current identifier is in the cache. *)
Definition Cached (s : State) : Prop :=
  forall truckId, currentVanId s = Some truckId -> is_Some (vans s !! truckId).

Lemma Cached_transition (s s' : State) :
  transition s s' -> Cached s -> Cached s'.
Proof.
  intros [b s0|truckId truckData s0 Hvan|truckData s0
         |truckId truckConfig truckData info s0 Hid
         |s0 s0' Hv Hc Hi Hh Hs Ha] Hcached; unfold Cached.
  - destruct (set_current_visible_fields b s0) as (Hf & _ & -> & _).
    apply manager_fields_eq in Hf as (-> & _). exact Hcached.
  - destruct (switched_fields truckId (model truckData) s0) as (Hf & _ & ->).
    apply manager_fields_eq in Hf as (-> & _). intros i [= <-]. by eexists.
  - exact Hcached.
  - destruct (stored_fields truckId truckConfig truckData info s0)
      as (-> & _ & _ & _ & ->).
    intros i [= <-]. rewrite lookup_insert_eq. by eexists.
  - rewrite Hv, Hi. exact Hcached.
Qed.

Lemma Cached_transitions (s s' : State) :
  transitions s s' -> Cached s -> Cached s'.
Proof.
  induction 1 as [|s1 s2 s3 H12 _ IH]; [done|].
  intros H. by apply IH, (Cached_transition s1).
Qed.

(** The state that a run of the loop reaches. *)
Definition reached (events : list Event) : State := state (run start events).

Lemma Sound_reached (events : list Event) : Sound (reached events).
Proof. apply LoopInv_run. Qed.

Lemma Cached_reached (events : list Event) :
  CallDispose ∉ events -> Cached (reached events).
Proof.
  unfold reached, run.
  assert (Hstart : Cached (state start)) by (by intros i [=]).
  revert Hstart. generalize LoopInv_start. generalize start.
  induction events as [|ev events IH]; intros lp Hlp Hc Hnot; [done|].
  cbn [fold_left]. apply IH.
  - by apply LoopInv_step.
  - eapply Cached_transitions; [|done]. apply step_transitions; [apply Hlp|].
    intros ->. apply Hnot. by left.
  - intros Hin. apply Hnot. by right.
Qed.

End ApiSteps.

(** ** The manager's properties *)

Section ManagerProperties.
Import VanManager Api.
Context {library : Library}.

(** Van 1 is requested and its load resolves. *)
Definition showing : list Event :=
  [ CallLoadVan "van-001"; Settle 1 (Ok (sample_data "van-001")) ].

(** Van 1 is shown, the cache is emptied. *)
Definition disposed : list Event := showing ++ [CallDispose].

(** In a sound state the visible entry is the one that
    [getCurrentVanInfo] returns. *)
Lemma Sound_visible_current (s : State) (truckId : string) (e : VanEntry) :
  Sound s -> vans s !! truckId = Some e -> entry_visible s e = true ->
  getCurrentVanInfo s = (Ok (Some e), s).
Proof.
  intros ([_ Hhid] & _ & _ & (Hkeys & _) & Hown & _) He Hv.
  unfold entry_visible in Hv.
  assert (Hcur : currentVan s = Some (model e)).
  { destruct (currentVan s) as [c|] eqn:Hc.
    - destruct (decide (c = model e)) as [->|Hne]; [done|].
      rewrite (Hhid truckId e He) in Hv; [done|]. cbn [option_list].
      by intros [?|[]%elem_of_nil]%elem_of_cons.
    - rewrite (Hhid truckId e He) in Hv; [done|]. by intros ?%elem_of_nil. }
  unfold getCurrentVanInfo, bind, gets, ret.
  rewrite (Hown truckId e He Hcur).
  destruct (String.eqb_spec truckId "") as [->|_]; [by destruct (Hkeys "" e)|].
  by rewrite He.
Qed.

(** What [getCurrentVanInfo] returns is stored under the current
    identifier. *)
Lemma getCurrentVanInfo_Some (s : State) (e : VanEntry) :
  (getCurrentVanInfo s).1 = Ok (Some e) ->
  exists truckId, currentVanId s = Some truckId /\ vans s !! truckId = Some e.
Proof.
  unfold getCurrentVanInfo, bind, gets, ret.
  destruct (currentVanId s) as [i|]; [|done].
  destruct (String.eqb i ""); [done|]. cbn. intros [= He]. by exists i.
Qed.

(** X8: with every method of the manager in play ([loadVan],
    [loadVanByNumber], [switchToVan], [preloadAllVans], [dispose], the
    prober and the listings), called in any order and with the loads
    settling in any order, at most one entry of the cache has a visible
    scene node after every event. *)
Theorem manager_at_most_one_visible (events : list Event) :
  at_most_one_visible (reached events).
Proof. apply Inv_at_most_one_visible, Sound_reached. Qed.

(** X9: after any run of the loop, a cached van that is visible is the
    one that [getCurrentVanInfo] returns. *)
Theorem visible_van_is_current (events : list Event) (truckId : string)
    (e : VanEntry) :
  vans (reached events) !! truckId = Some e ->
  entry_visible (reached events) e = true ->
  getCurrentVanInfo (reached events) = (Ok (Some e), reached events).
Proof. apply Sound_visible_current, Sound_reached. Qed.

(** X10: after any run of the loop, the entry that [getCurrentVanInfo]
    returns has the current van as its scene node, that node is in the
    scene, and no other entry of the cache is visible. *)
Theorem getCurrentVanInfo_current (events : list Event) (e : VanEntry) :
  (getCurrentVanInfo (reached events)).1 = Ok (Some e) ->
  currentVan (reached events) = Some (model e)
  /\ model e ∈ scene (reached events)
  /\ forall truckId' e',
       vans (reached events) !! truckId' = Some e' ->
       entry_visible (reached events) e' = true -> e' = e.
Proof.
  intros Hinfo. pose proof (Sound_reached events) as Hsound.
  destruct (getCurrentVanInfo_Some _ _ Hinfo) as (truckId & Hid & He).
  destruct Hsound as (_ & _ & [_ Hsome] & _ & _ & Hatt).
  split; [by apply (Hsome truckId)|]. split; [by apply (Hatt truckId)|].
  intros truckId' e' He' Hv'.
  rewrite (Sound_visible_current _ truckId' e' (Sound_reached events) He' Hv')
    in Hinfo.
  by injection Hinfo.
Qed.

(** X11: after any run of the loop, no object is in the scene twice,
    the scene node of every cached van is in the scene, and no object
    of the scene is visible but the current van: also the scene nodes
    that the cache has dropped, after [dispose] or a second load of the
    same identifier, stay hidden. *)
Theorem scene_only_current_visible (events : list Event) :
  NoDup (scene (reached events))
  /\ (forall truckId e,
        vans (reached events) !! truckId = Some e ->
        model e ∈ scene (reached events))
  /\ forall l,
       l ∈ scene (reached events) -> visible_at (reached events) l = true ->
       currentVan (reached events) = Some l.
Proof.
  destruct (Sound_reached events) as (_ & [Hdup _ Hvis] & _ & _ & _ & Hatt).
  by repeat split.
Qed.

(** X12: as long as [dispose] is not called, [getCurrentVanInfo]
    returns [null] exactly when no van has been shown yet. *)
Theorem getCurrentVanInfo_none_iff (events : list Event) :
  CallDispose ∉ events ->
  (getCurrentVanInfo (reached events)).1 = Ok None
  <-> currentVan (reached events) = None.
Proof.
  intros Hnot. pose proof (Cached_reached events Hnot) as Hcached.
  destruct (Sound_reached events) as (_ & _ & [Hnone _] & (_ & _ & Hcur) & _).
  rewrite Hnone. unfold getCurrentVanInfo, bind, gets, ret.
  destruct (currentVanId (reached events)) as [i|] eqn:Hi; [|done].
  destruct (String.eqb_spec i "") as [->|_]; [done|].
  destruct (Hcached i Hi) as [e He]. cbn. rewrite He. by split.
Qed.

(** Switching to a van that is in the scene adds nothing to the scene. *)
Lemma scene_switched_attached (truckId : string) (target : loc) (s : State) :
  SceneInv s -> target ∈ scene s -> scene (switched truckId target s) = scene s.
Proof.
  intros Hinv Hin. unfold switched.
  match goal with
  | |- context [set_current_visible true ?s0] =>
      destruct (set_current_visible_fields true s0) as (_ & _ & _ & ->)
  end.
  pose proof (SceneInv_set_current_visible false s Hinv) as [_ Hpar _].
  destruct (set_current_visible_fields false s) as (_ & _ & _ & Hscene).
  set (s1 := set_current_visible false s) in *.
  rewrite <- Hscene in Hin. apply Hpar in Hin as (i & Hi & Hp).
  unfold add_current_to_scene. cbn [currentVan heap set_currentVan set_currentVanId].
  rewrite Hi, Hp. exact Hscene.
Qed.

(** What is in the scene and is not the current van is hidden. *)
Lemma Sound_others_hidden (s : State) (c l : loc) :
  Sound s -> currentVan s = Some c -> l ∈ scene s -> l <> c ->
  visible_at s l = false.
Proof.
  intros (_ & [_ _ Hvis] & _) Hc Hl Hne.
  destruct (visible_at s l) eqn:Hv; [|done].
  specialize (Hvis l Hl Hv). congruence.
Qed.

(** X13: after any run of the loop, [loadVan] on a cached identifier
    returns the cached entry at once: it sends no request and adds
    nothing to the cache or the scene; afterwards that van is visible,
    every other object of the scene is hidden, and [getCurrentVanInfo]
    returns the entry. *)
Theorem loadVan_cached_shows (events : list Event) (truckId : string)
    (e : VanEntry) :
  vans (reached events) !! truckId = Some e ->
  exists s',
    loadVan truckId (reached events) = (Ok (Return (Some e)), s')
    /\ requests s' = requests (reached events)
    /\ vans s' = vans (reached events)
    /\ scene s' = scene (reached events)
    /\ visible_at s' (model e) = true
    /\ (forall l, l ∈ scene s' -> l <> model e -> visible_at s' l = false)
    /\ getCurrentVanInfo s' = (Ok (Some e), s').
Proof.
  intros He. pose proof (Sound_reached events) as Hsound.
  set (s := reached events) in *.
  pose proof (Sound_transitions _ _ (transitions_loadVan truckId s) Hsound)
    as Hsound'.
  rewrite (loadVan_cached _ _ _ He) in Hsound' |- *. cbn [snd] in Hsound'.
  eexists. split; [reflexivity|].
  pose proof (Sound_transition _ _ (t_visible false s) Hsound) as Hsound1.
  destruct (set_current_visible_fields false s) as (Hf1 & _ & _ & Hscene1).
  apply manager_fields_eq in Hf1 as (Hv1 & _ & _ & Hr1).
  set (s1 := set_current_visible false s) in *.
  destruct (switched_fields truckId (model e) s1) as (Hf & Hc & Hi).
  apply manager_fields_eq in Hf as (Hv & _ & _ & Hr).
  assert (Hvisible : visible_at (switched truckId (model e) s1) (model e) = true).
  { apply switched_visible.
    destruct Hsound1 as ([[_ Halloc] _] & _). apply (Halloc truckId).
    by rewrite Hv1. }
  split; [congruence|]. split; [congruence|]. split.
  { rewrite <- Hscene1. apply scene_switched_attached; [apply Hsound1|].
    destruct Hsound1 as (_ & _ & _ & _ & _ & Hatt). apply (Hatt truckId).
    by rewrite Hv1. }
  split; [exact Hvisible|]. split.
  - intros l Hl Hne. by eapply Sound_others_hidden.
  - apply (Sound_visible_current _ truckId); [done| |done].
    by rewrite Hv, Hv1.
Qed.

(** The scene after a freshly decoded van is stored and switched to. *)
Lemma stored_scene (truckId : string) (truckConfig : VanConfig)
    (truckData : ModelData) (meta : ModelInfo) (s : State) :
  scene (stored truckId truckConfig truckData meta s)
  = (scene s ++ [fresh (dom (heap s))])%list.
Proof.
  unfold stored, switched.
  match goal with
  | |- context [set_current_visible true ?s0] =>
      destruct (set_current_visible_fields true s0) as (_ & _ & _ & ->)
  end.
  match goal with
  | |- context [set_current_visible false ?s0] =>
      destruct (set_current_visible_fields false s0) as (_ & _ & _ & Hscene);
      assert (exists i, heap (set_current_visible false s0)
                          !! fresh (dom (heap s)) = Some i
                        /\ parent i = None) as (i & Hi & Hp);
      [|set (s1 := set_current_visible false s0) in *]
  end.
  { unfold set_current_visible.
    match goal with
    | |- context [currentVan ?s0] => destruct (currentVan s0) as [c|]
    end.
    - match goal with
      | |- context [set_visible_at c false ?s0] =>
          destruct (set_visible_at_lookup c (fresh (dom (heap s))) false s0
                      (mkInstance (with_wheels truckData s) None))
            as (i' & Hi' & Hp' & _);
          [cbn [heap set_vans]; apply decoded_lookup|]
      end.
      by exists i'.
    - eexists. split; [cbn [heap set_vans]; apply decoded_lookup|done]. }
  unfold add_current_to_scene.
  cbn [currentVan heap set_currentVan set_currentVanId].
  rewrite Hi, Hp. cbn [scene set_scene set_heap set_currentVan set_currentVanId].
  by rewrite Hscene.
Qed.

(** X14: after any run of the loop, when the load that
    [loadVanByNumber] waits for resolves (and the metadata can be
    computed), the call returns a new entry with the synthesized
    configuration and that metadata; the entry is stored under the
    identifier of the number, its scene node is added at the end of the
    scene and is visible, every other object of the scene is hidden, and
    [getCurrentVanInfo] returns the entry. *)
Theorem loadVanByNumber_resolved_shows (events : list Event) (vanNumber : nat)
    (vanData : ModelData) (meta : ModelInfo) :
  ModelLoader.getModelInfo (with_wheels vanData (reached events)) = Ok meta ->
  exists e s',
    loadVanByNumber_resume vanNumber (Ok vanData) (reached events)
    = (Ok (Some e), s')
    /\ config e = numbered_config vanNumber
    /\ info e = meta
    /\ vans s' = <[CONFIG.getVanId vanNumber := e]> (vans (reached events))
    /\ scene s' = (scene (reached events) ++ [model e])%list
    /\ requests s' = requests (reached events)
    /\ visible_at s' (model e) = true
    /\ (forall l, l ∈ scene s' -> l <> model e -> visible_at s' l = false)
    /\ getCurrentVanInfo s' = (Ok (Some e), s').
Proof.
  intros Hinfo. pose proof (Sound_reached events) as Hsound.
  set (s := reached events) in *.
  pose proof (Sound_transitions _ _
                (transitions_loadVanByNumber_resume vanNumber (Ok vanData) s)
                Hsound) as Hsound'.
  rewrite (loadVanByNumber_resume_resolved _ _ _ _ Hinfo) in Hsound' |- *.
  cbn [snd] in Hsound'.
  eexists _, _. split; [reflexivity|]. cbn [config info model].
  destruct (stored_fields (CONFIG.getVanId vanNumber) (numbered_config vanNumber)
              vanData meta s) as (Hv & _ & Hr & Hc & Hi).
  assert (Hvisible :
    visible_at (stored (CONFIG.getVanId vanNumber) (numbered_config vanNumber)
                  vanData meta s) (fresh (dom (heap s))) = true).
  { unfold stored. apply switched_visible. cbn [heap set_vans].
    rewrite decoded_lookup. by eexists. }
  split; [done|]. split; [done|]. split; [exact Hv|].
  split; [apply stored_scene|]. split; [exact Hr|]. split; [exact Hvisible|].
  split.
  - intros l Hl Hne. by eapply Sound_others_hidden.
  - apply (Sound_visible_current _ (CONFIG.getVanId vanNumber)); [done| |done].
    rewrite Hv. apply lookup_insert_eq.
Qed.

(** X15: [loadVanByNumber] on a number that is not cached sends one
    request, for the path that the prober checks for that number, and
    touches nothing else: unlike [loadVan] it does not hide the current
    van.  When the load rejects, the rejection is thrown on and the
    state stays as it is. *)
Theorem loadVanByNumber_failure_keeps (vanNumber : nat) (error : Error)
    (s : State) :
  vans s !! CONFIG.getVanId vanNumber = None ->
  exists s1,
    loadVanByNumber vanNumber s
    = (Ok (Waiting (LoadVanByNumberTask vanNumber)), s1)
    /\ requests s1
       = (requests s
          ++ [GET (vanPath vanNumber)
                (mkLoadOptions CONFIG.defaultScale CONFIG.defaultPosition
                   (mkVector3 0 CONFIG.PI 0))])%list
    /\ heap s1 = heap s /\ scene s1 = scene s /\ vans s1 = vans s
    /\ currentVan s1 = currentVan s /\ currentVanId s1 = currentVanId s
    /\ loadVanByNumber_resume vanNumber (Throw error) s1 = (Throw error, s1).
Proof.
  intros Hvan. rewrite (loadVanByNumber_uncached _ _ Hvan).
  eexists. split; [reflexivity|]. by repeat split.
Qed.

End ManagerProperties.

Section ManagerSamples.
Import VanManager Api.
#[local] Existing Instance sample_library.

Lemma visible_van_is_current_witness :
  exists e,
    vans (reached showing) !! "van-001" = Some e
    /\ getCurrentVanInfo (reached showing) = (Ok (Some e), reached showing).
Proof.
  assert (H : exists e, vans (reached showing) !! "van-001" = Some e
                        /\ entry_visible (reached showing) e = true).
  { eexists. split; vm_compute; reflexivity. }
  destruct H as (e & He & Hv). exists e. split; [exact He|].
  exact (visible_van_is_current showing "van-001" e He Hv).
Defined.

Lemma getCurrentVanInfo_current_witness :
  exists e,
    (getCurrentVanInfo (reached showing)).1 = Ok (Some e)
    /\ currentVan (reached showing) = Some (model e).
Proof.
  assert (H : exists e, (getCurrentVanInfo (reached showing)).1 = Ok (Some e)).
  { eexists. vm_compute. reflexivity. }
  destruct H as (e & He). exists e. split; [exact He|].
  exact (proj1 (getCurrentVanInfo_current showing e He)).
Defined.

(** Van 1 is shown, the cache is emptied, van 1 is loaded again: the
    first scene node stays in the scene, hidden, beside the second. *)
Example reloaded_after_dispose :
  let s := reached (disposed ++ [ CallLoadVan "van-001";
                                  Settle 1 (Ok (sample_data "van-001")) ]) in
  scene s = [0; 1]%nat
  /\ visible_at s 0 = false /\ visible_at s 1 = true
  /\ currentVan s = Some 1%nat /\ dom (vans s) = {["van-001"]}.
Proof. compute_conj. Qed.

Lemma getCurrentVanInfo_none_iff_witness :
  (CallDispose ∉ showing)
  /\ ((getCurrentVanInfo (reached showing)).1 = Ok None
      <-> currentVan (reached showing) = None).
Proof.
  assert (H : CallDispose ∉ showing).
  { intros [|[|[]%elem_of_nil]%elem_of_cons]%elem_of_cons; discriminate. }
  split; [exact H|]. exact (getCurrentVanInfo_none_iff showing H).
Defined.

(** After [dispose] the van that was shown is still the current van,
    visible and in the scene, but [getCurrentVanInfo] no longer finds
    it. *)
Example disposed_van_stays_visible :
  (getCurrentVanInfo (reached disposed)).1 = Ok None
  /\ currentVan (reached disposed) = Some 0%nat
  /\ visible_at (reached disposed) 0 = true
  /\ scene (reached disposed) = [0%nat].
Proof. compute_conj. Qed.

Lemma loadVan_cached_shows_witness :
  exists e s',
    vans (reached showing) !! "van-001" = Some e
    /\ loadVan "van-001" (reached showing) = (Ok (Return (Some e)), s')
    /\ requests s' = requests (reached showing)
    /\ visible_at s' (model e) = true.
Proof.
  assert (H : exists e, vans (reached showing) !! "van-001" = Some e).
  { eexists. vm_compute. reflexivity. }
  destruct H as (e & He).
  destruct (loadVan_cached_shows showing "van-001" e He)
    as (s' & Hcall & Hreq & _ & _ & Hvis & _).
  exists e, s'. by repeat split.
Defined.

Lemma loadVanByNumber_resolved_shows_witness :
  exists e s',
    loadVanByNumber_resume 2 (Ok (sample_data "van-002")) (reached showing)
    = (Ok (Some e), s')
    /\ vans s' = <[CONFIG.getVanId 2 := e]> (vans (reached showing))
    /\ visible_at s' (model e) = true.
Proof.
  assert (H : exists meta,
             ModelLoader.getModelInfo
               (with_wheels (sample_data "van-002") (reached showing))
             = Ok meta).
  { eexists. vm_compute. reflexivity. }
  destruct H as (meta & Hmeta).
  destruct (loadVanByNumber_resolved_shows showing 2 (sample_data "van-002")
              meta Hmeta)
    as (e & s' & Hres & _ & _ & Hv & _ & _ & Hvis & _).
  exists e, s'. by repeat split.
Defined.

Lemma loadVanByNumber_failure_keeps_witness :
  exists s1,
    loadVanByNumber 2 (reached showing)
    = (Ok (Waiting (LoadVanByNumberTask 2)), s1)
    /\ heap s1 = heap (reached showing)
    /\ loadVanByNumber_resume 2 (Throw (LoaderError "404")) s1
       = (Throw (LoaderError "404"), s1).
Proof.
  destruct (loadVanByNumber_failure_keeps 2 (LoaderError "404") (reached showing))
    as (s1 & Hcall & _ & Hheap & _ & _ & _ & _ & Hback);
    [vm_compute; reflexivity|].
  exists s1. by repeat split.
Defined.

End ManagerSamples.

(** ** The listing and the requests of [loadVan] *)

Section ListingProperties.
Import VanManager Api.
Context {library : Library}.

(** The detected vans are those of a completed probe, if any. *)
Definition Probed (s : State) : Prop :=
  availableVans s = []
  \/ exists net, availableVans s = candidate <$> survivors net.

Lemma Probed_transition (s s' : State) :
  transition s s' -> Probed s -> Probed s'.
Proof.
  intros [b s0|truckId truckData s0 Hvan|truckData s0
         |truckId truckConfig truckData info s0 Hid
         |s0 s0' Hv Hc Hi Hh Hs Ha] Hprobed; unfold Probed.
  - destruct (set_current_visible_fields b s0) as (Hf & _).
    by apply manager_fields_eq in Hf as (_ & -> & _).
  - destruct (switched_fields truckId (model truckData) s0) as (Hf & _).
    by apply manager_fields_eq in Hf as (_ & -> & _).
  - exact Hprobed.
  - by destruct (stored_fields truckId truckConfig truckData info s0)
      as (_ & -> & _).
  - destruct Ha as [->|Hnet]; [exact Hprobed|by right].
Qed.

Lemma Probed_transitions (s s' : State) :
  transitions s s' -> Probed s -> Probed s'.
Proof.
  induction 1 as [|s1 s2 s3 H12 _ IH]; [done|].
  intros H. by apply IH, (Probed_transition s1).
Qed.

Lemma Probed_reached (events : list Event) : Probed (reached events).
Proof.
  unfold reached, run.
  assert (Hstart : Probed (state start)) by (by left).
  revert Hstart. generalize LoopInv_start. generalize start.
  induction events as [|ev events IH]; intros lp Hlp Hp; [done|].
  cbn [fold_left]. apply IH; [by apply LoopInv_step|].
  assert (Hev : ev = CallDispose \/ ev <> CallDispose)
    by (destruct ev; (by left) || (by right)).
  destruct Hev as [->|Hev]; [exact Hp|].
  eapply Probed_transitions; [|done]. apply step_transitions; [apply Hlp|done].
Qed.

(** The identifiers of the first hundred numbers are pairwise distinct. *)
Lemma getVanId_inj (i j : nat) :
  i ∈ seq 1 checkCount -> j ∈ seq 1 checkCount ->
  CONFIG.getVanId i = CONFIG.getVanId j -> i = j.
Proof.
  intros Hi Hj Heq.
  assert (Hall : forallb
            (fun i => forallb
               (fun j => implb (String.eqb (CONFIG.getVanId i) (CONFIG.getVanId j))
                           (i =? j)%nat)
               (seq 1 checkCount))
            (seq 1 checkCount) = true) by (vm_compute; reflexivity).
  rewrite forallb_forall in Hall.
  specialize (Hall i (proj1 (list_elem_of_In _ _) Hi)).
  rewrite forallb_forall in Hall.
  specialize (Hall j (proj1 (list_elem_of_In _ _) Hj)).
  apply String.eqb_eq in Heq. rewrite Heq in Hall. by apply Nat.eqb_eq.
Qed.

Lemma survivors_checked (net : string -> FetchOutcome) (i : nat) :
  i ∈ survivors net -> i ∈ seq 1 checkCount.
Proof. unfold survivors. by intros [_ ?]%list_elem_of_filter. Qed.

Lemma survivors_NoDup (net : string -> FetchOutcome) : NoDup (survivors net).
Proof. apply NoDup_filter, NoDup_seq. Qed.

Lemma candidates_NoDup (net : string -> FetchOutcome) :
  NoDup (id <$> (candidate <$> survivors net)).
Proof.
  rewrite <- list_fmap_compose.
  apply NoDup_fmap_2_strong; [|apply survivors_NoDup].
  intros i j Hi Hj Heq. apply getVanId_inj; [by eapply survivors_checked..|done].
Qed.

(** The value of [getAvailableVans]. *)
Lemma getAvailableVans_value (s : State) :
  exists l,
    getAvailableVans s = (Ok l, s)
    /\ l <> []
    /\ (l = CONFIG.list \/ l = availableVans s).
Proof.
  unfold getAvailableVans, bind, gets, ret.
  destruct (vansDetected s), (availableVans s) as [|v l];
    cbn [andb length Nat.ltb Nat.leb]; eexists; (split; [reflexivity|]);
    split; try done; auto.
Qed.

(** [find] finds an identifier that is in the list. *)
Lemma find_by_id_is_Some (c : VanConfig) (l : list VanConfig) :
  c ∈ l -> is_Some (find_by_id (id c) l).
Proof.
  unfold find_by_id. induction 1 as [c l|c c' l _ IH]; cbn [find].
  - rewrite String.eqb_refl. by eexists.
  - by destruct (String.eqb (id c') (id c)).
Qed.

Lemma find_config_listed (s : State) (c : VanConfig) :
  c ∈ CONFIG.list \/ c ∈ availableVans s ->
  exists truckConfig,
    find_config (id c) s = Some truckConfig /\ id truckConfig = id c.
Proof.
  intros Hin. unfold find_config.
  destruct (find_by_id (id c) CONFIG.list) as [c'|] eqn:Hc.
  - exists c'. split; [done|]. by apply find_by_id_Some in Hc as [? _].
  - destruct Hin as [Hin|Hin].
    + apply find_by_id_is_Some in Hin as [? Hin]. congruence.
    + apply find_by_id_is_Some in Hin as [c' Hin]. exists c'.
      split; [done|]. by apply find_by_id_Some in Hin as [? _].
Qed.

(** [loadVan] on an identifier that has a configuration does not throw
    before it awaits. *)
Lemma loadVan_known (truckId : string) (truckConfig : VanConfig) (s : State) :
  find_config truckId s = Some truckConfig ->
  exists st s', loadVan truckId s = (Ok st, s').
Proof.
  intros Hcfg. destruct (vans s !! truckId) as [truckData|] eqn:Hvan.
  - rewrite (loadVan_cached _ _ _ Hvan). by eexists _, _.
  - rewrite (loadVan_uncached _ _ _ Hvan Hcfg). by eexists _, _.
Qed.

(** X16: after any run of the loop, [getAvailableVans] returns a list
    that is not empty, in which no identifier occurs twice, and on each
    of whose identifiers [loadVan] finds a configuration: it does not
    throw the not-found error, it returns a cached entry or awaits a
    load. *)
Theorem listing_loadable (events : list Event) :
  exists l,
    getAvailableVans (reached events) = (Ok l, reached events)
    /\ l <> []
    /\ NoDup (id <$> l)
    /\ forall c, c ∈ l ->
         exists st s', loadVan (id c) (reached events) = (Ok st, s').
Proof.
  destruct (getAvailableVans_value (reached events)) as (l & Hget & Hne & Hl).
  exists l. split; [exact Hget|]. split; [exact Hne|]. split.
  - destruct Hl as [->| ->]; [by repeat constructor; set_solver|].
    destruct (Probed_reached events) as [->|[net ->]];
      [apply NoDup_nil_2|apply candidates_NoDup].
  - intros c Hc.
    destruct (find_config_listed (reached events) c) as (cfg & Hcfg & _).
    { destruct Hl as [->| ->]; auto. }
    by eapply loadVan_known.
Qed.

(** The options that a load is requested with when the configuration
    gives none. *)
Definition defaultOptions : LoadOptions :=
  {| opt_scale := CONFIG.defaultScale;
     opt_position := CONFIG.defaultPosition;
     opt_rotation := mkVector3 0 CONFIG.PI 0 |}.

(** Every configuration that [loadVan] can find names the file after the
    identifier and asks for the default placement. *)
Lemma load_request_known (c : VanConfig) (l : list nat) :
  c ∈ CONFIG.list \/ c ∈ candidate <$> l ->
  load_request c = GET (CONFIG.basePath +:+ id c +:+ ".glb") defaultOptions.
Proof.
  intros [Hc|Hc].
  - apply list_elem_of_singleton in Hc as ->. vm_compute. reflexivity.
  - apply list_elem_of_fmap in Hc as (i & -> & _).
    unfold load_request, defaultOptions.
    change (filename (candidate i)) with (id (candidate i) +:+ ".glb").
    f_equal; vm_compute; reflexivity.
Qed.

(** X17: after any run of the loop, the one request that [loadVan] sends
    before it awaits is for the file named after the identifier,
    "models/vans/<id>.glb", with the default scale, position and
    rotation, whichever list the configuration came from. *)
Theorem loadVan_request (events : list Event) (truckId : string)
    (truckConfig : VanConfig) (s' : State) :
  loadVan truckId (reached events)
  = (Ok (Await (LoadVanTask truckId truckConfig)), s') ->
  requests s'
  = (requests (reached events)
     ++ [GET (CONFIG.basePath +:+ truckId +:+ ".glb") defaultOptions])%list.
Proof.
  set (s := reached events). intros Hcall.
  destruct (vans s !! truckId) as [truckData|] eqn:Hvan.
  { by rewrite (loadVan_cached _ _ _ Hvan) in Hcall. }
  destruct (find_config truckId s) as [cfg|] eqn:Hcfg.
  2:{ by rewrite (loadVan_not_found _ _ Hvan Hcfg) in Hcall. }
  rewrite (loadVan_uncached _ _ _ Hvan Hcfg) in Hcall.
  injection Hcall as <- <-.
  destruct (find_config_Some _ _ _ Hcfg) as [Hid Hin].
  assert (Hreq : load_request cfg
                 = GET (CONFIG.basePath +:+ id cfg +:+ ".glb") defaultOptions).
  { destruct Hin as [Hin|Hin]; [by apply (load_request_known _ []); left|].
    destruct (Probed_reached events) as [Hnone|[net Hnet]].
    - fold s in Hnone. rewrite Hnone in Hin. by apply elem_of_nil in Hin.
    - fold s in Hnet. rewrite Hnet in Hin.
      apply (load_request_known _ (survivors net)). by right. }
  rewrite Hid in Hreq.
  unfold request. cbn [requests set_requests]. rewrite Hreq. f_equal.
  unfold set_current_visible. by destruct (currentVan s).
Qed.

End ListingProperties.

Section ListingSamples.
Import VanManager Api.
#[local] Existing Instance sample_library.

(** The prober has run and found vans 1 and 3. *)
Definition probing : list Event := [ CallDetect; SettleChecks 1 sample_net ].

Lemma loadVan_request_witness :
  exists s',
    loadVan "van-003" (reached probing)
    = (Ok (Await (LoadVanTask "van-003" (candidate 3))), s')
    /\ requests s'
       = (requests (reached probing)
          ++ [GET "models/vans/van-003.glb" defaultOptions])%list.
Proof.
  assert (H : exists s',
             loadVan "van-003" (reached probing)
             = (Ok (Await (LoadVanTask "van-003" (candidate 3))), s')).
  { eexists. vm_compute. reflexivity. }
  destruct H as (s' & H). exists s'. split; [exact H|].
  exact (loadVan_request probing "van-003" (candidate 3) s' H).
Defined.

End ListingSamples.

(** ** The merged listing *)

Section Merge.
Import VanManager Api.

(** [allVans.set(van.id, van)] for every van of a list. *)
Definition set_all (l : list VanConfig) (entries : list (string * VanConfig))
    : list (string * VanConfig) :=
  fold_left (fun allVans van => map_set (id van) van allVans) l entries.

(** [allVans.get(key)] *)
Definition map_get (key : string) (entries : list (string * VanConfig))
    : option VanConfig :=
  snd <$> List.find (fun kv => String.eqb kv.1 key) entries.

(** The last van of a list that has a given identifier. *)
Definition last_with_id (key : string) (l : list VanConfig) : option VanConfig :=
  List.find (fun van => String.eqb (id van) key) (reverse l).

Lemma merge_set_all (configVans availableVans : list VanConfig) :
  merge configVans availableVans
  = snd <$> set_all (configVans ++ availableVans) [].
Proof. unfold merge, set_all. by rewrite fold_left_app. Qed.

Lemma set_all_snoc (l : list VanConfig) (van : VanConfig)
    (entries : list (string * VanConfig)) :
  set_all (l ++ [van]) entries = map_set (id van) van (set_all l entries).
Proof. unfold set_all. by rewrite fold_left_app. Qed.

Lemma map_get_map_set (key key' : string) (value : VanConfig)
    (entries : list (string * VanConfig)) :
  map_get key' (map_set key value entries)
  = if String.eqb key key' then Some value else map_get key' entries.
Proof.
  unfold map_get. induction entries as [|[k v] entries IH]; cbn [map_set find fst].
  - by destruct (String.eqb key key').
  - destruct (String.eqb_spec k key) as [->|Hk]; cbn [find fst].
    + by destruct (String.eqb key key').
    + destruct (String.eqb_spec k key') as [->|Hk']; [|exact IH].
      destruct (String.eqb_spec key key') as [->|_]; done.
Qed.

Lemma keys_map_set (key : string) (value : VanConfig)
    (entries : list (string * VanConfig)) :
  (map_set key value entries).*1
  = if decide (key ∈ entries.*1) then entries.*1
    else (entries.*1 ++ [key])%list.
Proof.
  induction entries as [|[k v] entries IH]; cbn [map_set fmap list_fmap fst].
  - rewrite decide_False; [done|]. by intros ?%elem_of_nil.
  - destruct (String.eqb_spec k key) as [->|Hk].
    + rewrite decide_True; [done|]. by left.
    + cbn [fmap list_fmap fst app]. change (list_fmap _ _ fst ?l) with (l.*1).
      rewrite IH. destruct (decide (key ∈ entries.*1)) as [Hin|Hin].
      * rewrite decide_True; [done|]. by right.
      * rewrite decide_False; [done|].
        intros [?|?]%elem_of_cons; [congruence|done].
Qed.

(** The keys are the identifiers of the values. *)
Definition keyed (entries : list (string * VanConfig)) : Prop :=
  Forall (fun kv => kv.1 = id kv.2) entries.

Lemma keyed_map_set (van : VanConfig) (entries : list (string * VanConfig)) :
  keyed entries -> keyed (map_set (id van) van entries).
Proof.
  unfold keyed. induction 1 as [|[k v] entries Hkv Hent IH]; cbn [map_set].
  - by repeat constructor.
  - destruct (String.eqb k (id van)); constructor; done.
Qed.

Lemma keyed_set_all (l : list VanConfig) : keyed (set_all l []).
Proof.
  induction l as [|van l IH] using rev_ind; [constructor|].
  rewrite set_all_snoc. by apply keyed_map_set.
Qed.

Lemma keys_set_all (l : list VanConfig) :
  (set_all l []).*1 = reverse (remove_dups (reverse (id <$> l))).
Proof.
  induction l as [|van l IH] using rev_ind; [done|].
  rewrite set_all_snoc, keys_map_set, IH, fmap_app, reverse_app.
  change (reverse (id <$> [van])) with [id van]. cbn [app remove_dups].
  destruct (decide_rel elem_of (id van) (reverse (id <$> l))) as [Hin|Hin].
  - rewrite decide_True; [done|].
    by rewrite elem_of_reverse, elem_of_remove_dups.
  - rewrite decide_False, reverse_cons; [done|].
    by rewrite elem_of_reverse, elem_of_remove_dups.
Qed.

Lemma map_get_set_all (key : string) (l : list VanConfig) :
  map_get key (set_all l []) = last_with_id key l.
Proof.
  unfold last_with_id. induction l as [|van l IH] using rev_ind; [done|].
  rewrite set_all_snoc, map_get_map_set, reverse_app, IH. done.
Qed.

(** In a map without a repeated key, the values are what [get] finds. *)
Lemma elem_of_values (entries : list (string * VanConfig)) (van : VanConfig) :
  keyed entries -> NoDup entries.*1 ->
  van ∈ entries.*2 <-> map_get (id van) entries = Some van.
Proof.
  unfold keyed, map_get.
  induction entries as [|[k v] entries IH]; intros Hkeyed Hdup.
  - split; [by intros ?%elem_of_nil|done].
  - apply Forall_cons in Hkeyed as [Hkv Hkeyed]. cbn [fst snd] in Hkv. subst k.
    apply NoDup_cons in Hdup as [Hnotin Hdup]. cbn [fmap list_fmap fst snd] in *.
    change (list_fmap _ _ fst ?l) with (l.*1) in *.
    change (list_fmap _ _ snd ?l) with (l.*2) in *.
    cbn [find fst]. destruct (String.eqb_spec (id v) (id van)) as [Heq|Hne].
    + cbn [fmap option_fmap option_map snd]. split.
      * intros [->|Hin]%elem_of_cons; [done|]. exfalso. apply Hnotin.
        rewrite Heq. apply (IH Hkeyed Hdup) in Hin.
        destruct (find _ entries) as [[k' v']|] eqn:Hfind; [|done].
        apply find_some in Hfind as [Hin' Hk']. cbn [fst] in Hk'.
        apply String.eqb_eq in Hk'. subst k'.
        apply list_elem_of_fmap. exists (id van, v'). split; [done|].
        by apply list_elem_of_In.
      * intros [= ->]. by left.
    + rewrite <- (IH Hkeyed Hdup). split.
      * intros [->|Hin]%elem_of_cons; done.
      * by right.
Qed.

(** X18: the list that [getAvailableVansAsync] builds from the
    configured and the detected vans holds no identifier twice; the
    identifiers are in the order of their first occurrence, configured
    vans first; and a van is in the list exactly when it is the last
    van with its identifier, so that a detected van replaces a
    configured one of the same identifier, at the configured one's
    place. *)
Theorem merge_listing (configVans availableVans : list VanConfig) :
  NoDup (id <$> merge configVans availableVans)
  /\ id <$> merge configVans availableVans
     = reverse (remove_dups (reverse (id <$> (configVans ++ availableVans)%list)))
  /\ forall van,
       van ∈ merge configVans availableVans
       <-> last_with_id (id van) (configVans ++ availableVans) = Some van.
Proof.
  rewrite merge_set_all. set (l := (configVans ++ availableVans)%list).
  assert (Hids : id <$> (set_all l []).*2 = (set_all l []).*1).
  { pose proof (keyed_set_all l) as Hkeyed. unfold keyed in Hkeyed.
    induction Hkeyed as [|[k v] entries Hkv _ IH]; [done|].
    cbn [fmap list_fmap fst snd] in *. by rewrite IH, Hkv. }
  assert (Hdup : NoDup (set_all l []).*1).
  { rewrite keys_set_all, reverse_Permutation. apply NoDup_remove_dups. }
  split; [by rewrite Hids|]. split; [by rewrite Hids, keys_set_all|].
  intros van. rewrite <- map_get_set_all.
  apply elem_of_values; [apply keyed_set_all|exact Hdup].
Qed.

(** The configured van 1 and a detected van 1: the detected one is
    listed, first, and van 3 after it. *)
Example merge_sample :
  merge CONFIG.list [candidate 1; candidate 3] = [candidate 1; candidate 3].
Proof. vm_compute. reflexivity. Qed.

End Merge.

(** ** [UIController.js]: the arrows *)

Module UIController.
Import VanManager Api.

(** [array.findIndex(predicate)]: the first index whose element
    satisfies the predicate, -1 when there is none. *)
Fixpoint findIndex {A} (predicate : A -> bool) (array : list A) : Z :=
  match array with
  | [] => -1
  | a :: array =>
      if predicate a then 0
      else
        let i := findIndex predicate array in
        if (i <? 0)%Z then (-1)%Z else (i + 1)%Z
  end.

(** [vans[i].id]: [vans[i]] is undefined outside the array, and reading
    a property of undefined throws. *)
Definition id_at (vans : list VanConfig) (i : Z) : M string :=
  match (if (i <? 0)%Z then None else vans !! Z.to_nat i) with
  | Some van => ret (id van)
  | None => throw TypeError
  end.

(** How [onVanSelect] ends: the panel is updated with the van, or the
    error is shown. *)
Inductive Selected :=
  | Shown (vanData : option VanEntry)
  | Failed (error : Error).

(** [onVanSelect(vanId)] up to its [await], as far as the manager is
    concerned: [loadVan] is called, and whatever it throws is caught. *)
Definition onVanSelect (vanId : string) : M (ApiStep Selected) :=
  fun s =>
    match loadVan_api vanId s with
    | (Ok (Done vanData), s) => (Ok (Done (Shown vanData)), s)
    | (Ok (Waiting t), s) => (Ok (Waiting t), s)
    | (Throw error, s) => (Ok (Done (Failed error)), s)
    end.

Definition currentIndex (vans : list VanConfig) (currentInfo : VanEntry) : Z :=
  findIndex (fun v => String.eqb (id v) (id (config currentInfo))) vans.

Definition prevIndex (vans : list VanConfig) (currentInfo : VanEntry) : Z :=
  Z.rem (currentIndex vans currentInfo - 1 + Z.of_nat (length vans))
    (Z.of_nat (length vans)).

Definition nextIndex (vans : list VanConfig) (currentInfo : VanEntry) : Z :=
  Z.rem (currentIndex vans currentInfo + 1) (Z.of_nat (length vans)).

(** [switchToPreviousVan()]: [None] when it returns without a
    selection. *)
Definition switchToPreviousVan : M (option (ApiStep Selected)) :=
  let* vans := getAvailableVans in
  if (length vans =? 0)%nat then ret None
  else
    let* currentInfo := getCurrentVanInfo in
    match currentInfo with
    | None =>
        let* vanId := id_at vans 0 in
        let* selected := onVanSelect vanId in
        ret (Some selected)
    | Some currentInfo =>
        let* vanId := id_at vans (prevIndex vans currentInfo) in
        let* selected := onVanSelect vanId in
        ret (Some selected)
    end.

(** [switchToNextVan()] *)
Definition switchToNextVan : M (option (ApiStep Selected)) :=
  let* vans := getAvailableVans in
  if (length vans =? 0)%nat then ret None
  else
    let* currentInfo := getCurrentVanInfo in
    match currentInfo with
    | None =>
        let* vanId := id_at vans 0 in
        let* selected := onVanSelect vanId in
        ret (Some selected)
    | Some currentInfo =>
        let* vanId := id_at vans (nextIndex vans currentInfo) in
        let* selected := onVanSelect vanId in
        ret (Some selected)
    end.

End UIController.

Section Arrows.
Import VanManager Api UIController.
Context {library : Library}.

(** A selection of the van with a given identifier. *)
Definition selecting (vanId : string) : M (option (ApiStep Selected)) :=
  let* selected := onVanSelect vanId in
  ret (Some selected).

Lemma getCurrentVanInfo_value (s : State) :
  exists r, getCurrentVanInfo s = (Ok r, s).
Proof.
  unfold getCurrentVanInfo, bind, gets, ret.
  destruct (currentVanId s) as [i|]; [|by eexists].
  destruct (String.eqb i ""); by eexists.
Qed.

Lemma findIndex_bounds {A} (p : A -> bool) (l : list A) :
  (-1 <= findIndex p l < Z.of_nat (length l))%Z.
Proof.
  induction l as [|a l IH]; cbn [findIndex length]; [lia|].
  destruct (p a); [lia|]. destruct (Z.ltb_spec (findIndex p l) 0); lia.
Qed.

(** Without a match the index is -1. *)
Lemma findIndex_none {A} (p : A -> bool) (l : list A) :
  Forall (fun a => p a = false) l -> findIndex p l = (-1)%Z.
Proof.
  induction 1 as [|a l Ha _ IH]; cbn [findIndex]; [done|].
  by rewrite Ha, IH.
Qed.

(** The index of the one element that matches. *)
Lemma findIndex_lookup {A} (p : A -> bool) (l : list A) (i : nat) (a : A) :
  l !! i = Some a -> p a = true ->
  (forall j b, l !! j = Some b -> p b = true -> j = i) ->
  findIndex p l = Z.of_nat i.
Proof.
  revert i. induction l as [|b l IH]; intros i Hi Ha Huniq; [done|].
  cbn [findIndex]. destruct (p b) eqn:Hb.
  - by rewrite <- (Huniq 0%nat b eq_refl Hb).
  - destruct i as [|i]; [cbn in Hi; congruence|].
    rewrite (IH i Hi Ha).
    + destruct (Z.ltb_spec (Z.of_nat i) 0); lia.
    + intros j c Hj Hc. by injection (Huniq (S j) c Hj Hc).
Qed.

Lemma id_at_lookup (vans : list VanConfig) (i : nat) (van : VanConfig)
    (s : State) :
  vans !! i = Some van -> id_at vans (Z.of_nat i) s = (Ok (id van), s).
Proof.
  intros Hi. unfold id_at.
  destruct (Z.ltb_spec (Z.of_nat i) 0); [lia|]. by rewrite Nat2Z.id, Hi.
Qed.

(** The two indices, as natural numbers. *)
Lemma nextIndex_nat (c : Z) (n : nat) :
  (0 < n)%nat -> (-1 <= c < Z.of_nat n)%Z ->
  Z.rem (c + 1) (Z.of_nat n) = Z.of_nat (Z.to_nat (c + 1) mod n).
Proof.
  intros Hn Hc. rewrite Z.rem_mod_nonneg by lia.
  rewrite Nat2Z.inj_mod, Z2Nat.id by lia. done.
Qed.

Lemma prevIndex_nat (c : Z) (n : nat) :
  (0 < n)%nat -> (-1 <= c < Z.of_nat n)%Z ->
  Z.rem (c - 1 + Z.of_nat n) (Z.of_nat n)
  = Z.of_nat (if decide (c = (-1)%Z /\ n = 1%nat) then 0
              else Z.to_nat (c - 1 + Z.of_nat n) mod n).
Proof.
  intros Hn Hc. case_decide as Hcase.
  - destruct Hcase as [-> ->]. reflexivity.
  - rewrite Z.rem_mod_nonneg by lia.
    rewrite Nat2Z.inj_mod, Z2Nat.id by lia. done.
Qed.

(** What the arrows do, given the listing and the current entry. *)
Lemma switchToNextVan_eq (s : State) (l : list VanConfig)
    (r : option VanEntry) (i : nat) (van : VanConfig) :
  getAvailableVans s = (Ok l, s) -> getCurrentVanInfo s = (Ok r, s) ->
  l !! i = Some van ->
  match r with
  | None => i = 0%nat
  | Some e => nextIndex l e = Z.of_nat i
  end ->
  switchToNextVan s = selecting (id van) s.
Proof.
  intros Hget Hinfo Hi Hr. unfold switchToNextVan, bind at 1. rewrite Hget.
  destruct l as [|v0 l0] eqn:Hl; [done|]. rewrite <- Hl in *.
  replace (length l =? 0)%nat with false by (by rewrite Hl).
  unfold bind at 1. rewrite Hinfo. destruct r as [e|].
  - unfold bind at 1. rewrite Hr, (id_at_lookup _ _ _ _ Hi). done.
  - subst i. unfold bind at 1.
    rewrite (id_at_lookup l 0 van s Hi : id_at l 0 s = _). done.
Qed.

Lemma switchToPreviousVan_eq (s : State) (l : list VanConfig)
    (r : option VanEntry) (i : nat) (van : VanConfig) :
  getAvailableVans s = (Ok l, s) -> getCurrentVanInfo s = (Ok r, s) ->
  l !! i = Some van ->
  match r with
  | None => i = 0%nat
  | Some e => prevIndex l e = Z.of_nat i
  end ->
  switchToPreviousVan s = selecting (id van) s.
Proof.
  intros Hget Hinfo Hi Hr. unfold switchToPreviousVan, bind at 1. rewrite Hget.
  destruct l as [|v0 l0] eqn:Hl; [done|]. rewrite <- Hl in *.
  replace (length l =? 0)%nat with false by (by rewrite Hl).
  unfold bind at 1. rewrite Hinfo. destruct r as [e|].
  - unfold bind at 1. rewrite Hr, (id_at_lookup _ _ _ _ Hi). done.
  - subst i. unfold bind at 1.
    rewrite (id_at_lookup l 0 van s Hi : id_at l 0 s = _). done.
Qed.

(** A selection of a listed van does not fail before it awaits. *)
Lemma onVanSelect_listed (s : State) (l : list VanConfig) (van : VanConfig) :
  getAvailableVans s = (Ok l, s) -> van ∈ l ->
  forall error, (onVanSelect (id van) s).1 <> Ok (Done (Failed error)).
Proof.
  intros Hget Hin error.
  destruct (getAvailableVans_value s) as (l' & Hget' & _ & Hl).
  assert (l' = l) as -> by congruence.
  destruct (find_config_listed s van) as (cfg & Hcfg & _).
  { destruct Hl as [->| ->]; auto. }
  destruct (loadVan_known _ _ _ Hcfg) as (st & s' & Hload).
  unfold onVanSelect, loadVan_api. rewrite Hload. by destruct st.
Qed.

(** X19: in every state of the manager, each arrow selects a van of
    the list that [getAvailableVans] returns: the list is never empty,
    the index that the arrow computes is inside it (also when the
    current van is not listed and [findIndex] gives -1), and the
    selection does not fail with the not-found error of [loadVan]. *)
Theorem arrows_select_listed (s : State) :
  exists l v w,
    getAvailableVans s = (Ok l, s) /\ v ∈ l /\ w ∈ l
    /\ switchToNextVan s = selecting (id v) s
    /\ switchToPreviousVan s = selecting (id w) s
    /\ (forall error, (onVanSelect (id v) s).1 <> Ok (Done (Failed error)))
    /\ (forall error, (onVanSelect (id w) s).1 <> Ok (Done (Failed error))).
Proof.
  destruct (getAvailableVans_value s) as (l & Hget & Hne & _).
  destruct (getCurrentVanInfo_value s) as (r & Hinfo).
  assert (Hlen : (0 < length l)%nat) by (destruct l; [done|cbn; lia]).
  assert (Hpick : exists i j v w,
             l !! i = Some v /\ l !! j = Some w
             /\ match r with
                | None => i = 0%nat
                | Some e => nextIndex l e = Z.of_nat i
                end
             /\ match r with
                | None => j = 0%nat
                | Some e => prevIndex l e = Z.of_nat j
                end).
  { destruct r as [e|].
    - pose proof (findIndex_bounds
                    (fun v => String.eqb (id v) (id (config e))) l) as Hc.
      fold (currentIndex l e) in Hc.
      unfold nextIndex, prevIndex.
      rewrite (nextIndex_nat _ _ Hlen Hc), (prevIndex_nat _ _ Hlen Hc).
      match goal with
      | |- context [Z.of_nat ?a = Z.of_nat _ /\ Z.of_nat ?b = Z.of_nat _] =>
          destruct (lookup_lt_is_Some_2 l a) as [v Hv];
          [apply Nat.mod_upper_bound; lia|];
          destruct (lookup_lt_is_Some_2 l b) as [w Hw];
          [case_decide; [lia|apply Nat.mod_upper_bound; lia]|];
          exists a, b, v, w
      end.
      by repeat split.
    - destruct (lookup_lt_is_Some_2 l 0 Hlen) as [v Hv].
      exists 0%nat, 0%nat, v, v. by repeat split. }
  destruct Hpick as (i & j & v & w & Hv & Hw & Hi & Hj).
  assert (Hvin : v ∈ l) by (by eapply list_elem_of_lookup_2).
  assert (Hwin : w ∈ l) by (by eapply list_elem_of_lookup_2).
  exists l, v, w. split; [exact Hget|]. split; [exact Hvin|].
  split; [exact Hwin|].
  split; [by eapply switchToNextVan_eq|].
  split; [by eapply switchToPreviousVan_eq|].
  split; by eapply onVanSelect_listed.
Qed.

(** X20: when the current van is listed, at position [i] of a list
    without repeated identifiers, the next arrow selects the van at
    position [i + 1] and the previous arrow the van at position [i - 1],
    both modulo the length of the list: the arrows wrap around. *)
Theorem arrows_cycle (s : State) (l : list VanConfig) (e : VanEntry)
    (i : nat) (c : VanConfig) :
  getAvailableVans s = (Ok l, s) ->
  (getCurrentVanInfo s).1 = Ok (Some e) ->
  NoDup (id <$> l) ->
  l !! i = Some c ->
  id c = id (config e) ->
  exists v w,
    l !! ((i + 1) mod length l) = Some v
    /\ l !! ((i + length l - 1) mod length l) = Some w
    /\ switchToNextVan s = selecting (id v) s
    /\ switchToPreviousVan s = selecting (id w) s.
Proof.
  intros Hget Hinfo Hdup Hi Hid.
  destruct (getCurrentVanInfo_value s) as (r & Hinfo').
  rewrite Hinfo' in Hinfo. injection Hinfo as ->.
  pose proof (lookup_lt_Some _ _ _ Hi) as Hlt.
  assert (Hc : currentIndex l e = Z.of_nat i).
  { apply (findIndex_lookup _ l i c Hi); [by apply String.eqb_eq|].
    intros j b Hj Hb%String.eqb_eq.
    apply (NoDup_lookup (id <$> l) j i (id c)); [done|..].
    - rewrite list_lookup_fmap, Hj. cbn. by rewrite Hb, Hid.
    - by rewrite list_lookup_fmap, Hi. }
  destruct (lookup_lt_is_Some_2 l ((i + 1) mod length l)) as [v Hv];
    [apply Nat.mod_upper_bound; lia|].
  destruct (lookup_lt_is_Some_2 l ((i + length l - 1) mod length l)) as [w Hw];
    [apply Nat.mod_upper_bound; lia|].
  exists v, w. split; [exact Hv|]. split; [exact Hw|]. split.
  - eapply switchToNextVan_eq; [done..|]. unfold nextIndex. rewrite Hc.
    rewrite nextIndex_nat by lia. do 2 f_equal. lia.
  - eapply switchToPreviousVan_eq; [done..|]. unfold prevIndex. rewrite Hc.
    rewrite prevIndex_nat by lia. rewrite decide_False by lia.
    do 2 f_equal. lia.
Qed.

(** X21: when the current van is not in the list (the van was loaded
    by number, or the list has changed since), [findIndex] gives -1:
    the next arrow selects the first van of the list, and the previous
    arrow the van before the last one, or the only van of a list of
    one. *)
Theorem arrows_unlisted (s : State) (l : list VanConfig) (e : VanEntry) :
  getAvailableVans s = (Ok l, s) ->
  (getCurrentVanInfo s).1 = Ok (Some e) ->
  Forall (fun c => id c <> id (config e)) l ->
  exists v w,
    l !! 0%nat = Some v
    /\ l !! (length l - 2)%nat = Some w
    /\ switchToNextVan s = selecting (id v) s
    /\ switchToPreviousVan s = selecting (id w) s.
Proof.
  intros Hget Hinfo Hall.
  destruct (getCurrentVanInfo_value s) as (r & Hinfo').
  rewrite Hinfo' in Hinfo. injection Hinfo as ->.
  destruct (getAvailableVans_value s) as (l' & Hget' & Hne & _).
  assert (l' = l) as -> by congruence.
  assert (Hlen : (0 < length l)%nat) by (destruct l; [done|cbn; lia]).
  assert (Hc : currentIndex l e = (-1)%Z).
  { apply findIndex_none. eapply Forall_impl; [exact Hall|].
    intros c Hc. by apply String.eqb_neq. }
  destruct (lookup_lt_is_Some_2 l 0 Hlen) as [v Hv].
  destruct (lookup_lt_is_Some_2 l (length l - 2)) as [w Hw]; [lia|].
  exists v, w. split; [exact Hv|]. split; [exact Hw|]. split.
  - eapply switchToNextVan_eq; [done..|]. unfold nextIndex. rewrite Hc.
    rewrite nextIndex_nat by lia. cbn. by rewrite Nat.Div0.mod_0_l.
  - eapply switchToPreviousVan_eq; [done..|]. unfold prevIndex. rewrite Hc.
    rewrite prevIndex_nat by lia. f_equal. case_decide as Hcase.
    + destruct Hcase as [_ ->]. done.
    + replace (Z.to_nat (-1 - 1 + Z.of_nat (length l))) with (length l - 2)%nat
        by lia.
      apply Nat.mod_small. lia.
Qed.

End Arrows.

Section ArrowsSamples.
Import VanManager Api UIController.
#[local] Existing Instance sample_library.

(** Vans 1 and 3 were detected and van 1 is shown. *)
Definition browsing : list Event := probing ++ showing.

Lemma arrows_cycle_witness :
  exists v w,
    [candidate 1; candidate 3] !! 1%nat = Some v
    /\ [candidate 1; candidate 3] !! 1%nat = Some w
    /\ switchToNextVan (reached browsing) = selecting (id v) (reached browsing)
    /\ switchToPreviousVan (reached browsing)
       = selecting (id w) (reached browsing).
Proof.
  assert (Hget : getAvailableVans (reached browsing)
                 = (Ok [candidate 1; candidate 3], reached browsing))
    by (vm_compute; reflexivity).
  assert (Hinfo : exists e,
             (getCurrentVanInfo (reached browsing)).1 = Ok (Some e)
             /\ id (candidate 1) = id (config e)).
  { eexists. split; vm_compute; reflexivity. }
  destruct Hinfo as (e & Hinfo & Hid).
  assert (Hdup : NoDup (id <$> [candidate 1; candidate 3])).
  { assert (Hids : id <$> [candidate 1; candidate 3] = ["van-001"; "van-003"])
      by (vm_compute; reflexivity).
    rewrite Hids. apply NoDup_cons.
    split; [by intros [=]%list_elem_of_singleton|apply NoDup_singleton]. }
  exact (arrows_cycle (reached browsing) [candidate 1; candidate 3] e 0
           (candidate 1) Hget Hinfo Hdup eq_refl Hid).
Defined.

(** Vans 1 and 3 were detected, and van 5 was loaded by its number. *)
Definition off_list : list Event :=
  probing ++ [ CallLoadVanByNumber 5; Settle 1 (Ok (sample_data "van-005")) ].

Lemma arrows_unlisted_witness :
  exists v w,
    [candidate 1; candidate 3] !! 0%nat = Some v
    /\ [candidate 1; candidate 3] !! 0%nat = Some w
    /\ switchToNextVan (reached off_list) = selecting (id v) (reached off_list)
    /\ switchToPreviousVan (reached off_list)
       = selecting (id w) (reached off_list).
Proof.
  assert (Hget : getAvailableVans (reached off_list)
                 = (Ok [candidate 1; candidate 3], reached off_list))
    by (vm_compute; reflexivity).
  assert (Hinfo : exists e,
             (getCurrentVanInfo (reached off_list)).1 = Ok (Some e)
             /\ id (config e) = "van-005").
  { eexists. split; vm_compute; reflexivity. }
  destruct Hinfo as (e & Hinfo & Hid).
  assert (Hall : Forall (fun c => id c <> id (config e))
                   [candidate 1; candidate 3]).
  { rewrite Hid. repeat constructor; vm_compute; discriminate. }
  exact (arrows_unlisted (reached off_list) [candidate 1; candidate 3] e
           Hget Hinfo Hall).
Defined.

End ArrowsSamples.

(** ** The garage and the start of the application *)

Module Garage.
Import VanManager.

(** The manager together with its [garageModel]. *)
Record Garage := mkGarage {
  manager : State;
  garageModel : option loc
}.

Definition garagePath : string := "models/garage/" +:+ "garage.glb".

Definition garage_request : Request :=
  GET garagePath
    {| opt_scale := 1; opt_position := mkVector3 0 0 0;
       opt_rotation := mkVector3 0 0 0 |}.

(** [this.scene.addObject(object)] on an object that has no parent. *)
Definition addObject (l : loc) (s : State) : State :=
  set_scene (scene s ++ [l])
    (set_heap
       (alter (fun i => mkInstance (object i) (Some TheScene)) l (heap s)) s).

(** A new object enters the store, becomes the garage model and is
    added to the scene. *)
Definition install (o : THREE.Object3D) (g : Garage) : loc * Garage :=
  let l := fresh (dom (heap (manager g))) in
  let s := set_heap (<[l := mkInstance o None]> (heap (manager g))) (manager g) in
  (l, mkGarage (addObject l s) (Some l)).

Section Placeholder.
Context {library : Library}.

(** The geometry that [new THREE.BoxGeometry(20, 8, 15)] builds. *)
Variable box : THREE.BufferGeometry.

(** The mesh of [createPlaceholderGarage]. *)
Definition placeholder : THREE.Object3D :=
  THREE.mkObject3D "" true (THREE.Buffer box) (mkVector3 0 4 0) (mkVector3 0 0 0)
    (mkVector3 1 1 1) true true true [].

(** [createPlaceholderGarage()] *)
Definition createPlaceholderGarage (g : Garage) : Garage :=
  (install placeholder g).2.

(** [loadGarage()] up to its [await]. *)
Definition loadGarage (g : Garage) : Garage :=
  mkGarage (request garage_request (manager g)) (garageModel g).

(** [loadGarage()] from its [await] on: the model is added to the scene
    before its metadata is computed for the log; whatever is thrown,
    the placeholder is created and the error thrown on. *)
Definition loadGarage_resume (outcome : Result ModelData) (g : Garage)
    : Result loc * Garage :=
  match outcome with
  | Throw error => (Throw error, createPlaceholderGarage g)
  | Ok garageData =>
      let (l, g) := install (data_model garageData) g in
      match ModelLoader.getModelInfo (data_model garageData) with
      | Ok _ => (Ok l, g)
      | Throw error => (Throw error, createPlaceholderGarage g)
      end
  end.

(** *** [loadInitialContent] of the application *)

(** Where [loadInitialContent] is suspended, or that it has ended. *)
Inductive Phase :=
  | AwaitGarage
  | AwaitDetect
  | AwaitVan (truckId : string) (truckConfig : VanConfig)
  | Finished.

Definition with_manager (s : State) (g : Garage) : Garage :=
  mkGarage s (garageModel g).

(** Up to the [await] of [loadGarage()]. *)
Definition loadInitialContent (g : Garage) : Phase * Garage :=
  (AwaitGarage, loadGarage g).

(** From [const vans = this.vanManager.getAvailableVans()] to the
    [await] of [loadVan(vans[0].id)]. *)
Definition loadFirstVan (g : Garage) : Phase * Garage :=
  match getAvailableVans (manager g) with
  | (Ok (van :: _), s) =>
      match loadVan (id van) s with
      | (Ok (Await (LoadVanTask truckId truckConfig)), s) =>
          (AwaitVan truckId truckConfig, with_manager s g)
      | (_, s) => (Finished, with_manager s g)
      end
  | (_, s) => (Finished, with_manager s g)
  end.

(** From the [await] of [loadGarage()] on: an error of [loadGarage] ends
    [loadInitialContent] in its [catch] block. *)
Definition loadInitialContent_garage (outcome : Result ModelData) (g : Garage)
    : Phase * Garage :=
  match loadGarage_resume outcome g with
  | (Throw _, g) => (Finished, g)
  | (Ok _, g) =>
      match detectAvailableVans (manager g) with
      | (Ok (Await _), s) => (AwaitDetect, with_manager s g)
      | (Ok (Return _), s) => loadFirstVan (with_manager s g)
      | (Throw _, s) => (Finished, with_manager s g)
      end
  end.

(** From the [await] of [detectAvailableVans()] on. *)
Definition loadInitialContent_detected (net : string -> FetchOutcome)
    (g : Garage) : Phase * Garage :=
  loadFirstVan (with_manager (detectAvailableVans_resume net (manager g)).2 g).

(** [loadInitialContent] until it awaits the first van or ends: the
    garage load settles with [outcome], the checks with [net]. *)
Definition startup (outcome : Result ModelData) (net : string -> FetchOutcome)
    (g : Garage) : Phase * Garage :=
  let (phase, g) := loadInitialContent_garage outcome (loadInitialContent g).2 in
  match phase with
  | AwaitDetect => loadInitialContent_detected net g
  | _ => (phase, g)
  end.

End Placeholder.

End Garage.

Section GarageProperties.
Import VanManager Garage.
Context {library : Library}.

Variable box : THREE.BufferGeometry.

(** The fields of the manager that a new garage object leaves alone. *)
Definition van_fields (s : State) :=
  (currentVan s, vans s, currentVanId s, availableVans s, vansDetected s,
   wheelModel s, requests s).

Lemma install_spec (o : THREE.Object3D) (g : Garage) :
  let l := fresh (dom (heap (manager g))) in
  (install o g).1 = l
  /\ garageModel (install o g).2 = Some l
  /\ scene (manager (install o g).2) = (scene (manager g) ++ [l])%list
  /\ heap (manager (install o g).2) !! l = Some (mkInstance o (Some TheScene))
  /\ (forall l', l' <> l ->
        heap (manager (install o g).2) !! l' = heap (manager g) !! l')
  /\ van_fields (manager (install o g).2) = van_fields (manager g).
Proof.
  unfold install, addObject. cbn.
  split; [done|]. split; [done|]. split; [done|]. split.
  - by rewrite lookup_alter_eq, lookup_insert_eq.
  - split; [|done]. intros l' Hne.
    by rewrite lookup_alter_ne, lookup_insert_ne.
Qed.

Lemma install_fresh (o : THREE.Object3D) (g : Garage) :
  fresh (dom (heap (manager (install o g).2)))
  <> fresh (dom (heap (manager g))).
Proof.
  intros Heq. apply (is_fresh (dom (heap (manager (install o g).2)))).
  rewrite Heq. apply elem_of_dom.
  destruct (install_spec o g) as (_ & _ & _ & -> & _). by eexists.
Qed.

Lemma loadGarage_leaves_garage_fields (outcome : Result ModelData) (g : Garage) :
  van_fields (manager (loadGarage_resume box outcome g).2)
  = van_fields (manager g).
Proof.
  unfold loadGarage_resume, createPlaceholderGarage.
  destruct outcome as [garageData|error].
  - destruct (install (data_model garageData) g) as [l g1] eqn:Hinst.
    pose proof (install_spec (data_model garageData) g) as Hspec.
    rewrite Hinst in Hspec. cbn [fst snd] in Hspec.
    destruct Hspec as (_ & _ & _ & _ & _ & Hf).
    destruct (ModelLoader.getModelInfo (data_model garageData)); [exact Hf|].
    destruct (install_spec (placeholder box) g1) as (_ & _ & _ & _ & _ & Hf').
    cbn [snd]. congruence.
  - by destruct (install_spec (placeholder box) g) as (_ & _ & _ & _ & _ & Hf').
Qed.

(** X22: however the load of the garage settles, and whether or not its
    metadata can be computed, [loadGarage] leaves the manager with a
    garage model that is the last object of the scene; when the call
    throws, that model is the placeholder box, and when it returns, it
    is the loaded model, which is what the call returns.  The vans,
    the current van and the log of requests are as before. *)
Theorem loadGarage_leaves_garage (outcome : Result ModelData) (g : Garage) :
  exists l,
    garageModel (loadGarage_resume box outcome g).2 = Some l
    /\ last (scene (manager (loadGarage_resume box outcome g).2)) = Some l
    /\ match (loadGarage_resume box outcome g).1 with
       | Ok returned =>
           returned = l
           /\ exists garageData,
                outcome = Ok garageData
                /\ heap (manager (loadGarage_resume box outcome g).2) !! l
                   = Some (mkInstance (data_model garageData) (Some TheScene))
       | Throw error =>
           heap (manager (loadGarage_resume box outcome g).2) !! l
           = Some (mkInstance (placeholder box) (Some TheScene))
       end
    /\ van_fields (manager (loadGarage_resume box outcome g).2)
       = van_fields (manager g).
Proof.
  unfold loadGarage_resume, createPlaceholderGarage.
  destruct outcome as [garageData|error].
  - destruct (install (data_model garageData) g) as [l g1] eqn:Hinst.
    pose proof (install_spec (data_model garageData) g) as Hspec.
    rewrite Hinst in Hspec. cbn [fst snd] in Hspec.
    destruct Hspec as (-> & Hg & Hs & Hh & _ & Hf).
    destruct (ModelLoader.getModelInfo (data_model garageData)) as [meta|error].
    + eexists. split; [exact Hg|]. cbn [fst snd].
      split; [by rewrite Hs, last_snoc|]. split; [|exact Hf].
      split; [done|]. by exists garageData.
    + destruct (install_spec (placeholder box) g1) as (_ & Hg' & Hs' & Hh' & _ & Hf').
      eexists. split; [exact Hg'|]. cbn [fst snd].
      split; [by rewrite Hs', last_snoc|]. split; [exact Hh'|congruence].
  - destruct (install_spec (placeholder box) g) as (_ & Hg' & Hs' & Hh' & _ & Hf').
    eexists. split; [exact Hg'|]. cbn [fst snd].
    split; [by rewrite Hs', last_snoc|]. by split.
Qed.

(** X23: when the garage loads but its metadata cannot be computed (a
    mesh has a geometry without positions), [loadGarage] throws after
    the loaded model has been added to the scene: the scene then holds
    both the loaded model and, after it, the placeholder, and the
    garage model is the placeholder. *)
Theorem loadGarage_metadata_failure (garageData : ModelData) (error : Error)
    (g : Garage) :
  ModelLoader.getModelInfo (data_model garageData) = Throw error ->
  exists loaded fallback,
    loaded <> fallback
    /\ (loadGarage_resume box (Ok garageData) g).1 = Throw error
    /\ scene (manager (loadGarage_resume box (Ok garageData) g).2)
       = (scene (manager g) ++ [loaded; fallback])%list
    /\ heap (manager (loadGarage_resume box (Ok garageData) g).2) !! loaded
       = Some (mkInstance (data_model garageData) (Some TheScene))
    /\ heap (manager (loadGarage_resume box (Ok garageData) g).2) !! fallback
       = Some (mkInstance (placeholder box) (Some TheScene))
    /\ garageModel (loadGarage_resume box (Ok garageData) g).2 = Some fallback.
Proof.
  intros Hinfo. unfold loadGarage_resume, createPlaceholderGarage.
  destruct (install (data_model garageData) g) as [l g1] eqn:Hinst.
  pose proof (install_spec (data_model garageData) g) as Hspec.
  pose proof (install_fresh (data_model garageData) g) as Hfresh.
  rewrite Hinst in Hspec, Hfresh. cbn [fst snd] in Hspec, Hfresh.
  destruct Hspec as (-> & Hg & Hs & Hh & _ & Hf).
  rewrite Hinfo.
  destruct (install_spec (placeholder box) g1) as (_ & Hg' & Hs' & Hh' & Hother & _).
  eexists _, _. split; [by apply not_eq_sym, Hfresh|]. cbn [fst snd].
  split; [done|]. split; [by rewrite Hs', Hs, <- app_assoc|].
  split; [|by split]. rewrite Hother; [exact Hh|]. by apply not_eq_sym.
Qed.

Lemma detectAvailableVans_fresh (s : State) :
  vansDetected s = false ->
  detectAvailableVans s
  = (Ok (Await DetectTask),
     set_requests
       (requests s ++ ((fun i => HEAD (vanPath i)) <$> seq 1 checkCount)) s).
Proof.
  intros Hdet. unfold detectAvailableVans, bind, gets, modify, ret.
  rewrite Hdet. by rewrite issue_all.
Qed.

(** The first survivor is the least. *)
Lemma survivors_least (net : string -> FetchOutcome) :
  Forall (fun j => (hd 1 (survivors net) <= j)%nat) (survivors net).
Proof.
  assert (Hsorted : StronglySorted lt (survivors net))
    by apply filter_StronglySorted, seq_StronglySorted.
  destruct (survivors net) as [|i rest]; [constructor|].
  apply StronglySorted_inv in Hsorted as [_ Hall]. cbn [hd].
  constructor; [lia|]. eapply Forall_impl; [exact Hall|]. cbn. lia.
Qed.

(** The first van of the listing after a probe, and its request. *)
Lemma loadFirstVan_probed (net : string -> FetchOutcome) (g : Garage)
    (s0 : State) :
  manager g
  = set_vansDetected true
      (set_availableVans (candidate <$> survivors net) s0) ->
  vans s0 = ∅ ->
  exists truckConfig,
    loadFirstVan g
    = (AwaitVan (CONFIG.getVanId (hd 1 (survivors net))) truckConfig,
       with_manager
         (request (GET (vanPath (hd 1 (survivors net))) defaultOptions)
            (set_current_visible false (manager g))) g).
Proof.
  intros Hm Hvans. unfold loadFirstVan.
  set (first := hd 1 (survivors net)).
  assert (Hlist : exists van rest,
             getAvailableVans (manager g) = (Ok (van :: rest), manager g)
             /\ id van = CONFIG.getVanId first
             /\ (van ∈ CONFIG.list \/ van ∈ availableVans (manager g))).
  { unfold getAvailableVans, bind, gets, ret. rewrite Hm.
    cbn [vansDetected availableVans set_vansDetected set_availableVans].
    unfold first. destruct (survivors net) as [|i rest].
    - eexists _, _. split; [reflexivity|]. split; [reflexivity|].
      left. by left.
    - eexists _, _. split; [reflexivity|]. split; [reflexivity|].
      right. by left. }
  destruct Hlist as (van & rest & -> & Hid & Hin).
  destruct (find_config_listed (manager g) van Hin) as (cfg & Hcfg & Hcid).
  assert (Hnone : vans (manager g) !! id van = None)
    by (rewrite Hm; cbn [vans set_vansDetected set_availableVans];
        by rewrite Hvans, lookup_empty).
  rewrite (loadVan_uncached _ _ _ Hnone Hcfg). exists cfg.
  rewrite Hid. do 3 f_equal.
  destruct (find_config_Some _ _ _ Hcfg) as [_ Hcin].
  rewrite (load_request_known cfg (survivors net)).
  - by rewrite Hcid, Hid.
  - destruct Hcin as [?|Hcin]; [by left|right].
    by rewrite Hm in Hcin.
Qed.

(** X24: the requests of the start of the application, from a manager
    that has not probed and has nothing cached.  When [loadGarage]
    throws, [loadInitialContent] ends at once: after the request for the
    garage nothing is sent, no van is probed and none is loaded.  When
    it returns, the hundred existence checks follow, and then one
    request, for the detected van with the least number, or for van 1
    when none was detected. *)
Theorem startup_requests (outcome : Result ModelData)
    (net : string -> FetchOutcome) (g : Garage) :
  vansDetected (manager g) = false ->
  vans (manager g) = ∅ ->
  match (loadGarage_resume box outcome (loadGarage g)).1 with
  | Throw _ =>
      (startup box outcome net g).1 = Finished
      /\ requests (manager (startup box outcome net g).2)
         = (requests (manager g) ++ [garage_request])%list
      /\ vansDetected (manager (startup box outcome net g).2) = false
  | Ok _ =>
      (exists truckConfig,
         (startup box outcome net g).1
         = AwaitVan (CONFIG.getVanId (hd 1 (survivors net))) truckConfig)
      /\ requests (manager (startup box outcome net g).2)
         = (requests (manager g) ++ [garage_request]
            ++ ((fun i => HEAD (vanPath i)) <$> seq 1 checkCount)
            ++ [GET (vanPath (hd 1 (survivors net))) defaultOptions])%list
      /\ Forall (fun j => (hd 1 (survivors net) <= j)%nat) (survivors net)
  end.
Proof.
  intros Hdet Hvans.
  pose proof (loadGarage_leaves_garage_fields outcome (loadGarage g)) as Hf.
  destruct (loadGarage_resume box outcome (loadGarage g)) as [[l|error] g1]
    eqn:Hres; cbn [fst snd] in Hf |- *;
    injection Hf as Hc Hv Hi Ha Hd Hw Hr;
    cbn [loadGarage manager vans vansDetected requests request set_requests] in *.
  - assert (Hstart : exists cfg s3 gm,
               startup box outcome net g
               = (AwaitVan (CONFIG.getVanId (hd 1 (survivors net))) cfg,
                  mkGarage
                    (request (GET (vanPath (hd 1 (survivors net))) defaultOptions)
                       (set_current_visible false s3)) gm)
               /\ requests s3
                  = (requests (manager g1)
                     ++ ((fun i => HEAD (vanPath i)) <$> seq 1 checkCount))%list).
    { unfold startup, loadInitialContent, loadInitialContent_garage.
      change ((AwaitGarage, loadGarage g).2) with (loadGarage g).
      rewrite Hres.
      rewrite (detectAvailableVans_fresh (manager g1)) by congruence.
      cbv beta iota. unfold loadInitialContent_detected.
      rewrite detectAvailableVans_resume_eq. cbn [snd].
      match goal with
      | |- context [loadFirstVan ?g0] =>
          destruct (loadFirstVan_probed net g0 _ eq_refl) as (cfg & ->);
          [cbn [vans set_requests manager with_manager]; by rewrite Hv|]
      end.
      eexists cfg, _, _. split; [reflexivity|]. reflexivity. }
    destruct Hstart as (cfg & s3 & gm & -> & Hs3). cbn [fst snd manager].
    split; [by exists cfg|]. split; [|apply survivors_least].
    unfold request. cbn [requests set_requests].
    assert (Hvis : requests (set_current_visible false s3) = requests s3)
      by (unfold set_current_visible; by destruct (currentVan s3)).
    rewrite Hvis, Hs3, Hr, <- !app_assoc. reflexivity.
  - assert (Hstart : startup box outcome net g = (Finished, g1)).
    { unfold startup, loadInitialContent, loadInitialContent_garage.
      change ((AwaitGarage, loadGarage g).2) with (loadGarage g).
      by rewrite Hres. }
    rewrite Hstart. cbn [fst snd]. split; [done|]. split; congruence.
Qed.

End GarageProperties.

Section GarageSamples.
Import VanManager Garage.
#[local] Existing Instance sample_library.

(** A box geometry: 24 vertices, 36 indices. *)
Definition sample_box : THREE.BufferGeometry :=
  THREE.mkBufferGeometry (Some 36%nat) (Some 24%nat).

(** A garage whose one mesh has lost its positions. *)
Definition broken_garage : ModelData :=
  mkModelData
    (THREE.mkObject3D "garage" true (THREE.Buffer (THREE.mkBufferGeometry (Some 300%nat) None))
       (mkVector3 0 0 0) (mkVector3 0 0 0) (mkVector3 1 1 1) true true true [])
    [] 0.

(** The application as it starts: the manager after its constructor,
    no garage yet. *)
Definition fresh_app : Garage :=
  mkGarage (EventLoop.state EventLoop.start) None.

Lemma loadGarage_metadata_failure_witness :
  (loadGarage_resume sample_box (Ok broken_garage) (loadGarage fresh_app)).1
  = Throw TypeError
  /\ scene (manager (loadGarage_resume sample_box (Ok broken_garage)
                       (loadGarage fresh_app)).2)
     = [0; 1]%nat.
Proof.
  destruct (loadGarage_metadata_failure sample_box broken_garage TypeError
              (loadGarage fresh_app) eq_refl)
    as (loaded & fallback & _ & Hthrow & _).
  split; [exact Hthrow|]. vm_compute. reflexivity.
Defined.

Lemma startup_requests_witness :
  exists truckConfig,
    (startup sample_box (Ok (sample_data "garage")) sample_net fresh_app).1
    = AwaitVan "van-001" truckConfig.
Proof.
  pose proof (startup_requests sample_box (Ok (sample_data "garage")) sample_net
                fresh_app eq_refl eq_refl) as H.
  assert (Hok : exists l,
             (loadGarage_resume sample_box (Ok (sample_data "garage"))
                (loadGarage fresh_app)).1 = Ok l).
  { eexists. vm_compute. reflexivity. }
  destruct Hok as (l & Hok). rewrite Hok in H.
  destruct H as (H & _).
  assert (Hfirst : hd 1%nat (survivors sample_net) = 1%nat)
    by (vm_compute; reflexivity).
  rewrite Hfirst in H. exact H.
Defined.

(** The start of the application when the garage fails to load: the
    placeholder is in the scene, and no van was probed or requested. *)
Example startup_without_garage :
  let app := (startup sample_box (Throw (LoaderError "404")) sample_net
                fresh_app) in
  app.1 = Finished
  /\ scene (manager app.2) = [0%nat]
  /\ vansDetected (manager app.2) = false
  /\ length (requests (manager app.2)) = 2%nat.
Proof. compute_conj. Qed.

End GarageSamples.
